(** * Verification of the extraction and adjudication pipeline

    A shallow embedding of the parts of the financial-filing agent that the
    testable properties of its specification talk about:

    - [src/utils/periods.py]            (period parser, label standardizer)
    - [src/services/candidate_generator.py] (numeric parser, table path, scoring)
    - [src/services/validators.py]      (deterministic validator)
    - [src/services/blockification.py]  (table merge and similarity test)
    - [src/services/section_locator.py] (section boundaries and merge)
    - [src/services/llm_adjudicator.py] (adjudication with fallback)
    - [src/analysis/derived_metrics.py] (year-over-year growth, ratios)
    - [src/utils/currency.py]           (currencies, scales, detection)

    Conventions of the embedding.

    - Text is a [string] whose characters are the code points U+0000..U+00FF;
      the character tables ([isspace], [lower], [\d], [\w]) are Python's on
      that range.  The euro sign U+20AC lies outside it.
    - [Decimal] values are finite decimals [coef * 10 ^ dexp] in the default
      context (precision 28, ROUND_HALF_EVEN); the exponent limits of the
      context and the sign of zero are not modelled.
    - A Python exception is a value of [exn]; a function that can raise
      returns a [result].
    - Python dictionaries whose iteration order matters are association
      lists in insertion order; the iteration order of a Python set is a
      parameter of the functions that iterate over one. *)

From Stdlib Require Import ZArith List String Ascii Bool Lia Permutation.
From Stdlib Require Import Sorting.Sorted.
Import ListNotations.

Local Open Scope string_scope.
Local Open Scope list_scope.
Local Open Scope Z_scope.

Set Implicit Arguments.

(* ===================================================================== *)
(** * Exceptions *)
(* ===================================================================== *)

Inductive exn : Type :=
| ValueError
| KeyError
| IndexError
| AttributeError
| ZeroDivisionError
| InvalidOperation
| ClientError.

Inductive result (A : Type) : Type :=
| Ok (a : A)
| Raise (e : exn).

Arguments Ok {A} a.
Arguments Raise {A} e.

Definition bind {A B : Type} (r : result A) (k : A -> result B) : result B :=
  match r with
  | Ok a => k a
  | Raise e => Raise e
  end.

Notation "x <- r ;; k" := (bind r (fun x => k))
  (at level 61, r at next level, right associativity).

(* ===================================================================== *)
(** * Text: the [str] methods the sources use *)
(* ===================================================================== *)

Module Text.

Definition code (c : ascii) : Z := Z.of_N (N_of_ascii c).

Definition chr (n : Z) : ascii := ascii_of_N (Z.to_N n).

Definition in_range (lo hi : Z) (c : ascii) : bool :=
  (lo <=? code c) && (code c <=? hi).

(** [str.isspace] and [\s]. *)
Definition isspace (c : ascii) : bool :=
  in_range 9 13 c || in_range 28 32 c || (code c =? 133) || (code c =? 160).

(** [\d]: the decimal digits. *)
Definition isdecimal (c : ascii) : bool := in_range 48 57 c.

Definition isupper_ascii (c : ascii) : bool := in_range 65 90 c.
Definition islower_ascii (c : ascii) : bool := in_range 97 122 c.
Definition isalpha_ascii (c : ascii) : bool := isupper_ascii c || islower_ascii c.

(** [\w]: alphanumeric characters and the underscore. *)
Definition isword (c : ascii) : bool :=
  isalpha_ascii c || isdecimal c || (code c =? 95)
  || (code c =? 170) || (code c =? 178) || (code c =? 179) || (code c =? 181)
  || (code c =? 185) || (code c =? 186) || in_range 188 190 c
  || in_range 192 214 c || in_range 216 246 c || in_range 248 255 c.

(** [str.isdigit]: not empty, and digits only (the superscripts one, two
    and three count as digits). *)
Definition isdigit_char (c : ascii) : bool :=
  isdecimal c || (code c =? 178) || (code c =? 179) || (code c =? 185).

(** [str.lower] on one character. *)
Definition lower_char (c : ascii) : ascii :=
  if isupper_ascii c then chr (code c + 32)
  else if in_range 192 222 c && negb (code c =? 215) then chr (code c + 32)
  else c.

Fixpoint lower (s : string) : string :=
  match s with
  | EmptyString => EmptyString
  | String c s' => String (lower_char c) (lower s')
  end.

Fixpoint lstrip (s : string) : string :=
  match s with
  | EmptyString => EmptyString
  | String c s' => if isspace c then lstrip s' else s
  end.

Fixpoint rstrip (s : string) : string :=
  match s with
  | EmptyString => EmptyString
  | String c s' =>
      match rstrip s' with
      | EmptyString => if isspace c then EmptyString else String c EmptyString
      | r => String c r
      end
  end.

Definition strip (s : string) : string := rstrip (lstrip s).

(** [needle in hay]. *)
Fixpoint contains (needle hay : string) : bool :=
  if prefix needle hay then true
  else match hay with
       | EmptyString => false
       | String _ hay' => contains needle hay'
       end.

(** [c in s] for one character. *)
Fixpoint has_char (c : ascii) (s : string) : bool :=
  match s with
  | EmptyString => false
  | String x s' => Ascii.eqb x c || has_char c s'
  end.

(** [s.replace(old, new)] for a one-character [old]. *)
Fixpoint replace_char (old : ascii) (new : string) (s : string) : string :=
  match s with
  | EmptyString => EmptyString
  | String c s' =>
      if Ascii.eqb c old then (new ++ replace_char old new s')%string
      else String c (replace_char old new s')
  end.

Fixpoint forallb (p : ascii -> bool) (s : string) : bool :=
  match s with
  | EmptyString => true
  | String c s' => p c && forallb p s'
  end.

Fixpoint take (n : nat) (s : string) : string :=
  match n, s with
  | S n', String c s' => String c (take n' s')
  | _, _ => EmptyString
  end.

Fixpoint drop (n : nat) (s : string) : string :=
  match n, s with
  | S n', String _ s' => drop n' s'
  | _, _ => s
  end.

Definition isdigit (s : string) : bool :=
  match s with
  | EmptyString => false
  | _ => forallb isdigit_char s
  end.

(** [int(s)] for a string of decimal digits. *)
Definition digit_val (c : ascii) : Z := code c - 48.

Fixpoint int_acc (acc : Z) (s : string) : Z :=
  match s with
  | EmptyString => acc
  | String c s' => int_acc (10 * acc + digit_val c) s'
  end.

Definition int (s : string) : Z := int_acc 0 s.

(** [str(n)] for a non-negative integer. *)
Fixpoint str_fuel (fuel : nat) (n : Z) (acc : string) : string :=
  match fuel with
  | O => acc
  | S f =>
      let acc' := String (chr (48 + n mod 10)) acc in
      if n <? 10 then acc' else str_fuel f (n / 10) acc'
  end.

Definition str (n : Z) : string :=
  str_fuel (S (Z.to_nat (Z.log2 n))) n EmptyString.

(** Comparison of strings, code point by code point ([<=] on [str]). *)
Fixpoint leb (a b : string) : bool :=
  match a, b with
  | EmptyString, _ => true
  | String _ _, EmptyString => false
  | String x a', String y b' =>
      if code x <? code y then true
      else if code y <? code x then false
      else leb a' b'
  end.

(** [str.upper] leaves the alphabet on three characters (the micro sign,
    the sharp s and the y with diaeresis), so its result is kept as a list
    of code points. *)
Definition upper_points (c : ascii) : list Z :=
  if islower_ascii c then [code c - 32]
  else if code c =? 181 then [924]
  else if code c =? 223 then [83; 83]
  else if code c =? 255 then [376]
  else if in_range 224 254 c && negb (code c =? 247) then [code c - 32]
  else [code c].

Fixpoint upper (s : string) : list Z :=
  match s with
  | EmptyString => []
  | String c s' => upper_points c ++ upper s'
  end.

(** The code points of a string. *)
Fixpoint points (s : string) : list Z :=
  match s with
  | EmptyString => []
  | String c s' => code c :: points s'
  end.

Fixpoint points_eqb (a b : list Z) : bool :=
  match a, b with
  | [], [] => true
  | x :: a', y :: b' => (x =? y) && points_eqb a' b'
  | _, _ => false
  end.

Fixpoint prefix_points (needle hay : list Z) : bool :=
  match needle, hay with
  | [], _ => true
  | x :: n', y :: h' => (x =? y) && prefix_points n' h'
  | _ :: _, [] => false
  end.

(** [needle in hay] on code points. *)
Fixpoint contains_points (needle hay : list Z) : bool :=
  if prefix_points needle hay then true
  else match hay with
       | [] => false
       | _ :: hay' => contains_points needle hay'
       end.

End Text.

(* ===================================================================== *)
(** * Decimal: [decimal.Decimal] in the default context *)
(* ===================================================================== *)

Module Dec.

Record Decimal : Type := mk { coef : Z; dexp : Z }.

Definition prec : Z := 28.

Fixpoint ndigits_fuel (fuel : nat) (n : Z) : Z :=
  match fuel with
  | O => 1
  | S f => if n <? 10 then 1 else 1 + ndigits_fuel f (n / 10)
  end.

(** [len(str(n))] for [n >= 0]. *)
Definition ndigits (n : Z) : Z := ndigits_fuel (S (Z.to_nat (Z.log2 n))) n.

Fixpoint strip_zeros (fuel : nat) (c e : Z) : Decimal :=
  match fuel with
  | O => mk c e
  | S f =>
      if c =? 0 then mk 0 0
      else if c mod 10 =? 0 then strip_zeros f (c / 10) (e + 1)
      else mk c e
  end.

(** The representative of a value: no trailing zero in the coefficient.
    Two decimals are equal as numbers iff their representatives are equal. *)
Definition canon (c e : Z) : Decimal :=
  strip_zeros (S (Z.to_nat (Z.log2 (Z.abs c)))) c e.

(** [Decimal._fix]: round the coefficient to [prec] digits, half to even. *)
Definition fix_ (c e : Z) : Decimal :=
  let a := Z.abs c in
  let d := ndigits a - prec in
  if d <=? 0 then canon c e
  else
    let q := a / 10 ^ d in
    let r := a mod 10 ^ d in
    let half := 5 * 10 ^ (d - 1) in
    let q' := if (half <? r) || ((r =? half) && Z.odd q) then q + 1 else q in
    canon (Z.sgn c * q') (e + d).

Definition is_zero (x : Decimal) : bool := coef x =? 0.

(** Both coefficients brought to the smaller exponent. *)
Definition align (x y : Decimal) : Z * Z * Z :=
  let e := Z.min (dexp x) (dexp y) in
  (coef x * 10 ^ (dexp x - e), coef y * 10 ^ (dexp y - e), e).

Definition eqb (x y : Decimal) : bool :=
  let '(a, b, _) := align x y in a =? b.

Definition ltb (x y : Decimal) : bool :=
  let '(a, b, _) := align x y in a <? b.

Definition leb (x y : Decimal) : bool :=
  let '(a, b, _) := align x y in a <=? b.

Definition neg (x : Decimal) : Decimal := fix_ (- coef x) (dexp x).

Definition abs (x : Decimal) : Decimal := fix_ (Z.abs (coef x)) (dexp x).

Definition add (x y : Decimal) : Decimal :=
  let '(a, b, e) := align x y in fix_ (a + b) e.

Definition sub (x y : Decimal) : Decimal :=
  let '(a, b, e) := align x y in fix_ (a - b) e.

Definition mul (x y : Decimal) : Decimal :=
  fix_ (coef x * coef y) (dexp x + dexp y).

(** [Decimal.__truediv__]: the quotient is computed with [prec + 1] or
    [prec + 2] digits, a non-zero remainder is recorded in the last digit,
    and [_fix] rounds. *)
Definition div (x y : Decimal) : result Decimal :=
  if is_zero y then
    if is_zero x then Raise InvalidOperation else Raise ZeroDivisionError
  else if is_zero x then Ok (mk 0 0)
  else
    let a := Z.abs (coef x) in
    let b := Z.abs (coef y) in
    let shift := ndigits b - ndigits a + prec + 1 in
    let e := dexp x - dexp y - shift in
    let '(q, r) :=
      if 0 <=? shift then Z.div_eucl (a * 10 ^ shift) b
      else Z.div_eucl a (b * 10 ^ (- shift)) in
    let q' := if negb (r =? 0) && (q mod 5 =? 0) then q + 1 else q in
    Ok (fix_ (Z.sgn (coef x) * Z.sgn (coef y) * q') e).

Definition of_Z (n : Z) : Decimal := canon n 0.

(** [Decimal(s)] for a numeral [digits[.digits]] with an optional sign. *)
Fixpoint split_dot (s : string) : string * option string :=
  match s with
  | EmptyString => (EmptyString, None)
  | String c s' =>
      if Ascii.eqb c "."%char then (EmptyString, Some s')
      else let '(a, b) := split_dot s' in (String c a, b)
  end.

Definition of_unsigned (s : string) : result Decimal :=
  let '(ip, fp) := split_dot s in
  let fp := match fp with Some f => f | None => EmptyString end in
  if Text.forallb Text.isdecimal ip && Text.forallb Text.isdecimal fp
     && negb (String.eqb (ip ++ fp)%string EmptyString)
  then Ok (canon (Text.int (ip ++ fp)%string) (- Z.of_nat (String.length fp)))
  else Raise InvalidOperation.

Definition of_string (s : string) : result Decimal :=
  match s with
  | String c s' =>
      if Ascii.eqb c "-" then
        d <- of_unsigned s' ;; Ok (mk (- coef d) (dexp d))
      else if Ascii.eqb c "+" then of_unsigned s'
      else of_unsigned s
  | EmptyString => of_unsigned s
  end.

End Dec.

(* ===================================================================== *)
(** * Regular expressions: the fragment of [re] used by the patterns *)
(* ===================================================================== *)

Module Re.

(** Repetition is only ever applied to a character class in the patterns of
    the sources, so [Rep] takes a class. *)
Inductive regex : Type :=
| Eps
| Chr (c : ascii)
| Cls (p : ascii -> bool)
| Seq (r1 r2 : regex)
| Alt (r1 r2 : regex)
| Rep (p : ascii -> bool) (lo : nat) (hi : option nat) (greedy : bool)
| NotWord
| Grp (r : regex).

Fixpoint ngroups (r : regex) : nat :=
  match r with
  | Seq r1 r2 | Alt r1 r2 => (ngroups r1 + ngroups r2)%nat
  | Grp r' => S (ngroups r')
  | _ => O
  end.

(** One way of matching at the head of the subject: the text consumed, the
    contents of the groups ([None] for a group that took no part) and the
    rest of the subject. *)
Definition hit : Type := string * list (option string) * string.

Definition nones (n : nat) : list (option string) := repeat None n.

(** Length of the longest prefix whose characters are all in the class,
    cut at [hi]. *)
Fixpoint span (p : ascii -> bool) (hi : option nat) (s : string) : nat :=
  match hi with
  | Some O => O
  | _ =>
      match s with
      | String c s' =>
          if p c then S (span p (option_map Nat.pred hi) s') else O
      | EmptyString => O
      end
  end.

(** The lengths tried for a repetition, in the order [re] tries them. *)
Definition counts (lo n : nat) (greedy : bool) : list nat :=
  if (n <? lo)%nat then []
  else let up := seq lo (S n - lo) in
       if greedy then rev up else up.

Definition char_eq (icase : bool) (c x : ascii) : bool :=
  if icase then Ascii.eqb (Text.lower_char c) (Text.lower_char x)
  else Ascii.eqb c x.

(** All the ways of matching [r] at the head of [s], in the order in which
    the backtracking matcher of [re] finds them. *)
Fixpoint run (icase : bool) (r : regex) (s : string) : list hit :=
  match r with
  | Eps => [(EmptyString, [], s)]
  | Chr c =>
      match s with
      | String x s' =>
          if char_eq icase c x then [(String x EmptyString, [], s')] else []
      | EmptyString => []
      end
  | Cls p =>
      match s with
      | String x s' => if p x then [(String x EmptyString, [], s')] else []
      | EmptyString => []
      end
  | Seq r1 r2 =>
      flat_map
        (fun h1 : hit =>
           let '(w1, g1, s1) := h1 in
           map (fun h2 : hit =>
                  let '(w2, g2, s2) := h2 in ((w1 ++ w2)%string, g1 ++ g2, s2))
               (run icase r2 s1))
        (run icase r1 s)
  | Alt r1 r2 =>
      map (fun h : hit => let '(w, g, s') := h in
                          (w, g ++ nones (ngroups r2), s'))
          (run icase r1 s)
      ++ map (fun h : hit => let '(w, g, s') := h in
                             (w, nones (ngroups r1) ++ g, s'))
             (run icase r2 s)
  | Rep p lo hi greedy =>
      map (fun k => (Text.take k s, [], Text.drop k s))
          (counts lo (span p hi s) greedy)
  | NotWord =>
      match s with
      | String x _ => if Text.isword x then [] else [(EmptyString, [], s)]
      | EmptyString => [(EmptyString, [], s)]
      end
  | Grp r' =>
      map (fun h : hit => let '(w, g, s') := h in (w, Some w :: g, s'))
          (run icase r' s)
  end.

(** [re.search]: the first way of matching at the leftmost position that
    has one.  The result is the text before the match and the hit. *)
Fixpoint search_from (icase : bool) (r : regex) (before s : string)
  : option (string * hit) :=
  match run icase r s with
  | h :: _ => Some (before, h)
  | [] =>
      match s with
      | EmptyString => None
      | String c s' =>
          search_from icase r (before ++ String c EmptyString)%string s'
      end
  end.

Definition search (icase : bool) (r : regex) (s : string)
  : option (string * hit) :=
  search_from icase r EmptyString s.

Definition matched (h : string * hit) : string := fst (fst (snd h)).
Definition groups (h : string * hit) : list (option string) := snd (fst (snd h)).

Definition found (icase : bool) (r : regex) (s : string) : bool :=
  match search icase r s with Some _ => true | None => false end.

(** [re.sub(r, repl, s)] for a pattern that cannot match the empty string:
    leftmost matches, not overlapping, each replaced by [repl]. *)
Fixpoint sub_fuel (fuel : nat) (icase : bool) (r : regex) (repl s : string)
  : string :=
  match fuel with
  | O => s
  | S f =>
      match run icase r s with
      | (String _ _, _, rest) :: _ =>
          (repl ++ sub_fuel f icase r repl rest)%string
      | _ =>
          match s with
          | EmptyString => EmptyString
          | String c s' => String c (sub_fuel f icase r repl s')
          end
      end
  end.

Definition sub (icase : bool) (r : regex) (repl s : string) : string :=
  sub_fuel (S (String.length s)) icase r repl s.

(** Pattern builders. *)
Fixpoint lit (s : string) : regex :=
  match s with
  | EmptyString => Eps
  | String c EmptyString => Chr c
  | String c s' => Seq (Chr c) (lit s')
  end.

Fixpoint seqs (rs : list regex) : regex :=
  match rs with
  | [] => Eps
  | [r] => r
  | r :: rs' => Seq r (seqs rs')
  end.

Fixpoint alts (rs : list regex) : regex :=
  match rs with
  | [] => Cls (fun _ => false)
  | [r] => r
  | r :: rs' => Alt r (alts rs')
  end.

Definition opt (r : regex) : regex := Alt r Eps.
Definition star (p : ascii -> bool) : regex := Rep p 0 None true.
Definition plus (p : ascii -> bool) : regex := Rep p 1 None true.
Definition times (p : ascii -> bool) (lo hi : nat) : regex :=
  Rep p lo (Some hi) true.
Definition one_of (s : string) : regex := Cls (fun c => Text.has_char c s).

Definition ws : regex := star Text.isspace.       (* \s* *)
Definition ws1 : regex := plus Text.isspace.      (* \s+ *)
Definition digit : regex := Cls Text.isdecimal.   (* \d *)
Definition letters : regex := plus Text.isalpha_ascii. (* [A-Za-z]+ *)

(** What it means for [r] to match the text [w] with group contents [g];
    [run] only produces such hits (lemma [run_sound]). *)
Fixpoint matches (icase : bool) (r : regex) (w : string)
  (g : list (option string)) : Prop :=
  match r with
  | Eps => w = EmptyString /\ g = []
  | Chr c => exists x, w = String x EmptyString /\ char_eq icase c x = true
                       /\ g = []
  | Cls p => exists x, w = String x EmptyString /\ p x = true /\ g = []
  | Seq r1 r2 =>
      exists w1 w2 g1 g2,
        w = (w1 ++ w2)%string /\ g = g1 ++ g2
        /\ matches icase r1 w1 g1 /\ matches icase r2 w2 g2
  | Alt r1 r2 =>
      (exists g1, matches icase r1 w g1 /\ g = g1 ++ nones (ngroups r2))
      \/ (exists g2, matches icase r2 w g2 /\ g = nones (ngroups r1) ++ g2)
  | Rep p _ _ _ => Text.forallb p w = true /\ g = []
  | NotWord => w = EmptyString /\ g = []
  | Grp r' => exists g', matches icase r' w g' /\ g = Some w :: g'
  end.

End Re.

(* ===================================================================== *)
(** * Ordered dictionaries *)
(* ===================================================================== *)

Module Dict.

Section WithKey.
Variables K V : Type.
Variable keq : K -> K -> bool.

Definition t : Type := list (K * V).

Fixpoint get (d : t) (k : K) : option V :=
    match d with
    | [] => None
    | (k', v) :: d' => if keq k' k then Some v else get d' k
    end.

Definition mem (d : t) (k : K) : bool :=
    match get d k with Some _ => true | None => false end.

  (** [d[k] = v]: an existing key keeps its place, a new key goes last. *)
Fixpoint set (d : t) (k : K) (v : V) : t :=
    match d with
    | [] => [(k, v)]
    | (k', v') :: d' =>
        if keq k' k then (k', v) :: d' else (k', v') :: set d' k v
    end.

Definition keys (d : t) : list K := map fst d.
Definition values (d : t) : list V := map snd d.
End WithKey.

End Dict.

(** [sorted(xs, key=...)]: a stable sort, written as insertion sort on the
    order [le] of the keys. *)
Section Sorting.
Variable A : Type.
Variable le : A -> A -> bool.

Fixpoint insert_sorted (x : A) (l : list A) : list A :=
    match l with
    | [] => [x]
    | y :: l' => if le x y then x :: y :: l' else y :: insert_sorted x l'
    end.

Fixpoint sorted (l : list A) : list A :=
    match l with
    | [] => []
    | x :: l' => insert_sorted x (sorted l')
    end.
End Sorting.

(* ===================================================================== *)
(** * [datetime.date] *)
(* ===================================================================== *)

Module Date.

Record date : Type := mk { year : Z; month : Z; day : Z }.

Definition is_leap (y : Z) : bool :=
  (y mod 4 =? 0) && (negb (y mod 100 =? 0) || (y mod 400 =? 0)).

Definition days_in_month (y m : Z) : Z :=
  if m =? 2 then (if is_leap y then 29 else 28)
  else if (m =? 4) || (m =? 6) || (m =? 9) || (m =? 11) then 30
  else 31.

Definition valid (y m d : Z) : bool :=
  (1 <=? y) && (y <=? 9999) && (1 <=? m) && (m <=? 12)
  && (1 <=? d) && (d <=? days_in_month y m).

(** [date(y, m, d)]. *)
Definition make (y m d : Z) : result date :=
  if valid y m d then Ok (mk y m d) else Raise ValueError.

Definition eqb (a b : date) : bool :=
  (year a =? year b) && (month a =? month b) && (day a =? day b).

Definition opt_eqb (a b : option date) : bool :=
  match a, b with
  | Some x, Some y => eqb x y
  | None, None => true
  | _, _ => false
  end.

End Date.

(* ===================================================================== *)
(** * [src/utils/periods.py] *)
(* ===================================================================== *)

Module periods.

Import Re.

Inductive period_type : Type := fiscal_year_t | quarter_t | half_year_t.

Record PeriodInfo : Type := {
  p_type : period_type;
  start_date : Date.date;
  end_date : Date.date;
  fiscal_year : Z;
  quarter : option Z;
  half : option Z;
  original_label : string
}.

Definition d4 : regex := Grp (times Text.isdecimal 4 4).       (* (\d{4}) *)
Definition d12 : regex := Grp (times Text.isdecimal 1 2).      (* (\d{1,2}) *)
Definition d1 : regex := Grp digit.                            (* (\d) *)
Definition month_word : regex := Grp letters.                  (* ([A-Za-z]+) *)
Definition ended : regex := Seq (lit "ende") (opt (Chr "d")).  (* ended? *)
Definition day_month_year : list regex :=
  [d12; ws1; month_word; ws1; d4].

Definition FY_PATTERNS : list regex := [
  seqs [alts [lit "FY"; seqs [lit "Fiscal"; ws1; lit "Year"]];
        ws; Rep (fun c => Text.has_char c ":-") 0 (Some 1%nat) true; ws; d4];
  seqs ([alts [seqs [lit "Year"; ws1; ended]; lit "YE"]; ws1]
        ++ day_month_year);
  seqs day_month_year;
  seqs [d4; ws; one_of "-/"; ws; Grp (times Text.isdecimal 2 4)];
  seqs ([lit "For"; ws1; lit "the"; ws1; lit "year"; ws1; ended; ws1]
        ++ day_month_year)
].

Definition QUARTER_PATTERNS : list regex := [
  seqs [alts [lit "Q"; lit "Quarter"]; ws; d1; ws; opt (lit "FY"); d4];
  seqs [d1; alts [lit "st"; lit "nd"; lit "rd"; lit "th"]; ws1;
        lit "Quarter"; ws1; d4];
  seqs ([lit "Three"; ws1; lit "months"; ws1; ended; ws1] ++ day_month_year)
].

Definition HALF_YEAR_PATTERNS : list regex := [
  seqs [alts [lit "H"; lit "Half"]; ws; d1; ws; opt (lit "FY"); d4];
  seqs ([lit "Six"; ws1; lit "months"; ws1; ended; ws1] ++ day_month_year)
].

Definition MONTH_MAP : Dict.t string Z := [
  ("january", 1); ("jan", 1);
  ("february", 2); ("feb", 2);
  ("march", 3); ("mar", 3);
  ("april", 4); ("apr", 4);
  ("may", 5);
  ("june", 6); ("jun", 6);
  ("july", 7); ("jul", 7);
  ("august", 8); ("aug", 8);
  ("september", 9); ("sep", 9); ("sept", 9);
  ("october", 10); ("oct", 10);
  ("november", 11); ("nov", 11);
  ("december", 12); ("dec", 12)
].

(** [MONTH_MAP.get(month_str[:3])] on the lower-cased month word. *)
Definition month_of (word : string) : option Z :=
  Dict.get String.eqb MONTH_MAP (Text.take 3 (Text.lower word)).

(** The loop [for pattern in PATTERNS: match = re.search(...); if match: ...]
    shared by the three parsers: [body] is the loop body for a match, and
    [Ok None] from it stands for [continue]. *)
Fixpoint first_pattern (A : Type) (patterns : list regex)
  (body : list (option string) -> result (option A)) (label : string)
  : result (option A) :=
  match patterns with
  | [] => Ok None
  | r :: rest =>
      match search true r label with
      | None => first_pattern rest body label
      | Some m =>
          x <- body (groups m) ;;
          match x with
          | Some a => Ok (Some a)
          | None => first_pattern rest body label
          end
      end
  end.

Definition _parse_fiscal_year (label : string) : result (option PeriodInfo) :=
  first_pattern FY_PATTERNS
    (fun gs =>
       match gs with
       | [Some g0] =>
           let fy := Text.int g0 in
           e <- Date.make fy 12 31 ;;
           s <- Date.make (fy - 1) 1 1 ;;
           Ok (Some (Build_PeriodInfo fiscal_year_t s e fy None None label))
       | [Some g0; Some g1; Some g2] =>
           let day := Text.int g0 in
           let year := Text.int g2 in
           match month_of g1 with
           | None => Ok None
           | Some month =>
               e <- Date.make year month day ;;
               s <- Date.make (year - 1) month
                              (if day <? 28 then day + 1 else 1) ;;
               Ok (Some (Build_PeriodInfo fiscal_year_t s e year None None
                                          label))
           end
       | [Some g0; Some g1] =>
           let year1 := Text.int g0 in
           let year2 :=
             if (String.length g1 =? 2)%nat
             then Text.int (Text.take 2 (Text.str year1) ++ g1)%string
             else Text.int g1 in
           e <- Date.make year2 12 31 ;;
           s <- Date.make year1 1 1 ;;
           Ok (Some (Build_PeriodInfo fiscal_year_t s e year2 None None label))
       | _ => Ok None
       end)
    label.

Definition quarter_starts : Dict.t Z (Z * Z) :=
  [(1, (1, 1)); (2, (4, 1)); (3, (7, 1)); (4, (10, 1))].
Definition quarter_ends : Dict.t Z (Z * Z) :=
  [(1, (3, 31)); (2, (6, 30)); (3, (9, 30)); (4, (12, 31))].

(** [d[k]] on a dictionary: [KeyError] for a missing key. *)
Definition item (V : Type) (d : Dict.t Z V) (k : Z) : result V :=
  match Dict.get Z.eqb d k with
  | Some v => Ok v
  | None => Raise KeyError
  end.

Definition _parse_quarter (label : string) : result (option PeriodInfo) :=
  first_pattern QUARTER_PATTERNS
    (fun gs =>
       match gs with
       | [Some g0; Some g1] =>
           if Text.isdigit g0 then
             let q := Text.int g0 in
             let fy := Text.int g1 in
             sm <- item quarter_starts q ;;
             em <- item quarter_ends q ;;
             s <- Date.make fy (fst sm) (snd sm) ;;
             e <- Date.make fy (fst em) (snd em) ;;
             Ok (Some (Build_PeriodInfo quarter_t s e fy (Some q) None label))
           else Ok None
       | [Some g0; Some g1; Some g2] =>
           let day := Text.int g0 in
           let year := Text.int g2 in
           match month_of g1 with
           | None => Ok None
           | Some month =>
               e <- Date.make year month day ;;
               let start_month := if 3 <? month then month - 3 else month + 9 in
               let start_year := if 3 <? month then year else year - 1 in
               s <- Date.make start_year start_month day ;;
               Ok (Some (Build_PeriodInfo quarter_t s e year
                           (Some ((month - 1) / 3 + 1)) None label))
           end
       | _ => Ok None
       end)
    label.

Definition _parse_half_year (label : string) : result (option PeriodInfo) :=
  first_pattern HALF_YEAR_PATTERNS
    (fun gs =>
       match gs with
       | [Some g0; Some g1] =>
           if Text.isdigit g0 then
             let h := Text.int g0 in
             let fy := Text.int g1 in
             s <- (if h =? 1 then Date.make fy 1 1 else Date.make fy 7 1) ;;
             e <- (if h =? 1 then Date.make fy 6 30 else Date.make fy 12 31) ;;
             Ok (Some (Build_PeriodInfo half_year_t s e fy None (Some h) label))
           else Ok None
       | [Some g0; Some g1; Some g2] =>
           let day := Text.int g0 in
           let year := Text.int g2 in
           match month_of g1 with
           | None => Ok None
           | Some month =>
               e <- Date.make year month day ;;
               let start_month := if 6 <? month then month - 6 else month + 6 in
               let start_year := if 6 <? month then year else year - 1 in
               s <- Date.make start_year start_month day ;;
               Ok (Some (Build_PeriodInfo half_year_t s e year None
                           (Some (if month <=? 6 then 1 else 2)) label))
           end
       | _ => Ok None
       end)
    label.

Definition parse_period_label (label : string) : result (option PeriodInfo) :=
  let label_clean := Text.strip label in
  fy <- _parse_fiscal_year label_clean ;;
  match fy with
  | Some p => Ok (Some p)
  | None =>
      q <- _parse_quarter label_clean ;;
      match q with
      | Some p => Ok (Some p)
      | None => _parse_half_year label_clean
      end
  end.

Definition opt_str (n : option Z) : string :=
  match n with Some k => Text.str k | None => "None" end.

Definition normalize_period_label (label : string) : result string :=
  parsed <- parse_period_label label ;;
  match parsed with
  | None => Ok label
  | Some p =>
      match p_type p with
      | fiscal_year_t => Ok ("FY" ++ Text.str (fiscal_year p))%string
      | quarter_t =>
          Ok ("Q" ++ opt_str (quarter p) ++ "-" ++ Text.str (fiscal_year p))%string
      | half_year_t =>
          Ok ("H" ++ opt_str (half p) ++ "-" ++ Text.str (fiscal_year p))%string
      end
  end.

(** ** The fiscal year end of a list of labels *)

(** Equality of two [(month, day)] tuples. *)
Definition md_eqb (a b : Z * Z) : bool :=
  (fst a =? fst b) && (snd a =? snd b).

(** The loop of [detect_fiscal_year_end]: the [(month, day)] of the end
    date of every label that parses as a fiscal year, in the order of the
    labels. *)
Fixpoint end_dates_loop (labels : list string) : result (list (Z * Z)) :=
  match labels with
  | [] => Ok []
  | label :: rest =>
      parsed <- parse_period_label label ;;
      end_dates <- end_dates_loop rest ;;
      match parsed with
      | Some p =>
          match p_type p with
          | fiscal_year_t =>
              Ok ((Date.month (end_date p), Date.day (end_date p))
                    :: end_dates)
          | _ => Ok end_dates
          end
      | None => Ok end_dates
      end
  end.

(** [Counter(end_dates)]: the counts, keyed in the order of first
    appearance. *)
Definition count_step (c : Dict.t (Z * Z) Z) (elem : Z * Z)
  : Dict.t (Z * Z) Z :=
  Dict.set md_eqb c elem
           (match Dict.get md_eqb c elem with
            | Some n => n
            | None => 0
            end + 1).

Definition Counter (elems : list (Z * Z)) : Dict.t (Z * Z) Z :=
  fold_left count_step elems [].

(** [max(items, key=itemgetter(1))]: a later item replaces the best one
    only when its count is greater. *)
Fixpoint max_by_count (best : (Z * Z) * Z) (rest : list ((Z * Z) * Z))
  : (Z * Z) * Z :=
  match rest with
  | [] => best
  | x :: rest' => max_by_count (if snd best <? snd x then x else best) rest'
  end.

(** [counter.most_common(1)] *)
Definition most_common_1 (c : Dict.t (Z * Z) Z) : list ((Z * Z) * Z) :=
  match c with
  | [] => []
  | x :: rest => [max_by_count x rest]
  end.

Definition detect_fiscal_year_end (labels : list string)
  : result (option (Z * Z)) :=
  end_dates <- end_dates_loop labels ;;
  match end_dates with
  | [] => Ok None
  | _ :: _ =>
      match most_common_1 (Counter end_dates) with
      | kv :: _ => Ok (Some (fst kv))
      | [] => Ok None
      end
  end.

(** ** LabelStandardizer *)

Definition STANDARD_LABELS : Dict.t string (list string) := [
  ("revenue", ["revenue"; "total revenue"; "net revenue"; "sales";
               "turnover"; "net sales"]);
  ("gross_profit", ["gross profit"; "gross margin"]);
  ("operating_profit", ["operating profit"; "operating income"; "ebit";
                        "operating earnings"]);
  ("net_income", ["net income"; "net profit"; "profit for the year";
                  "profit for the period"; "net earnings"]);
  ("ebitda", ["ebitda"; "adjusted ebitda"]);
  ("total_assets", ["total assets"; "assets"]);
  ("current_assets", ["current assets"]);
  ("non_current_assets", ["non-current assets"; "non current assets";
                          "fixed assets"]);
  ("total_liabilities", ["total liabilities"; "liabilities"]);
  ("current_liabilities", ["current liabilities"]);
  ("non_current_liabilities", ["non-current liabilities";
                               "non current liabilities";
                               "long-term liabilities"]);
  ("total_equity", ["total equity"; "shareholders' equity";
                    "stockholders' equity"; "equity"]);
  ("retained_earnings", ["retained earnings"; "accumulated profits"]);
  ("operating_cash_flow", ["cash from operating activities";
                           "operating cash flow";
                           "net cash from operations"]);
  ("investing_cash_flow", ["cash from investing activities";
                           "investing cash flow";
                           "net cash used in investing"]);
  ("financing_cash_flow", ["cash from financing activities";
                           "financing cash flow";
                           "net cash from financing"]);
  ("free_cash_flow", ["free cash flow"; "fcf"])
].

(** The state of a [LabelStandardizer]: the label table and its reverse
    index ([add_custom_mapping] extends both). *)
Record LabelStandardizer : Type := {
  standard_labels : Dict.t string (list string);
  reverse_map : Dict.t string string
}.

Definition _build_reverse_mapping (labels : Dict.t string (list string))
  : Dict.t string string :=
  fold_left
    (fun rm entry =>
       fold_left
         (fun rm' variation =>
            Dict.set String.eqb rm' (Text.strip (Text.lower variation))
                     (fst entry))
         (snd entry) rm)
    labels [].

(** [LabelStandardizer()] *)
Definition init : LabelStandardizer :=
  {| standard_labels := STANDARD_LABELS;
     reverse_map := _build_reverse_mapping STANDARD_LABELS |}.

(** [\s*\(.*?\)\s*] and [\s+] *)
Definition PAREN_QUALIFIER : regex :=
  seqs [ws; Chr "("; Rep (fun c => negb (Ascii.eqb c "010")) 0 None false;
        Chr ")"; ws].
Definition SPACES : regex := ws1.

Fixpoint first_variation (label_lower : string) (variations : list string)
  : bool :=
  match variations with
  | [] => false
  | v :: rest =>
      if Text.contains v label_lower || Text.contains label_lower v then true
      else first_variation label_lower rest
  end.

Fixpoint fuzzy_loop (label_lower : string)
  (labels : Dict.t string (list string)) : option string :=
  match labels with
  | [] => None
  | (standard_label, variations) :: rest =>
      if first_variation label_lower variations then Some standard_label
      else fuzzy_loop label_lower rest
  end.

Definition _fuzzy_match (self : LabelStandardizer) (label : string)
  : option string :=
  fuzzy_loop (Text.lower label) (standard_labels self).

(** Truth value of an optional string: [None] and [""] are false. *)
Definition truthy (o : option string) : option string :=
  match o with
  | Some EmptyString => None
  | _ => o
  end.

Definition clean_label (label : string) : string :=
  let label_clean := Text.strip (Text.lower label) in
  let label_clean := sub false PAREN_QUALIFIER "" label_clean in
  Text.strip (sub false SPACES " " label_clean).

Definition standardize_label (self : LabelStandardizer) (label : string)
  : string :=
  let label_clean := clean_label label in
  match truthy (Dict.get String.eqb (reverse_map self) label_clean) with
  | Some standard => standard
  | None =>
      match truthy (_fuzzy_match self label_clean) with
      | Some standard => standard
      | None => label
      end
  end.

(** [get_standard_labels]: the keys of the label table. *)
Definition get_standard_labels (self : LabelStandardizer) : list string :=
  Dict.keys (standard_labels self).

(** [add_custom_mapping]: the variations are appended to the entry of the
    standard label (a new entry goes last), and each of them is written
    into the reverse index, a later one over an earlier one. *)
Definition add_custom_mapping (self : LabelStandardizer)
  (standard_label : string) (variations : list string) : LabelStandardizer :=
  let labels :=
    if Dict.mem String.eqb (standard_labels self) standard_label
    then standard_labels self
    else Dict.set String.eqb (standard_labels self) standard_label [] in
  let labels :=
    Dict.set String.eqb labels standard_label
             (match Dict.get String.eqb labels standard_label with
              | Some old => old ++ variations
              | None => variations
              end) in
  {| standard_labels := labels;
     reverse_map :=
       fold_left
         (fun rm variation =>
            Dict.set String.eqb rm (Text.strip (Text.lower variation))
                     standard_label)
         variations (reverse_map self) |}.

(** ** Statements about the period parser and the label standardizer *)

Definition normal_form (p : PeriodInfo) : string :=
  match p_type p with
  | fiscal_year_t => "FY" ++ Text.str (fiscal_year p)
  | quarter_t => "Q" ++ opt_str (quarter p) ++ "-" ++ Text.str (fiscal_year p)
  | half_year_t => "H" ++ opt_str (half p) ++ "-" ++ Text.str (fiscal_year p)
  end.

(** [s] is four decimal digits. *)
Definition four_digits (s : string) : Prop :=
  String.length s = 4%nat /\ Text.forallb Text.isdecimal s = true.

(** [s] is one decimal digit. *)
Definition one_digit (s : string) : Prop :=
  String.length s = 1%nat /\ Text.forallb Text.isdecimal s = true.

(** One of the forms [FY{YYYY}], [Q{n}-{YYYY}], [H{n}-{YYYY}]. *)
Definition standard_form (s : string) : Prop :=
  (exists y, four_digits y /\ s = ("FY" ++ y)%string)
  \/ (exists n y, one_digit n /\ four_digits y
                  /\ s = ("Q" ++ n ++ "-" ++ y)%string)
  \/ (exists n y, one_digit n /\ four_digits y
                  /\ s = ("H" ++ n ++ "-" ++ y)%string).

Definition same_period (p q : PeriodInfo) : Prop :=
  p_type q = p_type p /\ fiscal_year q = fiscal_year p
  /\ quarter q = quarter p /\ half q = half p.

(** The round trip of the specification (section 8, property 6) at one
    label. *)
Definition round_trips (label : string) : Prop :=
  forall p, parse_period_label label = Ok (Some p) ->
    exists n q, normalize_period_label label = Ok n /\ standard_form n
                /\ parse_period_label n = Ok (Some q) /\ same_period p q.

(** What is known of a parsed period. *)
Definition well_formed (p : PeriodInfo) : Prop :=
  1 <= fiscal_year p <= 9999
  /\ match p_type p with
     | fiscal_year_t => quarter p = None /\ half p = None
     | quarter_t =>
         half p = None /\ exists q, quarter p = Some q /\ 1 <= q <= 4
     | half_year_t =>
         quarter p = None /\ exists h, half p = Some h /\ 0 <= h <= 9
     end.

(** The label [FY<y>] parses as the fiscal year [y], and [y] prints with
    four digits. *)
Definition reparses_as_fiscal_year (y : Z) : bool :=
  match parse_period_label ("FY" ++ Text.str y) with
  | Ok (Some q) =>
      match p_type q, quarter q, half q with
      | fiscal_year_t, None, None => fiscal_year q =? y
      | _, _, _ => false
      end
  | _ => false
  end
  && (String.length (Text.str y) =? 4)%nat
  && Text.forallb Text.isdecimal (Text.str y).

Definition prints_as_one_digit (n : Z) : bool :=
  (String.length (Text.str n) =? 1)%nat
  && Text.forallb Text.isdecimal (Text.str n).

(** A date of the calendar. *)
Definition valid_date (d : Date.date) : bool :=
  Date.valid (Date.year d) (Date.month d) (Date.day d).

(** [a < b] on dates. *)
Definition before (a b : Date.date) : Prop :=
  Date.year a < Date.year b
  \/ (Date.year a = Date.year b
      /\ (Date.month a < Date.month b
          \/ (Date.month a = Date.month b /\ Date.day a < Date.day b))).

(** How many of [ends] are the tuple [md]. *)
Definition count_of (md : Z * Z) (ends : list (Z * Z)) : Z :=
  Z.of_nat (List.length (filter (md_eqb md) ends)).

(** The canonical labels whose own text the fuzzy match sends to another
    label. *)
Definition absorbed_labels : list string :=
  ["current_assets"; "non_current_assets"; "current_liabilities";
   "non_current_liabilities"].

End periods.

(* ===================================================================== *)
(** * Records exchanged between the stages *)
(* ===================================================================== *)

Module schemas.

Inductive EvidenceSource : Type := TABLE_CELL | TEXT_BLOCK.

(** A value stored in an [evidence] dictionary. *)
Inductive ev : Type :=
| EvStr (s : string)
| EvInt (n : Z)
| EvNone.

(** Confidence scores are floats of the form [k / 100.0]; they are kept as
    the number of hundredths [k], which orders them as the floats are
    ordered. *)
Definition confidence : Type := Z.

(** Modelled from the spec: the [CandidateValue] record that the services
    build and read (section 3, "CandidateValue"); the class of that name in
    [models/schemas.py] has other fields. *)
Record CandidateValue : Type := {
  candidate_id : string;
  metric_name : string;
  value : Dec.Decimal;
  currency : string;
  scale : string;
  period_end_date : option Date.date;
  section_type : string;
  source : option EvidenceSource;
  confidence_score : confidence;
  evidence : Dict.t string ev
}.

Definition with_confidence (c : CandidateValue) (k : confidence)
  : CandidateValue :=
  {| candidate_id := candidate_id c; metric_name := metric_name c;
     value := value c; currency := currency c; scale := scale c;
     period_end_date := period_end_date c; section_type := section_type c;
     source := source c; confidence_score := k; evidence := evidence c |}.

(** Modelled from the spec: [ValidationStatus] with the three members the
    validator and the adjudicator name (section 3, "ValidationResult"). *)
Inductive ValidationStatus : Type := VALID | NEEDS_REVIEW | INVALID.

Inductive ValidationRule : Type :=
| UNIT_CONSISTENCY | RANGE_CHECK | YOY_DELTA | ARITHMETIC.

(** The dictionary returned by one rule check. *)
Record check : Type := { valid : bool; message : string }.

(** Modelled from the spec: the [ValidationResult] that
    [_validate_candidate] builds. *)
Record ValidationResult : Type := {
  validation_id : string;
  v_candidate_id : string;
  status : ValidationStatus;
  rules_applied : list ValidationRule;
  validation_details : Dict.t string (option check);
  issues : option (list string)
}.

Inductive EntityType : Type := CONSOLIDATED | PARENT | SUBSIDIARY.
Inductive ExtractionMethod : Type := TABLE | TEXT | CALCULATED.

(** [FinancialMetric], with the fields of [models/schemas.py] and the two
    the adjudicator records on it. *)
Record FinancialMetric : Type := {
  metric_id : string;
  m_metric_name : string;
  m_value : Dec.Decimal;
  m_currency : string;
  m_scale : string;
  m_period_end_date : option Date.date;
  entity_type : EntityType;
  extraction_method : option ExtractionMethod;
  notes : option string;
  llm_reasoning : option string;
  llm_confidence : option confidence
}.

(** A table cell: a string, or [None]. *)
Definition cell : Type := option string.

(** [str(cell)] *)
Definition str_cell (c : cell) : string :=
  match c with Some s => s | None => "None" end.

Record TableBlock : Type := {
  table_id : string;
  page_number : Z;
  headers : list (list string);
  data : list (list cell)
}.

Record Section : Type := {
  section_id : string;
  s_section_type : string;
  section_name : string;
  start_page : Z;
  end_page : Z;
  s_confidence_score : confidence;
  detection_method : string
}.

Record TextBlock : Type := {
  block_id : string;
  text : string;
  b_page_number : Z
}.

End schemas.

(* ===================================================================== *)
(** * [src/services/candidate_generator.py] *)
(* ===================================================================== *)

Module candidate_generator.

Import Re schemas.

Definition pound_sign : ascii := Text.chr 163.

(** The euro sign is not a character of the modelled alphabet: its
    alternative matches nothing. *)
Definition euro_sign : regex := Cls (fun _ => false).

(** [[\d,]+(?:\.\d+)?] *)
Definition number : regex :=
  Seq (plus (fun c => Text.isdecimal c || Ascii.eqb c ","))
      (opt (Seq (Chr ".") (plus Text.isdecimal))).

Definition CURRENCY_PREFIXED : regex :=
  seqs [alts [Chr pound_sign; lit "GBP"; lit "USD"; Chr "$"; euro_sign;
              lit "EUR"]; ws; Grp number].
Definition SCALE_SUFFIXED : regex :=
  seqs [Grp number; ws;
        alts [lit "million"; lit "mn"; lit "m"; lit "billion"; lit "bn";
              lit "b"; lit "thousand"; lit "k"]].
Definition PARENTHESIZED : regex :=
  seqs [Chr "("; ws; Grp number; ws; Chr ")"].
Definition PLAIN : regex := Grp number.

Definition VALUE_PATTERNS : list regex :=
  [CURRENCY_PREFIXED; SCALE_SUFFIXED; PARENTHESIZED; PLAIN].

Definition CURRENCY_PATTERNS : Dict.t string regex := [
  ("GBP", alts [Chr pound_sign; lit "GBP"; Seq (lit "pound") (opt (Chr "s"))]);
  ("USD", alts [Chr "$"; lit "USD"; Seq (lit "dollar") (opt (Chr "s"))]);
  ("EUR", alts [euro_sign; lit "EUR"; Seq (lit "euro") (opt (Chr "s"))])
].

Definition SCALE_PATTERNS : Dict.t string regex := [
  ("millions", alts [lit "million"; lit "mn"; Seq (Chr "m") NotWord]);
  ("billions", alts [lit "billion"; lit "bn"; Seq (Chr "b") NotWord]);
  ("thousands", alts [lit "thousand"; Seq (Chr "k") NotWord])
].

Record parsed_value : Type := {
  pv_value : Dec.Decimal;
  pv_currency : string;
  pv_scale : string
}.

(** [for key, pattern in d.items(): if re.search(...): x = key; break] *)
Fixpoint detect (default : string) (d : Dict.t string regex) (s : string)
  : string :=
  match d with
  | [] => default
  | (key, pattern) :: rest =>
      if found true pattern s then key else detect default rest s
  end.

Fixpoint try_values (patterns : list regex) (is_negative : bool)
  (currency scale value_str : string) : option parsed_value :=
  match patterns with
  | [] => None
  | pattern :: rest =>
      match search false pattern value_str with
      | Some m =>
          match groups m with
          | Some g1 :: _ =>
              let num_str := Text.replace_char "," "" g1 in
              match Dec.of_string num_str with
              | Ok numeric_value =>
                  Some {| pv_value := if is_negative
                                      then Dec.neg numeric_value
                                      else numeric_value;
                          pv_currency := currency;
                          pv_scale := scale |}
              | Raise _ => try_values rest is_negative currency scale value_str
              end
          | _ => try_values rest is_negative currency scale value_str
          end
      | None => try_values rest is_negative currency scale value_str
      end
  end.

Definition _parse_numeric_value (value : cell) : option parsed_value :=
  match value with
  | None => None
  | Some v =>
      let value_str := Text.strip v in
      if String.eqb value_str "" then None
      else
        let currency := detect "GBP" CURRENCY_PATTERNS value_str in
        let scale := detect "millions" SCALE_PATTERNS value_str in
        let is_negative :=
          Text.has_char "(" value_str && Text.has_char ")" value_str in
        try_values VALUE_PATTERNS is_negative currency scale value_str
  end.

Record period_column : Type := {
  pc_label : string;
  pc_end_date : Date.date;
  pc_fiscal_year : Z;
  pc_period_type : periods.period_type
}.

(** Truth value of a cell: [None] and [""] are false. *)
Definition cell_truthy (c : cell) : bool :=
  match c with
  | None | Some EmptyString => false
  | Some _ => true
  end.

Fixpoint detect_columns (col_idx : nat) (header_row : list cell)
  : result (Dict.t nat period_column) :=
  match header_row with
  | [] => Ok []
  | cell_value :: rest =>
      if cell_truthy cell_value then
        let cell_str := Text.strip (str_cell cell_value) in
        parsed <- periods.parse_period_label cell_str ;;
        cols <- detect_columns (S col_idx) rest ;;
        match parsed with
        | Some p =>
            Ok ((col_idx,
                 {| pc_label := cell_str;
                    pc_end_date := periods.end_date p;
                    pc_fiscal_year := periods.fiscal_year p;
                    pc_period_type := periods.p_type p |}) :: cols)
        | None => Ok cols
        end
      else detect_columns (S col_idx) rest
  end.

Definition _detect_period_columns (header_row : list cell)
  : result (Dict.t nat period_column) :=
  detect_columns O header_row.

(** [uuid.uuid4()] is a supply of identifiers: the [n]-th call gives
    [uuid n]. *)
Section WithIds.
Variable uuid : nat -> string.

Definition _create_candidate (n : nat) (name : string) (v : Dec.Decimal)
    (cur sc : string) (period : option Date.date) (sect : string)
    (src : EvidenceSource) (evd : Dict.t string ev) : CandidateValue :=
    {| candidate_id := uuid n; metric_name := name; value := v;
       currency := cur; scale := sc; period_end_date := period;
       section_type := sect; source := Some src; confidence_score := 0;
       evidence := evd |}.

  (** The inner loop over the period columns of one row; [n] counts the
      identifiers drawn so far. *)
Fixpoint row_candidates (table : TableBlock) (section : Section)
    (row_idx : nat) (row : list cell) (raw_label standard_label : string)
    (cols : Dict.t nat period_column) (n : nat)
    : list CandidateValue * nat :=
    match cols with
    | [] => ([], n)
    | (col_idx, period_info) :: rest =>
        match nth_error row col_idx with
        | None => row_candidates table section row_idx row raw_label
                                 standard_label rest n
        | Some cell_value =>
            match _parse_numeric_value cell_value with
            | None => row_candidates table section row_idx row raw_label
                                     standard_label rest n
            | Some pv =>
                let candidate :=
                  _create_candidate n standard_label (pv_value pv)
                    (pv_currency pv) (pv_scale pv)
                    (Some (pc_end_date period_info))
                    (s_section_type section) TABLE_CELL
                    [("table_id", EvStr (table_id table));
                     ("row_index", EvInt (Z.of_nat row_idx));
                     ("column_index", EvInt (Z.of_nat col_idx));
                     ("raw_label", EvStr raw_label);
                     ("raw_value", EvStr (str_cell cell_value));
                     ("period_label", EvStr (pc_label period_info));
                     ("section_id", EvStr (section_id section))] in
                let '(cs, n') :=
                  row_candidates table section row_idx row raw_label
                                 standard_label rest (S n) in
                (candidate :: cs, n')
            end
        end
    end.

Definition in_targets (target_metrics : option (list string))
    (label : string) : bool :=
    match target_metrics with
    | None | Some [] => true
    | Some ts => existsb (String.eqb label) ts
    end.

  (** The outer loop over the data rows after the header row. *)
Fixpoint rows_candidates (std : periods.LabelStandardizer)
    (table : TableBlock) (section : Section)
    (target_metrics : option (list string))
    (cols : Dict.t nat period_column) (row_idx : nat)
    (rows : list (list cell)) (n : nat) : list CandidateValue * nat :=
    match rows with
    | [] => ([], n)
    | row :: rest =>
        let skip := rows_candidates std table section target_metrics cols
                                    (S row_idx) rest n in
        match row with
        | [] => skip
        | label_cell :: _ =>
            let raw_label := Text.strip (str_cell label_cell) in
            if String.eqb raw_label "" then skip
            else
              let standard_label := periods.standardize_label std raw_label in
              if negb (in_targets target_metrics standard_label) then skip
              else
                let '(cs, n1) :=
                  row_candidates table section row_idx row raw_label
                                 standard_label cols n in
                let '(cs', n2) :=
                  rows_candidates std table section target_metrics cols
                                  (S row_idx) rest n1 in
                (cs ++ cs', n2)
        end
    end.

Definition _extract_from_table (std : periods.LabelStandardizer)
    (table : TableBlock) (section : Section)
    (target_metrics : option (list string)) (n : nat)
    : result (list CandidateValue * nat) :=
    match data table with
    | [] => Ok ([], n)
    | header_row :: rows =>
        period_columns <- _detect_period_columns header_row ;;
        Ok (rows_candidates std table section target_metrics period_columns
                            1%nat rows n)
    end.
End WithIds.

(** ** Scoring *)

Definition is_none (v : ev) : bool :=
  match v with EvNone => true | _ => false end.

Definition evidence_fields (c : CandidateValue) : Z :=
  Z.of_nat (List.length (filter (fun kv => negb (is_none (snd kv)))
                                (evidence c))).

Definition mem_str (s : string) (l : list string) : bool :=
  existsb (String.eqb s) l.

Definition source_score (c : CandidateValue) : Z :=
  match source c with
  | Some TABLE_CELL => 40
  | Some TEXT_BLOCK => 20
  | None => 0
  end.

Definition section_score (c : CandidateValue) : Z :=
  if mem_str (section_type c)
             ["income_statement"; "balance_sheet"; "cash_flow_statement"]
  then 20
  else if mem_str (section_type c) ["notes"; "commentary"] then 10
  else 0.

Definition period_score (c : CandidateValue) : Z :=
  match period_end_date c with Some _ => 20 | None => 0 end.

(** The [score] accumulated in the loop body, out of 100. *)
Definition score (c : CandidateValue) : Z :=
  source_score c + section_score c + period_score c
  + Z.min 20 (evidence_fields c * 3).

(** [candidates.sort(key=lambda c: c.confidence_score, reverse=True)] *)
Definition by_confidence_desc (a b : CandidateValue) : bool :=
  confidence_score b <=? confidence_score a.

Definition _score_candidates (candidates : list CandidateValue)
  : list CandidateValue :=
  sorted by_confidence_desc
         (map (fun c => with_confidence c (score c)) candidates).

(** The scoring rule in the words of the specification (section 4.F,
    "Candidate scoring"), in hundredths. *)
Definition spec_score (c : CandidateValue) : Z :=
  (match source c with Some TABLE_CELL => 40 | _ => 20 end)
  + (if mem_str (section_type c)
                ["income_statement"; "balance_sheet"; "cash_flow"]
     then 20 else 10)
  + (match period_end_date c with Some _ => 20 | None => 0 end)
  + Z.min 20 (3 * evidence_fields c).

(** ** Statements about the numeric parser *)

(** The characters a number group can hold. *)
Definition numeral_char (c : ascii) : bool :=
  Text.isdecimal c || Ascii.eqb c "," || Ascii.eqb c ".".

Definition digit_or_dot (c : ascii) : bool :=
  Text.isdecimal c || Ascii.eqb c ".".

(** The cell matches the parenthesized pattern. *)
Definition parenthesized (cell_text : string) : Prop :=
  found false PARENTHESIZED cell_text = true.

Definition negative (d : Dec.Decimal) : Prop := Dec.coef d < 0.

(** Sign from parentheses (section 8, property 3) at one cell. *)
Definition parenthesized_is_negative (cell_text : string) : Prop :=
  parenthesized cell_text ->
  exists pv, _parse_numeric_value (Some cell_text) = Some pv
             /\ negative (pv_value pv).

(** ** The section filters and the entry point *)

(** [_get_tables_in_section] reads [table.page] on each table, and
    [TableBlock] has no attribute of that name (its page is
    [page_number]): the first table looked at raises [AttributeError]. *)
Definition _get_tables_in_section (section : Section)
  (table_blocks : list TableBlock) : result (list TableBlock) :=
  match table_blocks with
  | [] => Ok []
  | _ :: _ => Raise AttributeError
  end.

(** The same with [block.page] on a [TextBlock]. *)
Definition _get_text_blocks_in_section (section : Section)
  (text_blocks : list TextBlock) : result (list TextBlock) :=
  match text_blocks with
  | [] => Ok []
  | _ :: _ => Raise AttributeError
  end.

Section WithSources.
Variable uuid : nat -> string.
Variable std : periods.LabelStandardizer.

  (** [_extract_from_text_block]; the loops below only pass it on. *)
Variable _extract_from_text_block :
    TextBlock -> Section -> option (list string) -> nat ->
    result (list CandidateValue * nat).

  (** [for x in xs: candidates.extend(extract(x, section, targets))] *)
Fixpoint extend_loop (A : Type)
    (extract : A -> Section -> option (list string) -> nat ->
               result (list CandidateValue * nat))
    (section : Section) (target_metrics : option (list string))
    (xs : list A) (n : nat) : result (list CandidateValue * nat) :=
    match xs with
    | [] => Ok ([], n)
    | x :: rest =>
        r <- extract x section target_metrics n ;;
        r' <- extend_loop extract section target_metrics rest (snd r) ;;
        Ok (fst r ++ fst r', snd r')
    end.

Fixpoint _generate_from_tables (sections : list Section)
    (table_blocks : list TableBlock) (target_metrics : option (list string))
    (n : nat) : result (list CandidateValue * nat) :=
    match sections with
    | [] => Ok ([], n)
    | section :: rest =>
        section_tables <- _get_tables_in_section section table_blocks ;;
        r <- extend_loop (_extract_from_table uuid std) section
                         target_metrics section_tables n ;;
        r' <- _generate_from_tables rest table_blocks target_metrics (snd r) ;;
        Ok (fst r ++ fst r', snd r')
    end.

Fixpoint _generate_from_text (sections : list Section)
    (text_blocks : list TextBlock) (target_metrics : option (list string))
    (n : nat) : result (list CandidateValue * nat) :=
    match sections with
    | [] => Ok ([], n)
    | section :: rest =>
        section_text_blocks <-
          _get_text_blocks_in_section section text_blocks ;;
        r <- extend_loop _extract_from_text_block section target_metrics
                         section_text_blocks n ;;
        r' <- _generate_from_text rest text_blocks target_metrics (snd r) ;;
        Ok (fst r ++ fst r', snd r')
    end.

Definition generate_candidates (sections : list Section)
    (table_blocks : list TableBlock) (text_blocks : list TextBlock)
    (target_metrics : option (list string)) (n : nat)
    : result (list CandidateValue) :=
    table_candidates <-
      _generate_from_tables sections table_blocks target_metrics n ;;
    text_candidates <-
      _generate_from_text sections text_blocks target_metrics
                          (snd table_candidates) ;;
    Ok (_score_candidates (fst table_candidates ++ fst text_candidates)).
End WithSources.

(** What the table path promises of a candidate of the section. *)
Definition table_candidate_of (section : Section) (c : CandidateValue)
  : Prop :=
  In (currency c) ["GBP"; "USD"; "EUR"]
  /\ In (scale c) ["millions"; "billions"; "thousands"]
  /\ source c = Some TABLE_CELL
  /\ (exists d, period_end_date c = Some d)
  /\ section_type c = s_section_type section
  /\ confidence_score c = 0.

End candidate_generator.

(* ===================================================================== *)
(** * [src/services/validators.py] *)
(* ===================================================================== *)

Module validators.

Import schemas.

Definition dec (c e : Z) : Dec.Decimal := Dec.mk c e.

(** The bounds are floats; a [Decimal] is compared with the exact value of
    the float, so [-0.70] and [-0.30] stand for the doubles nearest to
    them. *)
Definition METRIC_BOUNDS : Dict.t string (Dec.Decimal * Dec.Decimal) := [
  ("gross_profit", (dec 0 0, dec 1 0));
  ("operating_profit", (dec (-5) (-1), dec 1 0));
  ("net_income", (dec (-1) 0, dec 1 0));
  ("ebitda", (dec (-5) (-1), dec 15 (-1)));
  ("current_assets", (dec 0 0, dec 10 0));
  ("total_assets", (dec 0 0, dec 50 0));
  ("current_liabilities", (dec 0 0, dec 10 0));
  ("total_liabilities", (dec 0 0, dec 50 0));
  ("total_equity", (dec (-5) 0, dec 50 0))
].

Definition YOY_BOUNDS : Dict.t string (Dec.Decimal * Dec.Decimal) := [
  ("revenue", (dec (-5) (-1), dec 2 0));
  ("gross_profit",
   (dec (-6999999999999999555910790149937383830547332763671875) (-52),
    dec 3 0));
  ("operating_profit", (dec (-2) 0, dec 5 0));
  ("net_income", (dec (-3) 0, dec 10 0));
  ("total_assets",
   (dec (-299999999999999988897769753748434595763683319091796875) (-54),
    dec 1 0));
  ("total_equity", (dec (-5) (-1), dec 15 (-1)))
].

Definition ARITHMETIC_RULES : Dict.t string (list string) := [
  ("total_assets", ["current_assets"; "non_current_assets"]);
  ("total_liabilities", ["current_liabilities"; "non_current_liabilities"]);
  ("gross_profit", ["revenue"; "cost_of_sales"]);
  ("operating_profit", ["gross_profit"; "operating_expenses"])
].

Definition ok (msg : string) : check := {| valid := true; message := msg |}.
Definition bad (msg : string) : check := {| valid := false; message := msg |}.

Definition mem_str (s : string) (l : list string) : bool :=
  existsb (String.eqb s) l.

Definition _check_unit_consistency (candidate : CandidateValue) : check :=
  let valid_currencies := ["GBP"; "USD"; "EUR"] in
  let valid_scales := ["actual"; "thousands"; "millions"; "billions"] in
  if negb (mem_str (currency candidate) valid_currencies)
  then bad ("Invalid currency: " ++ currency candidate)
  else if negb (mem_str (scale candidate) valid_scales)
  then bad ("Invalid scale: " ++ scale candidate)
  else ok "Units are consistent".

Fixpoint _find_metric (candidates : list CandidateValue) (name : string)
  (period : option Date.date) : option CandidateValue :=
  match candidates with
  | [] => None
  | candidate :: rest =>
      if String.eqb (metric_name candidate) name
         && match period with
            | None => true
            | Some _ => Date.opt_eqb (period_end_date candidate) period
            end
      then Some candidate
      else _find_metric rest name period
  end.

Section WithFormat.
  (** The text of a number inside a message ([float(x):.2f] and the like)
      is left to [fmt]. *)
Variable fmt : Dec.Decimal -> string.
Variable tolerance : Dec.Decimal.
Variable uuid : nat -> string.

Definition _check_range_bounds (candidate : CandidateValue)
    (all_candidates : list CandidateValue) : result check :=
    let name := metric_name candidate in
    match _find_metric all_candidates "revenue" (period_end_date candidate),
          Dict.get String.eqb METRIC_BOUNDS name with
    | Some revenue, Some (min_bound, max_bound) =>
        let candidate_base := value candidate in
        let revenue_base := value revenue in
        if Dec.is_zero revenue_base
        then Ok (ok "Revenue is zero, cannot compute ratio")
        else
          ratio <- Dec.div candidate_base revenue_base ;;
          if Dec.ltb ratio min_bound || Dec.ltb max_bound ratio
          then Ok (bad ("Ratio " ++ fmt ratio ++ " outside bounds"))
          else Ok (ok ("Ratio " ++ fmt ratio ++ " within bounds"))
    | _, _ => Ok (ok "No bounds available")
    end.

Definition _check_yoy_delta (candidate : CandidateValue)
    (all_candidates : list CandidateValue) : result (option check) :=
    match period_end_date candidate with
    | None => Ok None
    | Some d =>
        let name := metric_name candidate in
        prev_year_date <-
          Date.make (Date.year d - 1) (Date.month d) (Date.day d) ;;
        match _find_metric all_candidates name (Some prev_year_date) with
        | None => Ok (Some (ok "No prior year data for comparison"))
        | Some prev_value =>
            if Dec.is_zero (value prev_value)
            then Ok (Some (ok "Prior year value is zero"))
            else
              yoy_change <-
                Dec.div (Dec.sub (value candidate) (value prev_value))
                        (Dec.abs (value prev_value)) ;;
              match Dict.get String.eqb YOY_BOUNDS name with
              | Some (min_bound, max_bound) =>
                  if Dec.ltb yoy_change min_bound
                     || Dec.ltb max_bound yoy_change
                  then Ok (Some (bad ("YoY change " ++ fmt yoy_change
                                      ++ " outside bounds")))
                  else Ok (Some (ok ("YoY change " ++ fmt yoy_change
                                     ++ " is reasonable")))
              | None =>
                  Ok (Some (ok ("YoY change " ++ fmt yoy_change
                                ++ " is reasonable")))
              end
        end
    end.

  (** The loop collecting the component values: [inr] is the early return
      for a missing component. *)
Fixpoint component_values (all_candidates : list CandidateValue)
    (period : option Date.date) (components : list string)
    : list Dec.Decimal + string :=
    match components with
    | [] => inl []
    | component :: rest =>
        match _find_metric all_candidates component period with
        | Some v =>
            match component_values all_candidates period rest with
            | inl vs => inl (value v :: vs)
            | inr missing => inr missing
            end
        | None => inr component
        end
    end.

  (** [sum(values)] *)
Definition sum (values : list Dec.Decimal) : Dec.Decimal :=
    fold_left Dec.add values (Dec.of_Z 0).

Definition _check_arithmetic (candidate : CandidateValue)
    (all_candidates : list CandidateValue) : option check :=
    let name := metric_name candidate in
    match Dict.get String.eqb ARITHMETIC_RULES name with
    | None => Some (ok "No arithmetic rules apply")
    | Some components =>
        match component_values all_candidates (period_end_date candidate)
                               components with
        | inr component => Some (ok ("Missing component: " ++ component))
        | inl values =>
            let expected :=
              if String.eqb name "total_assets"
                 || String.eqb name "total_liabilities"
              then Some (sum values)
              else if String.eqb name "gross_profit"
                      || String.eqb name "operating_profit"
              then Some (Dec.sub (nth 0 values (Dec.of_Z 0))
                                 (nth 1 values (Dec.of_Z 0)))
              else None in
            match expected with
            | None => Some (ok "Unknown arithmetic rule")
            | Some expected =>
                if Dec.is_zero expected then Some (ok "Expected value is zero")
                else
                  let difference :=
                    Dec.abs (Dec.sub (value candidate) expected) in
                  let tolerance_amount :=
                    Dec.abs (Dec.mul expected tolerance) in
                  if Dec.ltb tolerance_amount difference
                  then Some (bad ("Arithmetic mismatch: "
                                  ++ fmt (value candidate) ++ " vs expected "
                                  ++ fmt expected))
                  else Some (ok "Arithmetic consistent within tolerance")
            end
        end
    end.

  (** [if check and not check["valid"]] *)
Definition failed (c : option check) : bool :=
    match c with
    | Some k => negb (valid k)
    | None => false
    end.

Definition issue (prefix : string) (c : option check) : list string :=
    match c with
    | Some k => if valid k then [] else [(prefix ++ message k)%string]
    | None => []
    end.

Definition status_of (validation_issues : list string) : ValidationStatus :=
    if (List.length validation_issues =? 0)%nat then VALID
    else if (2 <=? List.length validation_issues)%nat then INVALID
    else NEEDS_REVIEW.

Definition _validate_candidate (n : nat) (candidate : CandidateValue)
    (all_candidates : list CandidateValue) : result ValidationResult :=
    let unit_check := _check_unit_consistency candidate in
    let issues1 := issue "Unit inconsistency: " (Some unit_check) in
    range_check <- _check_range_bounds candidate all_candidates ;;
    let issues2 := issues1 ++ issue "Range violation: " (Some range_check) in
    yoy_check <- _check_yoy_delta candidate all_candidates ;;
    let issues3 := issues2 ++ issue "YoY anomaly: " yoy_check in
    let arithmetic_check := _check_arithmetic candidate all_candidates in
    let validation_issues :=
      issues3 ++ issue "Arithmetic error: " arithmetic_check in
    Ok {| validation_id := uuid n;
          v_candidate_id := candidate_id candidate;
          status := status_of validation_issues;
          rules_applied :=
            [UNIT_CONSISTENCY; RANGE_CHECK; YOY_DELTA; ARITHMETIC];
          validation_details :=
            [("unit_consistency", Some unit_check);
             ("range_check", Some range_check);
             ("yoy_check", yoy_check);
             ("arithmetic_check", arithmetic_check)];
          issues := match validation_issues with
                    | [] => None
                    | _ => Some validation_issues
                    end |}.
End WithFormat.

(** ** ValidationAggregator *)

Definition needs_adjudication (s : ValidationStatus) : bool :=
  match s with
  | NEEDS_REVIEW | INVALID => true
  | VALID => false
  end.

Definition get_candidates_needing_adjudication
  (validation_results : list ValidationResult) : list string :=
  map v_candidate_id
      (filter (fun r => needs_adjudication (status r)) validation_results).

(** ** [validate_candidates] *)

Definition key_of (candidate : CandidateValue) : string * option Date.date :=
  (metric_name candidate, period_end_date candidate).

Definition key_eqb (a b : string * option Date.date) : bool :=
  String.eqb (fst a) (fst b) && Date.opt_eqb (snd a) (snd b).

Definition _group_candidates (candidates : list CandidateValue)
  : Dict.t (string * option Date.date) (list CandidateValue) :=
  fold_left
    (fun grouped candidate =>
       let key := (metric_name candidate, period_end_date candidate) in
       match Dict.get key_eqb grouped key with
       | None => Dict.set key_eqb grouped key [candidate]
       | Some l => Dict.set key_eqb grouped key (l ++ [candidate])
       end)
    candidates [].

(** The body of the grouping loop, and the candidates of one key. *)
Definition group_step
  (grouped : Dict.t (string * option Date.date) (list CandidateValue))
  (candidate : CandidateValue)
  : Dict.t (string * option Date.date) (list CandidateValue) :=
  match Dict.get key_eqb grouped (key_of candidate) with
  | None => Dict.set key_eqb grouped (key_of candidate) [candidate]
  | Some l => Dict.set key_eqb grouped (key_of candidate) (l ++ [candidate])
  end.

Definition with_key (k : string * option Date.date)
  (cs : list CandidateValue) : list CandidateValue :=
  filter (fun c => key_eqb (key_of c) k) cs.

Section Batch.
Variable fmt : Dec.Decimal -> string.
Variable tolerance : Dec.Decimal.
Variable uuid : nat -> string.

  (** [for candidate in metric_candidates: results.append(...)]; [n]
      counts the identifiers drawn so far. *)
Fixpoint validate_each (metric_candidates candidates : list CandidateValue)
    (n : nat) : result (list ValidationResult * nat) :=
    match metric_candidates with
    | [] => Ok ([], n)
    | candidate :: rest =>
        r <- _validate_candidate fmt tolerance uuid n candidate candidates ;;
        rs <- validate_each rest candidates (S n) ;;
        Ok (r :: fst rs, snd rs)
    end.

  (** [for (metric_name, period), metric_candidates in grouped.items()] *)
Fixpoint validate_groups (groups : list (list CandidateValue))
    (candidates : list CandidateValue) (n : nat)
    : result (list ValidationResult * nat) :=
    match groups with
    | [] => Ok ([], n)
    | metric_candidates :: rest =>
        rs <- validate_each metric_candidates candidates n ;;
        rs' <- validate_groups rest candidates (snd rs) ;;
        Ok (fst rs ++ fst rs', snd rs')
    end.

Definition validate_candidates (candidates : list CandidateValue)
    : result (list ValidationResult) :=
    rs <- validate_groups (Dict.values (_group_candidates candidates))
                          candidates 0%nat ;;
    Ok (fst rs).
End Batch.

(** The date one year before [d] exists. *)
Definition has_prior_year (candidate : CandidateValue) : bool :=
  match period_end_date candidate with
  | None => true
  | Some d => Date.valid (Date.year d - 1) (Date.month d) (Date.day d)
  end.

(** ** [aggregate_results] *)

Definition count_status (s : ValidationStatus)
  (validation_results : list ValidationResult) : nat :=
  List.length
    (filter (fun r => match status r, s with
                      | VALID, VALID | INVALID, INVALID
                      | NEEDS_REVIEW, NEEDS_REVIEW => true
                      | _, _ => false
                      end)
            validation_results).

(** The integer entries of the summary; its float [pass_rate] and its
    [common_issues] are left out. *)
Record summary : Type := {
  total_validated : nat;
  valid_count : nat;
  invalid_count : nat;
  needs_review_count : nat;
  needs_adjudication_count : nat
}.

Definition aggregate_results (validation_results : list ValidationResult)
  : summary :=
  let total := List.length validation_results in
  let valid := count_status VALID validation_results in
  let invalid := count_status INVALID validation_results in
  let needs_review := count_status NEEDS_REVIEW validation_results in
  {| total_validated := total;
     valid_count := valid;
     invalid_count := invalid;
     needs_review_count := needs_review;
     needs_adjudication_count := (needs_review + invalid)%nat |}.

(** ** Statements about the status of a candidate *)

Definition b2n (b : bool) : nat := if b then 1%nat else 0%nat.

(** The number of rule issues raised by the four checks. *)
Definition rule_issues (unit_check range_check : check)
  (yoy_check arithmetic_check : option check) : nat :=
  (b2n (negb (valid unit_check)) + b2n (negb (valid range_check))
   + b2n (failed yoy_check) + b2n (failed arithmetic_check))%nat.

(** Status aggregation in the words of the specification (section 4.H). *)
Definition spec_status (n : nat) : ValidationStatus :=
  match n with
  | 0%nat => VALID
  | 1%nat => NEEDS_REVIEW
  | _ => INVALID
  end.

End validators.

(* ===================================================================== *)
(** * [src/services/blockification.py] *)
(* ===================================================================== *)

Module blockification.

Import schemas.

Definition rows (t : TableBlock) : Z := Z.of_nat (List.length (data t)).

(** [len(table.data[0]) if table.data else 0] *)
Definition cols (t : TableBlock) : Z :=
  match data t with
  | [] => 0
  | row :: _ => Z.of_nat (List.length row)
  end.

(** [str(table.data[0][0]).strip()], when the table has a first row and
    that row has a first cell. *)
Definition first_cell (t : TableBlock) : option string :=
  match data t with
  | (c :: _) :: _ => Some (Text.strip (str_cell c))
  | _ => None
  end.

Definition _tables_similar (table1 table2 : TableBlock) : bool :=
  if negb (page_number table1 =? page_number table2) then false
  else if (2 <? Z.abs (rows table1 - rows table2))
          || (1 <? Z.abs (cols table1 - cols table2)) then false
  else
    match first_cell table1, first_cell table2 with
    | Some cell1, Some cell2 =>
        negb (String.eqb cell1 "") && negb (String.eqb cell2 "")
        && String.eqb cell1 cell2
    | _, _ => false
    end.

Definition pages : Type := Dict.t Z (list TableBlock).

Definition on (d : pages) (page : Z) : list TableBlock :=
  match Dict.get Z.eqb d page with
  | Some l => l
  | None => []
  end.

(** Body of the loop over the Camelot tables. *)
Definition add_camelot (d : pages) (table : TableBlock) : pages :=
  let page := page_number table in
  Dict.set Z.eqb d page (on d page ++ [table]).

(** Body of the loop over the pdfplumber tables. *)
Definition add_pdfplumber (d : pages) (table : TableBlock) : pages :=
  let page := page_number table in
  match Dict.get Z.eqb d page with
  | None => Dict.set Z.eqb d page [table]
  | Some existing =>
      if existsb (fun existing_table => _tables_similar table existing_table)
                 existing
      then d
      else Dict.set Z.eqb d page (existing ++ [table])
  end.

Definition tables_by_page (camelot_tables pdfplumber_tables : list TableBlock)
  : pages :=
  fold_left add_pdfplumber pdfplumber_tables
            (fold_left add_camelot camelot_tables []).

Definition _merge_tables (camelot_tables pdfplumber_tables : list TableBlock)
  : list TableBlock :=
  let d := tables_by_page camelot_tables pdfplumber_tables in
  flat_map (on d) (sorted Z.leb (Dict.keys d)).

(** ** Statements about the merged tables *)

(** A dictionary of pages is consistent when every table is filed under
    its own page. *)
Definition filed (d : pages) : Prop :=
  forall k t, In t (on d k) -> page_number t = k.

(** What one pdfplumber table does to the tables already placed on page
    [p]: it is appended unless it is on another page or similar to one of
    them. *)
Definition page_step (p : Z) (placed : list TableBlock) (table : TableBlock)
  : list TableBlock :=
  if page_number table =? p then
    if existsb (fun existing_table => _tables_similar table existing_table)
               placed
    then placed else placed ++ [table]
  else placed.

Definition on_page (p : Z) (l : list TableBlock) : list TableBlock :=
  filter (fun t => page_number t =? p) l.

(** The first cells of the first data rows are both nonempty and equal. *)
Definition first_cells_agree (t u : TableBlock) : Prop :=
  exists c, first_cell t = Some c /\ first_cell u = Some c
            /\ c <> EmptyString.

(** At least one of: row delta > 2, column delta > 1, first-cell
    mismatch. *)
Definition distinct_by_test (t u : TableBlock) : Prop :=
  2 < Z.abs (rows t - rows u) \/ 1 < Z.abs (cols t - cols u)
  \/ ~ first_cells_agree t u.

(** Dedup closure (section 8, property 8) for one merged list: any two
    tables at different positions on the same page pass the test. *)
Definition dedup_closed (merged : list TableBlock) : Prop :=
  forall i j t u, i <> j ->
    nth_error merged i = Some t -> nth_error merged j = Some u ->
    page_number t = page_number u -> distinct_by_test t u.

End blockification.

(* ===================================================================== *)
(** * [src/services/section_locator.py] *)
(* ===================================================================== *)

Module section_locator.

Import schemas.

Record section_candidate : Type := {
  c_type : string;
  c_name : string;
  c_start_page : Z;
  c_start_block_idx : nat;
  c_confidence : confidence
}.

Section WithPatterns.
  (** [FinancialSectionPatterns.is_section_header] and
      [.match_section_type], from [services/patterns.py]. *)
Variable is_section_header : string -> bool.
Variable match_section_type : string -> list string.

Fixpoint scan (idx : nat) (text_blocks : list TextBlock)
    : list section_candidate :=
    match text_blocks with
    | [] => []
    | block :: rest =>
        if is_section_header (text block) then
          match match_section_type (text block) with
          | section_type :: _ =>
              {| c_type := section_type;
                 c_name := Text.strip (text block);
                 c_start_page := b_page_number block;
                 c_start_block_idx := idx;
                 c_confidence := 90 |} :: scan (S idx) rest
          | [] => scan (S idx) rest
          end
        else scan (S idx) rest
    end.

  (** The boundary loop: [last_page] is [text_blocks[-1].page_number]. *)
Fixpoint boundaries (last_page : option Z) (cands : list section_candidate)
    : list Section :=
    match cands with
    | [] => []
    | candidate :: rest =>
        let end_page :=
          match rest with
          | next :: _ =>
              let e := c_start_page next - 1 in
              if e <? c_start_page candidate then c_start_page candidate
              else e
          | [] =>
              match last_page with
              | Some p => p
              | None => c_start_page candidate
              end
          end in
        {| section_id := "section_" ++ c_type candidate ++ "_"
                         ++ Text.str (c_start_page candidate);
           s_section_type := c_type candidate;
           section_name := c_name candidate;
           start_page := c_start_page candidate;
           end_page := end_page;
           s_confidence_score := c_confidence candidate;
           detection_method := "regex" |} :: boundaries last_page rest
    end.

Definition _locate_sections_regex (text_blocks : list TextBlock)
    : list Section :=
    boundaries (option_map b_page_number (last (map Some text_blocks) None))
               (scan O text_blocks).
End WithPatterns.

Definition by_start_page (a b : Section) : bool :=
  start_page a <=? start_page b.

Definition mergeable (current next_section : Section) : bool :=
  String.eqb (s_section_type next_section) (s_section_type current)
  && (start_page next_section <=? end_page current + 1).

Definition extend (current next_section : Section) : Section :=
  {| section_id := section_id current;
     s_section_type := s_section_type current;
     section_name := section_name current;
     start_page := start_page current;
     end_page := Z.max (end_page current) (end_page next_section);
     s_confidence_score :=
       Z.max (s_confidence_score current) (s_confidence_score next_section);
     detection_method := detection_method current |}.

(** The loop over [sorted_sections[1:]], with [merged.append(current)] after
    it. *)
Fixpoint merge_loop (current : Section) (rest : list Section)
  : list Section :=
  match rest with
  | [] => [current]
  | next_section :: rest' =>
      if mergeable current next_section
      then merge_loop (extend current next_section) rest'
      else current :: merge_loop next_section rest'
  end.

Definition _merge_sections (sections : list Section) : list Section :=
  match sorted by_start_page sections with
  | [] => []
  | current :: rest => merge_loop current rest
  end.

(** ** Statements about the merged sections *)

Definition overlap (a b : Section) : Prop :=
  start_page a <= end_page b /\ start_page b <= end_page a.

(** Sections of the same type at different positions do not overlap. *)
Definition same_type_disjoint (l : list Section) : Prop :=
  forall i j a b, i <> j ->
    nth_error l i = Some a -> nth_error l j = Some b ->
    s_section_type a = s_section_type b -> ~ overlap a b.

Definition sorted_by_start (l : list Section) : Prop :=
  StronglySorted (fun a b => start_page a <= start_page b) l.

(** ** The other methods of [SectionLocator] *)

(** [locate_sections]: the regex pass followed by the merge. *)
Definition locate_sections (is_section_header : string -> bool)
  (match_section_type : string -> list string) (text_blocks : list TextBlock)
  : list Section :=
  _merge_sections
    (_locate_sections_regex is_section_header match_section_type text_blocks).

Fixpoint find_section_by_type (sections : list Section)
  (section_type : string) : option Section :=
  match sections with
  | [] => None
  | section :: rest =>
      if String.eqb (s_section_type section) section_type then Some section
      else find_section_by_type rest section_type
  end.

Definition critical_sections : list string :=
  ["income_statement"; "balance_sheet"; "cash_flow"].

(** [s in found_types], for the set [found_types] of the section types. *)
Definition found_type (sections : list Section) (s : string) : bool :=
  existsb (fun x => String.eqb (s_section_type x) s) sections.

Definition validate_sections (sections : list Section) : bool * list string :=
  let missing :=
    filter (fun s => negb (found_type sections s)) critical_sections in
  ((List.length missing =? 0)%nat, missing).

(** Page [p] lies in a section of type [ty] of the list. *)
Definition covers (l : list Section) (ty : string) (p : Z) : Prop :=
  exists s, In s l /\ s_section_type s = ty
            /\ start_page s <= p <= end_page s.

(** The text blocks come in page order. *)
Definition page_ordered (text_blocks : list TextBlock) : Prop :=
  StronglySorted (fun a b => b_page_number a <= b_page_number b) text_blocks.

End section_locator.

(* ===================================================================== *)
(** * [src/services/llm_adjudicator.py] *)
(* ===================================================================== *)

Module llm_adjudicator.

Import schemas.

(** The object decoded from the reply of the model. *)
Record adjudication : Type := {
  selected_candidate_id : string;
  a_confidence : confidence;
  reasoning : string;
  alternative_value : option Dec.Decimal
}.

Definition startswith (p s : string) : bool := prefix p s.

Definition endswith (p s : string) : bool :=
  (String.length p <=? String.length s)%nat
  && String.eqb (Text.drop (String.length s - String.length p) s) p.

(** The text handed to [json.loads]: the reply without its code fence. *)
Definition unfence (response : string) : string :=
  let r := Text.strip response in
  let r := if startswith "```json" r then Text.drop 7 r else r in
  let r := if startswith "```" r then Text.drop 3 r else r in
  let r := if endswith "```" r
           then Text.take (String.length r - 3) r else r in
  Text.strip r.

Definition _candidate_to_metric (candidate : CandidateValue)
  (llm_reasoning : option string) (llm_confidence : option confidence)
  (alternative_value : option Dec.Decimal) : FinancialMetric :=
  let final_value :=
    match alternative_value with
    | Some v => v
    | None => value candidate
    end in
  {| metric_id := candidate_id candidate;
     m_metric_name := metric_name candidate;
     m_value := final_value;
     m_currency := currency candidate;
     m_scale := scale candidate;
     m_period_end_date := period_end_date candidate;
     entity_type := CONSOLIDATED;
     extraction_method := None;
     notes := None;
     llm_reasoning := llm_reasoning;
     llm_confidence := llm_confidence |}.

(** [max(candidates, key=lambda c: c.confidence_score)]: the first
    candidate whose score no other exceeds. *)
Fixpoint max_loop (best : CandidateValue) (rest : list CandidateValue)
  : CandidateValue :=
  match rest with
  | [] => best
  | c :: rest' =>
      if confidence_score best <? confidence_score c
      then max_loop c rest'
      else max_loop best rest'
  end.

Definition max_confidence (candidates : list CandidateValue)
  : result CandidateValue :=
  match candidates with
  | [] => Raise ValueError
  | c :: rest => Ok (max_loop c rest)
  end.

Definition _fallback_adjudication (candidates : list CandidateValue)
  : result FinancialMetric :=
  best_candidate <- max_confidence candidates ;;
  Ok (_candidate_to_metric best_candidate None None None).

Fixpoint _find_candidate_by_id (candidates : list CandidateValue)
  (id : string) : option CandidateValue :=
  match candidates with
  | [] => None
  | candidate :: rest =>
      if String.eqb (candidate_id candidate) id then Some candidate
      else _find_candidate_by_id rest id
  end.

Section WithClient.
  (** [self.llm_client]: absent, or a client whose call returns the reply
      or raises. *)
Variable llm_client : option (string -> result string).

  (** [json.loads] followed by the test for the required fields and the
      reads of the fields: the decoded object, or the exception raised. *)
Variable json_loads : string -> result adjudication.

  (** The prompt built from the template. *)
Variable prompt_of :
    list CandidateValue -> list ValidationResult -> string.

Definition _parse_llm_response (response : string) : result adjudication :=
    json_loads (unfence response).

Definition _adjudicate_with_llm (candidates : list CandidateValue)
    (validation_results : list ValidationResult) : result FinancialMetric :=
    match candidates with
    | [] => Raise IndexError
    | _ :: _ =>
        let prompt := prompt_of candidates validation_results in
        match llm_client with
        | None => _fallback_adjudication candidates
        | Some client =>
            response <- client prompt ;;
            adjudication <- _parse_llm_response response ;;
            match _find_candidate_by_id candidates
                    (selected_candidate_id adjudication) with
            | None => _fallback_adjudication candidates
            | Some selected_candidate =>
                Ok (_candidate_to_metric selected_candidate
                      (Some (reasoning adjudication))
                      (Some (a_confidence adjudication))
                      (alternative_value adjudication))
            end
        end
    end.

Definition relevant (metric_candidates : list CandidateValue)
    (validation_results : list ValidationResult) : list ValidationResult :=
    filter (fun v => existsb (fun c => String.eqb (candidate_id c)
                                                  (v_candidate_id v))
                             metric_candidates)
           validation_results.

  (** The body of the loop over the groups in [adjudicate_candidates]. *)
Definition adjudicate_group (metric_candidates : list CandidateValue)
    (validation_results : list ValidationResult) : result FinancialMetric :=
    let relevant_validations := relevant metric_candidates validation_results in
    let needs_adjudication :=
      existsb (fun v => validators.needs_adjudication (status v))
              relevant_validations in
    if negb needs_adjudication then _fallback_adjudication metric_candidates
    else
      match _adjudicate_with_llm metric_candidates relevant_validations with
      | Ok adjudicated_metric => Ok adjudicated_metric
      | Raise _ => _fallback_adjudication metric_candidates
      end.

Definition key_eqb (a b : string * option Date.date) : bool :=
    String.eqb (fst a) (fst b) && Date.opt_eqb (snd a) (snd b).

Definition _group_candidates (candidates : list CandidateValue)
    : Dict.t (string * option Date.date) (list CandidateValue) :=
    fold_left
      (fun grouped candidate =>
         let key := (metric_name candidate, period_end_date candidate) in
         match Dict.get key_eqb grouped key with
         | None => Dict.set key_eqb grouped key [candidate]
         | Some l => Dict.set key_eqb grouped key (l ++ [candidate])
         end)
      candidates [].

Fixpoint each_group (groups : list (list CandidateValue))
    (validation_results : list ValidationResult)
    : result (list FinancialMetric) :=
    match groups with
    | [] => Ok []
    | g :: rest =>
        m <- adjudicate_group g validation_results ;;
        ms <- each_group rest validation_results ;;
        Ok (m :: ms)
    end.

Definition adjudicate_candidates (candidates : list CandidateValue)
    (validation_results : list ValidationResult)
    : result (list FinancialMetric) :=
    each_group (Dict.values (_group_candidates candidates)) validation_results.
End WithClient.

(** ** Statements about the adjudicated metrics *)

(** The metric [m] was made from the candidate [c]. *)
Definition made_from (m : FinancialMetric) (c : CandidateValue) : Prop :=
  metric_id m = candidate_id c
  /\ m_currency m = currency c /\ m_scale m = scale c
  /\ m_metric_name m = metric_name c
  /\ m_period_end_date m = period_end_date c.

(** The metric [m] was made from a candidate of the group [kv]: it has the
    id, currency and scale of that candidate, and the metric name and the
    period of the group. *)
Definition made_from_group (candidates : list CandidateValue)
  (m : FinancialMetric)
  (kv : (string * option Date.date) * list CandidateValue) : Prop :=
  exists c, In c (snd kv) /\ In c candidates
            /\ metric_id m = candidate_id c
            /\ m_currency m = currency c /\ m_scale m = scale c
            /\ m_metric_name m = fst (fst kv)
            /\ m_period_end_date m = snd (fst kv).

End llm_adjudicator.

(* ===================================================================== *)
(** * [src/analysis/derived_metrics.py] *)
(* ===================================================================== *)

Module derived_metrics.

Import schemas.

(** [{metric_name: {period: metric}}] *)
Definition metrics_dict : Type := Dict.t string (Dict.t string FinancialMetric).

Definition growth_targets : list (string * string) := [
  ("revenue", "Revenue Growth");
  ("ebitda", "EBITDA Growth");
  ("net_income", "Net Income Growth");
  ("operating_profit", "Operating Profit Growth")
].

(** [metric.period_end_date.year] *)
Definition year_of (metric : FinancialMetric) : result Z :=
  match m_period_end_date metric with
  | Some d => Ok (Date.year d)
  | None => Raise AttributeError
  end.

Fixpoint create_loop (metrics : list FinancialMetric) (d : metrics_dict)
  : result metrics_dict :=
  match metrics with
  | [] => Ok d
  | metric :: rest =>
      let name := Text.replace_char " " "_" (Text.lower (m_metric_name metric)) in
      y <- year_of metric ;;
      let period := Text.str y in
      let inner := match Dict.get String.eqb d name with
                   | Some i => i
                   | None => []
                   end in
      create_loop rest
        (Dict.set String.eqb d name (Dict.set String.eqb inner period metric))
  end.

Definition _create_metrics_dict (metrics : list FinancialMetric)
  : result metrics_dict :=
  create_loop metrics [].

(** [self.config.validation]: the two bounds on growth, with the exact
    values of the configured floats. *)
Record ValidationConfig : Type := {
  yoy_growth_max : Dec.Decimal;
  yoy_growth_min : Dec.Decimal
}.

Definition default_config : ValidationConfig :=
  {| yoy_growth_max := Dec.mk 5 0;
     yoy_growth_min :=
       Dec.mk (-90000000000000002220446049250313080847263336181640625) (-53) |}.

Section WithConfig.
Variable config : ValidationConfig.

  (** The growth rate, and the warnings logged on the way. *)
Definition _calculate_growth_rate (current_value prior_value : Dec.Decimal)
    : option Dec.Decimal * list string :=
    if Dec.is_zero prior_value then (None, [])
    else
      match Dec.div (Dec.sub current_value prior_value)
                    (Dec.abs prior_value) with
      | Ok growth_rate =>
          (Some growth_rate,
           if Dec.ltb (yoy_growth_max config) growth_rate
              || Dec.ltb growth_rate (yoy_growth_min config)
           then ["growth_rate_out_of_bounds"] else [])
      | Raise _ => (None, [])
      end.

Definition growth_metric (metric_key metric_name current_period
    prior_period : string) (current_metric : FinancialMetric)
    (growth_rate : Dec.Decimal) : FinancialMetric :=
    {| metric_id := (metric_key ++ "_growth_" ++ current_period)%string;
       m_metric_name := (metric_name ++ " YoY")%string;
       m_value := growth_rate;
       m_currency := "";
       m_scale := "actual";
       m_period_end_date := m_period_end_date current_metric;
       entity_type := entity_type current_metric;
       extraction_method := Some CALCULATED;
       notes := Some ("Calculated from " ++ prior_period ++ " to "
                      ++ current_period)%string;
       llm_reasoning := None;
       llm_confidence := None |}.

  (** The loop [for i in range(1, len(periods))], entered with
      [prior_period = periods[i - 1]] and [rest = periods[i:]]. *)
Fixpoint period_loop (metric_key metric_name : string)
    (by_period : Dict.t string FinancialMetric) (prior_period : string)
    (rest : list string) : list FinancialMetric * list string :=
    match rest with
    | [] => ([], [])
    | current_period :: rest' =>
        let '(ms, ws) :=
          period_loop metric_key metric_name by_period current_period rest' in
        match Dict.get String.eqb by_period current_period,
              Dict.get String.eqb by_period prior_period with
        | Some current_metric, Some prior_metric =>
            match _calculate_growth_rate (m_value current_metric)
                                         (m_value prior_metric) with
            | (Some growth_rate, w) =>
                (growth_metric metric_key metric_name current_period
                               prior_period current_metric growth_rate :: ms,
                 w ++ ws)
            | (None, w) => (ms, w ++ ws)
            end
        | _, _ => (ms, "growth_rate_calculation_failed" :: ws)
        end
    end.

Fixpoint target_loop (targets : list (string * string)) (d : metrics_dict)
    : list FinancialMetric * list string :=
    match targets with
    | [] => ([], [])
    | (metric_key, metric_name) :: rest =>
        let '(ms', ws') := target_loop rest d in
        match Dict.get String.eqb d metric_key with
        | None => (ms', ws')
        | Some by_period =>
            match sorted Text.leb (Dict.keys by_period) with
            | [] => (ms', ws')
            | first :: periods =>
                let '(ms, ws) :=
                  period_loop metric_key metric_name by_period first periods in
                (ms ++ ms', ws ++ ws')
            end
        end
    end.

Definition _compute_growth_rates (d : metrics_dict)
    : list FinancialMetric * list string :=
    target_loop growth_targets d.
End WithConfig.

(** ** Ratios *)

(** [metrics_dict[key][period]] when both keys are present. *)
Definition lookup (d : metrics_dict) (key period : string)
  : option FinancialMetric :=
  match Dict.get String.eqb d key with
  | Some by_period => Dict.get String.eqb by_period period
  | None => None
  end.

(** The keys that [all_periods.update(...)] puts into the set, in the order
    in which they are put. *)
Definition period_keys (d : metrics_dict) : list string :=
  flat_map (fun by_period => Dict.keys by_period) (Dict.values d).

(** [for key in keys: if key in metrics_dict and period in
    metrics_dict[key]: found = key; break] *)
Fixpoint first_key (d : metrics_dict) (period : string) (keys : list string)
  : option string :=
  match keys with
  | [] => None
  | key :: rest =>
      match lookup d key period with
      | Some _ => Some key
      | None => first_key d period rest
      end
  end.

(** [net_debt_key.replace('_', ' ').title()] on the two keys that
    [net_debt_key] can be. *)
Definition title_of_key (key : string) : string :=
  if String.eqb key "net_debt" then "Net Debt" else "Total Debt".

Section WithMargins.
Variable config : ValidationConfig.

  (** [self.config.validation.margin_max] and [margin_min], with the exact
      values of the configured floats. *)
Variables margin_max margin_min : Dec.Decimal.

  (** The order in which a set holding the given keys yields them. *)
Variable iter_set : list string -> list string.

  (** The ratio, and the warnings logged on the way. *)
Definition _calculate_ratio (numerator denominator : Dec.Decimal)
    (as_percentage : bool) : option Dec.Decimal * list string :=
    if Dec.is_zero denominator then (None, [])
    else
      match Dec.div numerator denominator with
      | Ok ratio =>
          (Some ratio,
           if as_percentage
              && (Dec.ltb margin_max ratio || Dec.ltb ratio margin_min)
           then ["ratio_out_of_bounds"] else [])
      | Raise _ => (None, [])
      end.

Definition _create_ratio_metric (metric_id metric_name : string)
    (value : Dec.Decimal) (period_end_date : option Date.date)
    (entity_type : EntityType) (formula : string) (as_percentage : bool)
    : FinancialMetric :=
    {| schemas.metric_id := metric_id;
       m_metric_name := metric_name;
       m_value := value;
       m_currency := if as_percentage then "" else "ratio";
       m_scale := "actual";
       m_period_end_date := period_end_date;
       schemas.entity_type := entity_type;
       extraction_method := Some CALCULATED;
       notes := Some ("Formula: " ++ formula)%string;
       llm_reasoning := None;
       llm_confidence := None |}.

  (** One ratio of two metrics of a period, when both are there: the
      metric of the numerator gives the date and the entity type. *)
Definition ratio_of (numerator denominator : option FinancialMetric)
    (metric_id metric_name formula : string) (as_percentage : bool)
    : list FinancialMetric * list string :=
    match numerator, denominator with
    | Some n, Some dn =>
        match _calculate_ratio (m_value n) (m_value dn) as_percentage with
        | (Some ratio, w) =>
            ([_create_ratio_metric metric_id metric_name ratio
                (m_period_end_date n) (schemas.entity_type n) formula
                as_percentage], w)
        | (None, w) => ([], w)
        end
    | _, _ => ([], [])
    end.

Definition both (a b : list FinancialMetric * list string)
    : list FinancialMetric * list string :=
    (fst a ++ fst b, snd a ++ snd b).

  (** [for period in all_periods: body] *)
Definition each_period
    (body : string -> list FinancialMetric * list string) (d : metrics_dict)
    : list FinancialMetric * list string :=
    fold_left (fun acc period => both acc (body period))
              (iter_set (period_keys d)) ([], []).

Definition _compute_profitability_ratios (d : metrics_dict)
    : list FinancialMetric * list string :=
    each_period
      (fun period =>
         both (ratio_of (lookup d "ebitda" period) (lookup d "revenue" period)
                 ("ebitda_margin_" ++ period) "EBITDA Margin"
                 "EBITDA / Revenue" true)
           (both (ratio_of (lookup d "net_income" period)
                    (lookup d "revenue" period)
                    ("net_margin_" ++ period) "Net Margin"
                    "Net Income / Revenue" true)
                 (ratio_of (lookup d "operating_profit" period)
                    (lookup d "revenue" period)
                    ("operating_margin_" ++ period) "Operating Margin"
                    "Operating Profit / Revenue" true)))
      d.

Definition _compute_leverage_ratios (d : metrics_dict)
    : list FinancialMetric * list string :=
    each_period
      (fun period =>
         both (match first_key d period ["net_debt"; "total_debt"] with
               | Some net_debt_key =>
                   ratio_of (lookup d net_debt_key period)
                     (lookup d "ebitda" period)
                     ("debt_to_ebitda_" ++ period) "Net Debt / EBITDA"
                     (title_of_key net_debt_key ++ " / EBITDA") false
               | None => ([], [])
               end)
              (ratio_of (lookup d "total_debt" period)
                 (lookup d "total_equity" period)
                 ("debt_to_equity_" ++ period) "Debt-to-Equity"
                 "Total Debt / Total Equity" false))
      d.

Definition _compute_liquidity_ratios (d : metrics_dict)
    : list FinancialMetric * list string :=
    each_period
      (fun period =>
         both (ratio_of (lookup d "current_assets" period)
                 (lookup d "current_liabilities" period)
                 ("current_ratio_" ++ period) "Current Ratio"
                 "Current Assets / Current Liabilities" false)
              (match first_key d period
                       ["cash"; "cash_and_equivalents";
                        "cash_and_cash_equivalents"] with
               | Some cash_key =>
                   ratio_of (lookup d cash_key period)
                     (lookup d "current_liabilities" period)
                     ("cash_ratio_" ++ period) "Cash Ratio"
                     "Cash / Current Liabilities" false
               | None => ([], [])
               end))
      d.

Definition compute_all_metrics (validated_metrics : list FinancialMetric)
    : result (list FinancialMetric * list string) :=
    d <- _create_metrics_dict validated_metrics ;;
    Ok (both (_compute_growth_rates config d)
             (both (_compute_profitability_ratios d)
                   (both (_compute_leverage_ratios d)
                         (_compute_liquidity_ratios d)))).
End WithMargins.

(** ** Statements about the derived metrics *)

(** [name.lower().replace(' ', '_')] and [str(year)] of a metric. *)
Definition name_key (metric : FinancialMetric) : string :=
  Text.replace_char " " "_" (Text.lower (m_metric_name metric)).

Definition files_under (name period : string) (metric : FinancialMetric)
  : bool :=
  String.eqb (name_key metric) name
  && match m_period_end_date metric with
     | Some d => String.eqb (Text.str (Date.year d)) period
     | None => false
     end.

(** A derived metric: calculated, unitless, without a trace of the
    adjudicator. *)
Definition derived (m : FinancialMetric) : Prop :=
  extraction_method m = Some CALCULATED
  /\ m_scale m = "actual"
  /\ (m_currency m = "" \/ m_currency m = "ratio")
  /\ llm_reasoning m = None /\ llm_confidence m = None.

(** ** The growth rates in the words of the specification (section 4.J) *)

(** The key of the year after [y] does not sort before the key of [y]. *)
Definition next_year_key_follows (y : Z) : bool :=
  Text.leb (Text.str y) (Text.str (y + 1)).

(** The key of the year [y] reads back as [y]. *)
Definition year_key_reads_back (y : Z) : bool :=
  Text.int (Text.str y) =? y.

(** [(v_now - v_prev) / |v_prev|] in decimal arithmetic. *)
Definition growth_quotient (v_now v_prev : Dec.Decimal) : result Dec.Decimal :=
  Dec.div (Dec.sub v_now v_prev) (Dec.abs v_prev).

(** Consecutive pairs of a list. *)
Definition adjacent (A : Type) (l : list A) : list (A * A) :=
  combine l (tl l).

(** What one pair of consecutive periods [(prior, current)] contributes. *)
Definition spec_pair (metric_key metric_name : string)
  (by_period : Dict.t string FinancialMetric) (pair : string * string)
  : list FinancialMetric :=
  match Dict.get String.eqb by_period (fst pair),
        Dict.get String.eqb by_period (snd pair) with
  | Some prior_metric, Some current_metric =>
      if Dec.is_zero (m_value prior_metric) then []
      else
        match growth_quotient (m_value current_metric)
                              (m_value prior_metric) with
        | Ok g =>
            [{| metric_id := (metric_key ++ "_growth_" ++ snd pair)%string;
                m_metric_name := (metric_name ++ " YoY")%string;
                m_value := g;
                m_currency := "";
                m_scale := "actual";
                m_period_end_date := m_period_end_date current_metric;
                entity_type := entity_type current_metric;
                extraction_method := Some CALCULATED;
                notes := Some ("Calculated from " ++ fst pair ++ " to "
                               ++ snd pair)%string;
                llm_reasoning := None;
                llm_confidence := None |}]
        | Raise _ => []
        end
  | _, _ => []
  end.

Definition spec_growth_rates (d : metrics_dict) : list FinancialMetric :=
  flat_map
    (fun target : string * string =>
       match Dict.get String.eqb d (fst target) with
       | None => []
       | Some by_period =>
           flat_map (spec_pair (fst target) (snd target) by_period)
                    (adjacent (sorted Text.leb (Dict.keys by_period)))
       end)
    growth_targets.

End derived_metrics.

(* ===================================================================== *)
(** * [src/utils/currency.py] *)
(* ===================================================================== *)

Module currency.

(** ** CurrencyConverter *)

Definition EXCHANGE_RATES : list ((string * string) * Dec.Decimal) := [
  (("GBP", "USD"), Dec.mk 127 (-2));
  (("GBP", "EUR"), Dec.mk 117 (-2));
  (("USD", "GBP"), Dec.mk 79 (-2));
  (("USD", "EUR"), Dec.mk 92 (-2));
  (("EUR", "GBP"), Dec.mk 85 (-2));
  (("EUR", "USD"), Dec.mk 109 (-2));
  (("GBP", "GBP"), Dec.mk 10 (-1));
  (("USD", "USD"), Dec.mk 10 (-1));
  (("EUR", "EUR"), Dec.mk 10 (-1))
].

(** [EXCHANGE_RATES.get((from_curr, to_curr))] for two upper-cased codes. *)
Fixpoint rate_of (rates : list ((string * string) * Dec.Decimal))
  (from_curr to_curr : list Z) : option Dec.Decimal :=
  match rates with
  | [] => None
  | ((f, t), rate) :: rest =>
      if Text.points_eqb (Text.points f) from_curr
         && Text.points_eqb (Text.points t) to_curr
      then Some rate
      else rate_of rest from_curr to_curr
  end.

Definition convert (amount : Dec.Decimal) (from_currency to_currency : string)
  : option Dec.Decimal :=
  if String.eqb from_currency to_currency then Some amount
  else
    let from_curr := Text.upper from_currency in
    let to_curr := Text.upper to_currency in
    match rate_of EXCHANGE_RATES from_curr to_curr with
    | None => None
    | Some rate => Some (Dec.mul amount rate)
    end.

Definition normalize_to_base (amount : Dec.Decimal)
  (currency base_currency : string) : Dec.Decimal :=
  match convert amount currency base_currency with
  | Some converted => converted
  | None => amount
  end.

(** ** ScaleConverter *)

Definition SCALE_MULTIPLIERS : Dict.t string Dec.Decimal := [
  ("actual", Dec.mk 1 0);
  ("thousands", Dec.mk 1000 0);
  ("millions", Dec.mk 1000000 0);
  ("billions", Dec.mk 1000000000 0)
].

Definition SCALE_ALIASES : Dict.t string string := [
  ("k", "thousands");
  ("m", "millions");
  ("b", "billions");
  ("thousand", "thousands");
  ("million", "millions");
  ("billion", "billions");
  ("000s", "thousands");
  ("000,000s", "millions")
].

Definition normalize_scale (scale : string) : string :=
  let scale_lower := Text.strip (Text.lower scale) in
  if Dict.mem String.eqb SCALE_MULTIPLIERS scale_lower then scale_lower
  else
    match Dict.get String.eqb SCALE_ALIASES scale_lower with
    | Some name => name
    | None => "actual"
    end.

(** [SCALE_MULTIPLIERS.get(name, Decimal("1"))] *)
Definition multiplier (name : string) : Dec.Decimal :=
  match Dict.get String.eqb SCALE_MULTIPLIERS name with
  | Some m => m
  | None => Dec.mk 1 0
  end.

Definition convert_to_scale (amount : Dec.Decimal)
  (from_scale to_scale : string) : result Dec.Decimal :=
  let from_scale_norm := normalize_scale from_scale in
  let to_scale_norm := normalize_scale to_scale in
  if String.eqb from_scale_norm to_scale_norm then Ok amount
  else
    let from_multiplier := multiplier from_scale_norm in
    let to_multiplier := multiplier to_scale_norm in
    let actual_value := Dec.mul amount from_multiplier in
    Dec.div actual_value to_multiplier.

Definition to_actual (amount : Dec.Decimal) (scale : string)
  : result Dec.Decimal :=
  convert_to_scale amount scale "actual".

Definition from_actual (amount : Dec.Decimal) (to_scale : string)
  : result Dec.Decimal :=
  convert_to_scale amount "actual" to_scale.

(** [any(word in text for word in words)] *)
Definition any_in (words : list string) (text : string) : bool :=
  existsb (fun word => Text.contains word text) words.

Definition pound : string := String (Text.chr 163) "".

(** The words written with the euro sign cannot occur in a text of the
    alphabet; they are left out of the three lists. *)
Definition detect_scale (text : string) : string :=
  let text_lower := Text.lower text in
  if any_in ["million"; (pound ++ "m")%string; "$m"; "(m)"] text_lower
  then "millions"
  else if any_in ["thousand"; (pound ++ "k")%string; "$k"; "(k)"] text_lower
  then "thousands"
  else if any_in ["billion"; (pound ++ "b")%string; "$b"; "(b)"] text_lower
  then "billions"
  else "actual".

(** ** CurrencyDetector *)

(** The entry of the euro sign cannot apply to a text of the alphabet. *)
Definition CURRENCY_SYMBOLS : Dict.t string string := [
  (pound, "GBP");
  ("$", "USD");
  (String (Text.chr 165) "", "JPY")
].

Definition CURRENCY_CODES : list string :=
  ["GBP"; "USD"; "EUR"; "JPY"; "CHF"; "CAD"; "AUD"].

Definition CURRENCY_WORDS : Dict.t string string := [
  ("sterling", "GBP");
  ("pounds", "GBP");
  ("dollars", "USD");
  ("euros", "EUR");
  ("euro", "EUR")
].

(** [for key, code in d.items(): if key in text: return code] *)
Fixpoint first_in (d : Dict.t string string) (text : string)
  : option string :=
  match d with
  | [] => None
  | (key, code) :: rest =>
      if Text.contains key text then Some code else first_in rest text
  end.

(** [for code in CURRENCY_CODES: if code in text_upper: return code] *)
Fixpoint first_code (codes : list string) (text_upper : list Z)
  : option string :=
  match codes with
  | [] => None
  | code :: rest =>
      if Text.contains_points (Text.points code) text_upper then Some code
      else first_code rest text_upper
  end.

Definition detect (text : string) : option string :=
  match first_in CURRENCY_SYMBOLS text with
  | Some code => Some code
  | None =>
      match first_code CURRENCY_CODES (Text.upper text) with
      | Some code => Some code
      | None => first_in CURRENCY_WORDS (Text.lower text)
      end
  end.

(** ** Statements about the converters *)

Definition standard_scales : list string :=
  ["actual"; "thousands"; "millions"; "billions"].

Definition supported_currencies : list string := ["GBP"; "USD"; "EUR"].

(** The upper-cased code is one of the three codes of the rate table. *)
Definition supported (currency : string) : bool :=
  existsb (fun c => Text.points_eqb (Text.points c) (Text.upper currency))
          supported_currencies.

End currency.

(* ===================================================================== *)
(** * Scenario data *)
(* ===================================================================== *)

Module examples.

Import schemas.

Definition end_2023 : Date.date := Date.mk 2023 12 31.
Definition end_2022 : Date.date := Date.mk 2022 12 31.

Definition candidate (id name : string) (v : Dec.Decimal) (cur : string)
  (sect : string) : CandidateValue :=
  {| candidate_id := id; metric_name := name; value := v; currency := cur;
     scale := "millions"; period_end_date := Some end_2023;
     section_type := sect; source := Some TABLE_CELL;
     confidence_score := 0; evidence := [] |}.

(** Scenario S4 on the totals of scenario S3. *)
Definition xyz_total : CandidateValue :=
  candidate "c" "total_assets" (Dec.mk 1060 0) "XYZ" "balance_sheet".

Definition asset_components : list CandidateValue :=
  [candidate "a" "current_assets" (Dec.mk 300 0) "GBP" "balance_sheet";
   candidate "b" "non_current_assets" (Dec.mk 700 0) "GBP" "balance_sheet"].

(** A table-cell candidate located in the cash-flow section, with a known
    period and the seven evidence fields of the table path. *)
Definition cash_flow_candidate : CandidateValue :=
  {| candidate_id := "id0"; metric_name := "operating_cash_flow";
     value := Dec.mk 120 0; currency := "GBP"; scale := "millions";
     period_end_date := Some end_2023; section_type := "cash_flow";
     source := Some TABLE_CELL; confidence_score := 0;
     evidence :=
       [("table_id", EvStr "t1"); ("row_index", EvInt 1);
        ("column_index", EvInt 1);
        ("raw_label", EvStr "Cash from operating activities");
        ("raw_value", EvStr "120"); ("period_label", EvStr "FY2023");
        ("section_id", EvStr "section_cash_flow_20")] |}.

(** Two candidates for one metric and period, the second the more
    confident. *)
Definition revenue_group : list CandidateValue :=
  [{| candidate_id := "r1"; metric_name := "revenue"; value := Dec.mk 1100 0;
      currency := "GBP"; scale := "millions";
      period_end_date := Some end_2023; section_type := "notes";
      source := Some TEXT_BLOCK; confidence_score := 45; evidence := [] |};
   {| candidate_id := "r2"; metric_name := "revenue"; value := Dec.mk 1095 0;
      currency := "GBP"; scale := "millions";
      period_end_date := Some end_2023; section_type := "income_statement";
      source := Some TABLE_CELL; confidence_score := 100; evidence := [] |}].

Definition revenue_validations : list ValidationResult :=
  [{| validation_id := "v1"; v_candidate_id := "r1"; status := NEEDS_REVIEW;
      rules_applied := []; validation_details := [];
      issues := Some ["YoY anomaly"] |}].

(** A net-income candidate facing a zero revenue for its period and a
    zero net income one year back. *)
Definition prior (id name : string) (v : Dec.Decimal) : CandidateValue :=
  {| candidate_id := id; metric_name := name; value := v; currency := "GBP";
     scale := "millions"; period_end_date := Some end_2022;
     section_type := "income_statement"; source := Some TABLE_CELL;
     confidence_score := 0; evidence := [] |}.

Definition zero_case : CandidateValue :=
  candidate "z0" "net_income" (Dec.mk 40 0) "GBP" "income_statement".

Definition zero_others : list CandidateValue :=
  [candidate "z1" "revenue" (Dec.mk 0 0) "GBP" "income_statement";
   prior "z2" "net_income" (Dec.mk 0 0)].

(** Three sections sorted by start page, the first and the last of one
    type with a section of another type starting between them. *)
Definition section (ty : string) (first_page last_page : Z) : Section :=
  {| section_id := "section"; s_section_type := ty; section_name := ty;
     start_page := first_page; end_page := last_page;
     s_confidence_score := 90; detection_method := "regex" |}.

Definition interleaved_sections : list Section :=
  [section "notes" 1 10; section "borrowings" 2 3; section "notes" 4 5].

(** The same revenue table found twice by Camelot on page 7. *)
Definition revenue_table (id : string) : TableBlock :=
  {| table_id := id; page_number := 7; headers := [];
     data := [[Some "Revenue"; Some "1,250.5"; Some "1,100.2"];
              [Some "Operating profit"; Some "320.1"; Some "280.5"]] |}.

(** A second table of page 7, found by pdfplumber. *)
Definition costs_table : TableBlock :=
  {| table_id := "plumber_1"; page_number := 7; headers := [];
     data := [[Some "Costs"; Some "930.4"; Some "819.7"]] |}.

Definition camelot_twice : list TableBlock :=
  [revenue_table "lattice_0"; revenue_table "stream_0"].

(** Scenario S2 with the period header written "FY2023". *)
Definition expenses_table : TableBlock :=
  {| table_id := "t1"; page_number := 12; headers := [];
     data := [[Some ""; Some "FY2023"];
              [Some "Operating expenses"; Some "(250.5)"]] |}.

Definition income_statement : Section :=
  section "income_statement" 12 14.

Definition uuid (n : nat) : string := "id" ++ Text.str (Z.of_nat n).

(** Scenario S1. *)
Definition metric (name : string) (v : Z) (d : Date.date) : FinancialMetric :=
  {| metric_id := name; m_metric_name := name; m_value := Dec.mk v 0;
     m_currency := "GBP"; m_scale := "millions";
     m_period_end_date := Some d; entity_type := CONSOLIDATED;
     extraction_method := Some TABLE; notes := None;
     llm_reasoning := None; llm_confidence := None |}.

Definition revenue_two_years : list FinancialMetric :=
  [metric "revenue" 1100 end_2023; metric "revenue" 1000 end_2022].

(** One year to December and two years to March. *)
Definition year_end_labels : list string :=
  ["FY2023"; "Year ended 31 March 2022"; "Year ended 31 March 2023"].

(** Two headers, on pages 3 and 7, in a document of nine pages. *)
Definition three_blocks : list TextBlock :=
  [{| block_id := "b1"; text := "Income Statement"; b_page_number := 3 |};
   {| block_id := "b2"; text := "Balance Sheet"; b_page_number := 7 |};
   {| block_id := "b3"; text := "Notes"; b_page_number := 9 |}].

End examples.

(* ===================================================================== *)
(** * Proof steps used more than once *)
(* ===================================================================== *)

(** Open every existential, conjunction and disjunction among the
    hypotheses. *)
Ltac break_all :=
  repeat match goal with
         | H : exists _, _ |- _ => destruct H
         | H : _ /\ _ |- _ => destruct H
         | H : _ \/ _ |- _ => destruct H
         end.

(** Follow a computation in the [result] monad that ended in [Ok]: every
    bound step returned, every test took a branch that returns. *)
Ltac step_binds H :=
  repeat first
    [ match type of H with
      | bind ?r _ = Ok _ =>
          let E := fresh "E" in
          destruct r eqn:E; cbn [bind] in H; [|discriminate H]
      end
    | match type of H with
      | match ?x with _ => _ end = Ok _ =>
          let E := fresh "E" in
          destruct x eqn:E; try discriminate H
      end ].

(** Follow a computation in the [result] monad that ended in [Raise]: at
    every bound step, either the step raised or the rest did. *)
Ltac raise_binds H :=
  repeat first
    [ match type of H with
      | bind ?r _ = Raise _ =>
          let E := fresh "E" in
          destruct r eqn:E; cbn [bind] in H; [|injection H as <-]
      end
    | match type of H with
      | match ?x with _ => _ end = Raise _ =>
          let E := fresh "E" in
          destruct x eqn:E; try discriminate H
      end ].

(** Replace every date that the constructor returned by its fields;
    [valid] is the lemma that reads a returned date. *)
Ltac dates_by valid :=
  repeat match goal with
         | H : Date.make _ _ _ = Ok _ |- _ =>
             apply valid in H; destruct H as [-> ?]
         end.

(** Read the fields of a period that is written out. *)
Ltac period_fields :=
  cbn [periods.p_type periods.start_date periods.end_date
       periods.fiscal_year periods.quarter periods.half
       periods.original_label Date.year Date.month Date.day].

Unset Implicit Arguments.

(* ===================================================================== *)
(** * Facts about sorting *)
(* ===================================================================== *)

Lemma strongly_sorted_weaken (A : Type) (R R' : A -> A -> Prop) (l : list A) :
  (forall a b, R a b -> R' a b) -> StronglySorted R l -> StronglySorted R' l.
Proof.
  intros HR. induction 1 as [|x l Hs IH Hx]; constructor.
  - exact IH.
  - eapply Forall_impl; [|exact Hx]. intros b. apply HR.
Qed.

Section SortFacts.
Variable A : Type.
Variable le : A -> A -> bool.

Lemma insert_sorted_perm (x : A) (l : list A) :
    Permutation (insert_sorted le x l) (x :: l).
Proof.
    induction l as [|y l IH]; simpl.
    - apply Permutation_refl.
    - destruct (le x y).
      + apply Permutation_refl.
      + eapply Permutation_trans.
        * apply perm_skip. exact IH.
        * apply perm_swap.
Qed.

Lemma sorted_perm (l : list A) : Permutation (sorted le l) l.
Proof.
    induction l as [|x l IH]; simpl.
    - apply perm_nil.
    - eapply Permutation_trans.
      + apply insert_sorted_perm.
      + apply perm_skip. exact IH.
Qed.

Hypothesis le_total : forall a b, le a b = true \/ le b a = true.
Hypothesis le_trans :
    forall a b c, le a b = true -> le b c = true -> le a c = true.

Lemma insert_sorted_strongly (x : A) (l : list A) :
    StronglySorted (fun a b => le a b = true) l ->
    StronglySorted (fun a b => le a b = true) (insert_sorted le x l).
Proof.
    induction 1 as [|y l Hs IH Hy]; simpl.
    - constructor; constructor.
    - destruct (le x y) eqn:E.
      + constructor.
        * constructor; assumption.
        * constructor; [exact E|].
          eapply Forall_impl; [|exact Hy].
          intros z Hz. eapply le_trans; eassumption.
      + constructor; [exact IH|].
        assert (Hyx : le y x = true).
        { destruct (le_total x y) as [H|H]; [congruence|exact H]. }
        eapply Permutation_Forall.
        * apply Permutation_sym. apply insert_sorted_perm.
        * constructor; assumption.
Qed.

Lemma sorted_strongly (l : list A) :
    StronglySorted (fun a b => le a b = true) (sorted le l).
Proof.
    induction l as [|x l IH]; simpl.
    - constructor.
    - apply insert_sorted_strongly. exact IH.
Qed.
End SortFacts.

(* ===================================================================== *)
(** * The deterministic validator *)
(* ===================================================================== *)

Section ValidatorFacts.
Import schemas validators.

Variable fmt : Dec.Decimal -> string.
Variable tolerance : Dec.Decimal.
Variable uuid : nat -> string.

Lemma issue_length (prefix : string) (c : option check) :
    List.length (issue prefix c) = b2n (failed c).
Proof.
    destruct c as [k|]; simpl; [|reflexivity].
    destruct (valid k); reflexivity.
Qed.

Lemma status_of_spec (l : list string) :
    status_of l = spec_status (List.length l).
Proof.
    destruct l as [|a [|b l]]; reflexivity.
Qed.

Lemma unit_check_unknown_currency (c : CandidateValue) :
    mem_str (currency c) ["GBP"; "USD"; "EUR"] = false ->
    valid (_check_unit_consistency c) = false.
Proof.
    intros H. unfold _check_unit_consistency. rewrite H. reflexivity.
Qed.
End ValidatorFacts.

(* ===================================================================== *)
(** * Facts about decimals *)
(* ===================================================================== *)

Section DecimalFacts.
Import Dec.

Lemma strip_zeros_sign (fuel : nat) :
    forall c e, Z.sgn (coef (strip_zeros fuel c e)) = Z.sgn c.
Proof.
    induction fuel as [|f IH]; intros c e; cbn [strip_zeros]; [reflexivity|].
    destruct (c =? 0) eqn:E0.
    - apply Z.eqb_eq in E0. subst c. reflexivity.
    - apply Z.eqb_neq in E0.
      destruct (c mod 10 =? 0) eqn:E1; [|reflexivity].
      apply Z.eqb_eq in E1. rewrite IH.
      pose proof (Z.div_mod c 10 ltac:(lia)) as Hdm.
      rewrite E1 in Hdm.
      destruct (Z.sgn_spec c) as [[? Hc]|[[? Hc]|[? Hc]]];
        destruct (Z.sgn_spec (c / 10)) as [[? Hd]|[[? Hd]|[? Hd]]];
        rewrite Hc, Hd; lia.
Qed.

Lemma canon_sign (c e : Z) : Z.sgn (coef (canon c e)) = Z.sgn c.
Proof. apply strip_zeros_sign. Qed.

Lemma ndigits_fuel_le (fuel : nat) :
    forall n k, 1 <= k -> n < 10 ^ k -> ndigits_fuel fuel n <= k.
Proof.
    induction fuel as [|f IH]; intros n k Hk Hn; cbn [ndigits_fuel]; [lia|].
    destruct (n <? 10) eqn:E; [lia|].
    apply Z.ltb_ge in E.
    assert (Hk2 : 2 <= k).
    { destruct (Z.eq_dec k 1) as [->|]; [rewrite Z.pow_1_r in Hn; lia|lia]. }
    assert (Hn' : n / 10 < 10 ^ (k - 1)).
    { apply Z.div_lt_upper_bound; [lia|].
      replace (10 * 10 ^ (k - 1)) with (10 ^ k); [exact Hn|].
      replace k with (Z.succ (k - 1)) at 1 by lia.
      rewrite Z.pow_succ_r by lia. reflexivity. }
    specialize (IH (n / 10) (k - 1) ltac:(lia) Hn'). lia.
Qed.

  (** A coefficient with more than [k] digits is at least [10 ^ k]. *)
Lemma ndigits_large (n k : Z) : 1 <= k -> k < ndigits n -> 10 ^ k <= n.
Proof.
    intros Hk Hd.
    destruct (Z_lt_le_dec n (10 ^ k)) as [Hlt|Hle]; [|exact Hle].
    pose proof (@ndigits_fuel_le (S (Z.to_nat (Z.log2 n))) n k Hk Hlt) as H.
    unfold ndigits in Hd. lia.
Qed.

  (** Rounding to the precision keeps the sign: a non-zero value is never
      rounded to zero. *)
Lemma fix_sign (c e : Z) : Z.sgn (coef (fix_ c e)) = Z.sgn c.
Proof.
    unfold fix_.
    destruct (ndigits (Z.abs c) - prec <=? 0) eqn:Ed.
    - apply canon_sign.
    - apply Z.leb_gt in Ed. rewrite canon_sign.
      set (d := ndigits (Z.abs c) - prec) in *.
      assert (Hbig : 10 ^ d <= Z.abs c).
      { apply ndigits_large; [lia|]. unfold d, prec in *. lia. }
      assert (Hp : 0 < 10 ^ d) by (apply Z.pow_pos_nonneg; lia).
      assert (Hq : 1 <= Z.abs c / 10 ^ d).
      { apply Z.div_le_lower_bound; lia. }
      set (q := Z.abs c / 10 ^ d) in *.
      match goal with
      | |- Z.sgn (Z.sgn c * ?q') = _ => assert (Hq' : 0 < q')
      end.
      { destruct ((5 * 10 ^ (d - 1) <? Z.abs c mod 10 ^ d)
                  || ((Z.abs c mod 10 ^ d =? 5 * 10 ^ (d - 1)) && Z.odd q));
          lia. }
      rewrite Z.sgn_mul. rewrite (Z.sgn_pos _ Hq').
      rewrite Z.sgn_sgn. lia.
Qed.

Lemma sgn_zero_iff (z : Z) : Z.sgn z = 0 <-> z = 0.
Proof. split; [apply Z.sgn_null_iff|intros ->; reflexivity]. Qed.

Lemma is_zero_fix (c e : Z) : is_zero (fix_ c e) = (c =? 0).
Proof.
    unfold is_zero.
    pose proof (fix_sign c e) as H.
    destruct (c =? 0) eqn:E.
    - apply Z.eqb_eq in E. subst c. apply Z.eqb_eq.
      apply sgn_zero_iff. exact H.
    - apply Z.eqb_neq in E. apply Z.eqb_neq. intros H0.
      apply E. apply sgn_zero_iff. rewrite <- H, H0. reflexivity.
Qed.

Lemma is_zero_abs (x : Decimal) : is_zero (abs x) = is_zero x.
Proof.
    unfold abs. rewrite is_zero_fix. unfold is_zero.
    destruct (coef x =? 0) eqn:E.
    - apply Z.eqb_eq in E. rewrite E. reflexivity.
    - apply Z.eqb_neq in E. apply Z.eqb_neq. lia.
Qed.

  (** Division is defined whenever the divisor is not zero. *)
Lemma div_defined (x y : Decimal) :
    is_zero y = false -> exists q, div x y = Ok q.
Proof.
    intros Hy. unfold div. rewrite Hy.
    destruct (is_zero x); [eexists; reflexivity|].
    destruct (0 <=? _); destruct (Z.div_eucl _ _); eexists; reflexivity.
Qed.

  (** Division raises only on a zero divisor. *)
Lemma div_raises (x y : Decimal) (e : exn) :
    div x y = Raise e -> is_zero y = true.
Proof.
    intros H. destruct (is_zero y) eqn:Hy; [reflexivity|].
    destruct (@div_defined x y Hy) as [q Hq]. congruence.
Qed.

Lemma neg_nonpositive (x : Decimal) : 0 <= coef x -> coef (neg x) <= 0.
Proof.
    intros H. unfold neg.
    pose proof (fix_sign (- coef x) (dexp x)) as Hs.
    destruct (Z.sgn_spec (coef (fix_ (- coef x) (dexp x))))
      as [[? Hc]|[[? Hc]|[? Hc]]];
      destruct (Z.sgn_spec (- coef x)) as [[? Hd]|[[? Hd]|[? Hd]]]; lia.
Qed.

Lemma neg_negative (x : Decimal) : 0 < coef x -> coef (neg x) < 0.
Proof.
    intros H. unfold neg.
    pose proof (fix_sign (- coef x) (dexp x)) as Hs.
    destruct (Z.sgn_spec (coef (fix_ (- coef x) (dexp x))))
      as [[? Hc]|[[? Hc]|[? Hc]]];
      destruct (Z.sgn_spec (- coef x)) as [[? Hd]|[[? Hd]|[? Hd]]]; lia.
Qed.
End DecimalFacts.

(* ===================================================================== *)
(** * The rule checks and the status of a candidate *)
(* ===================================================================== *)

Section RuleChecks.
Import schemas validators.

Variable fmt : Dec.Decimal -> string.
Variable tolerance : Dec.Decimal.
Variable uuid : nat -> string.

  (** The range check returns: its one division has a non-zero divisor. *)
Lemma range_check_returns (c : CandidateValue) (all : list CandidateValue) :
    exists k, _check_range_bounds fmt c all = Ok k.
Proof.
    unfold _check_range_bounds.
    destruct (_find_metric all "revenue" (period_end_date c)) as [rev|];
      [|eexists; reflexivity].
    destruct (Dict.get String.eqb METRIC_BOUNDS (metric_name c))
      as [[lo hi]|]; [|eexists; reflexivity].
    destruct (Dec.is_zero (value rev)) eqn:Hz; [eexists; reflexivity|].
    destruct (div_defined (value c) (value rev) Hz) as [q Hq].
    rewrite Hq. cbn [bind].
    destruct (Dec.ltb q lo || Dec.ltb hi q); eexists; reflexivity.
Qed.

  (** The year-over-year check raises only [ValueError], from the
      construction of the date one year back. *)
Lemma yoy_check_raises (c : CandidateValue) (all : list CandidateValue)
    (e : exn) :
    _check_yoy_delta fmt c all = Raise e ->
    e = ValueError
    /\ exists d, period_end_date c = Some d
                 /\ Date.valid (Date.year d - 1) (Date.month d) (Date.day d)
                    = false.
Proof.
    unfold _check_yoy_delta.
    destruct (period_end_date c) as [d|]; [|discriminate].
    unfold Date.make.
    destruct (Date.valid (Date.year d - 1) (Date.month d) (Date.day d)) eqn:Hv.
    - cbn [bind].
      destruct (_find_metric all (metric_name c) _) as [prev|]; [|discriminate].
      destruct (Dec.is_zero (value prev)) eqn:Hz; [discriminate|].
      assert (Hz' : Dec.is_zero (Dec.abs (value prev)) = false)
        by (rewrite is_zero_abs; exact Hz).
      destruct (div_defined (Dec.sub (value c) (value prev))
                                (Dec.abs (value prev)) Hz') as [q Hq].
      rewrite Hq. cbn [bind].
      destruct (Dict.get String.eqb YOY_BOUNDS (metric_name c)) as [[lo hi]|];
        [destruct (Dec.ltb q lo || Dec.ltb hi q)|]; discriminate.
    - cbn [bind]. intros H. inversion H. split; [reflexivity|].
      exists d. split; [reflexivity|exact Hv].
Qed.

  (** A candidate is given a result unless its period end has no
      counterpart one year back (29 February, or the year 1). *)
Lemma validate_candidate_returns (n : nat) (c : CandidateValue)
    (all : list CandidateValue) :
    match period_end_date c with
    | None => True
    | Some d =>
        Date.valid (Date.year d - 1) (Date.month d) (Date.day d) = true
    end ->
    exists r, _validate_candidate fmt tolerance uuid n c all = Ok r.
Proof.
    intros Hd. unfold _validate_candidate.
    destruct (range_check_returns c all) as [k Hk]. rewrite Hk. cbn [bind].
    destruct (_check_yoy_delta fmt c all) as [y|e] eqn:Hy.
    - cbn [bind]. eexists. reflexivity.
    - exfalso. apply yoy_check_raises in Hy.
      destruct Hy as [_ [d [Hp Hv]]]. rewrite Hp in Hd. congruence.
Qed.
End RuleChecks.





(* ===================================================================== *)
(** * The adjudicator *)
(* ===================================================================== *)

Section AdjudicatorFacts.
Import schemas llm_adjudicator.

Lemma max_loop_in (rest : list CandidateValue) :
    forall best, In (max_loop best rest) (best :: rest).
Proof.
    induction rest as [|c rest IH]; intros best; cbn [max_loop].
    - left. reflexivity.
    - destruct (confidence_score best <? confidence_score c).
      + right. apply IH.
      + destruct (IH best) as [H|H]; [left; exact H|right; right; exact H].
Qed.

Lemma max_loop_ge (rest : list CandidateValue) :
    forall best,
      confidence_score best <= confidence_score (max_loop best rest)
      /\ forall c, In c rest ->
           confidence_score c <= confidence_score (max_loop best rest).
Proof.
    induction rest as [|c rest IH]; intros best; cbn [max_loop].
    - split; [lia|]. intros c [].
    - destruct (confidence_score best <? confidence_score c) eqn:E.
      + apply Z.ltb_lt in E. destruct (IH c) as [H1 H2].
        split; [lia|]. intros x [<-|Hx]; [exact H1|apply H2; exact Hx].
      + apply Z.ltb_ge in E. destruct (IH best) as [H1 H2].
        split; [exact H1|]. intros x [<-|Hx]; [lia|apply H2; exact Hx].
Qed.
End AdjudicatorFacts.



(* ===================================================================== *)
(** * Candidate scoring *)
(* ===================================================================== *)

(** The scored list is in descending order of confidence. *)
Lemma score_candidates_descending (candidates : list schemas.CandidateValue) :
  StronglySorted
    (fun a b => schemas.confidence_score b <= schemas.confidence_score a)
    (candidate_generator._score_candidates candidates).
Proof.
  unfold candidate_generator._score_candidates.
  eapply strongly_sorted_weaken.
  2: { apply sorted_strongly.
       - intros a b. unfold candidate_generator.by_confidence_desc.
         rewrite !Z.leb_le. lia.
       - intros a b c. unfold candidate_generator.by_confidence_desc.
         rewrite !Z.leb_le. lia. }
  intros a b. unfold candidate_generator.by_confidence_desc.
  rewrite Z.leb_le. auto.
Qed.

(** Each scored candidate carries the score of the loop body. *)
Lemma score_candidates_scores (candidates : list schemas.CandidateValue) :
  forall c, In c (candidate_generator._score_candidates candidates) ->
    exists c0, In c0 candidates
               /\ c = schemas.with_confidence c0 (candidate_generator.score c0).
Proof.
  intros c Hc. unfold candidate_generator._score_candidates in Hc.
  eapply Permutation_in in Hc; [|apply sorted_perm].
  apply in_map_iff in Hc. destruct Hc as [c0 [<- Hin]].
  exists c0. split; [exact Hin|reflexivity].
Qed.


(* ===================================================================== *)
(** * The merge of sections *)
(* ===================================================================== *)

Section SectionFacts.
Import schemas section_locator.

Lemma merge_loop_starts (P : Z -> Prop) (rest : list Section) :
    forall current,
      Forall (fun s => P (start_page s)) (current :: rest) ->
      Forall (fun s => P (start_page s)) (merge_loop current rest).
Proof.
    induction rest as [|next rest IH]; intros current H; cbn [merge_loop].
    - exact H.
    - inversion H as [|? ? Hc Hrest]; subst.
      inversion Hrest as [|? ? Hn Hrest']; subst.
      destruct (mergeable current next).
      + apply IH. constructor; [exact Hc|exact Hrest'].
      + constructor; [exact Hc|]. apply IH. exact Hrest.
Qed.

Lemma merge_loop_sorted (rest : list Section) :
    forall current,
      sorted_by_start (current :: rest) ->
      sorted_by_start (merge_loop current rest).
Proof.
    unfold sorted_by_start.
    induction rest as [|next rest IH]; intros current H; cbn [merge_loop].
    - exact H.
    - inversion H as [|? ? Hs Hall]; subst.
      inversion Hs as [|? ? Hs' Hall']; subst.
      inversion Hall as [|? ? Hcn Hcr]; subst.
      destruct (mergeable current next).
      + apply IH. constructor; [exact Hs'|exact Hcr].
      + constructor; [apply IH; exact Hs|].
        apply (merge_loop_starts (fun p => start_page current <= p)).
        exact Hall.
Qed.

  (** The first section out of the loop is the current one, possibly
      extended: same type, same start page. *)
Lemma merge_loop_head (rest : list Section) :
    forall current, exists h t,
      merge_loop current rest = h :: t
      /\ s_section_type h = s_section_type current
      /\ start_page h = start_page current.
Proof.
    induction rest as [|next rest IH]; intros current; cbn [merge_loop].
    - exists current, []. auto.
    - destruct (mergeable current next).
      + destruct (IH (extend current next)) as [h [t [E [Ht Hs]]]].
        exists h, t. auto.
      + exists current, (merge_loop next rest). auto.
Qed.

Lemma merge_loop_adjacent (rest : list Section) :
    forall current l1 a b l2,
      merge_loop current rest = l1 ++ a :: b :: l2 ->
      s_section_type a = s_section_type b ->
      end_page a + 1 < start_page b.
Proof.
    induction rest as [|next rest IH]; intros current l1 a b l2 E Hty;
      cbn [merge_loop] in E.
    - destruct l1 as [|x [|y l1]]; discriminate.
    - destruct (mergeable current next) eqn:Hm.
      + eapply IH; eassumption.
      + destruct l1 as [|x l1]; cbn [app] in E.
        * injection E as <- E.
          destruct (merge_loop_head rest next) as [h [t [Eh [Ht Hs]]]].
          rewrite Eh in E. injection E as <- _.
          unfold mergeable in Hm.
          rewrite Ht in Hty. rewrite Hs.
          rewrite <- Hty, String.eqb_refl in Hm. cbn [andb] in Hm.
          apply Z.leb_gt in Hm. lia.
        * injection E as _ E. eapply IH; eassumption.
Qed.

Lemma sorted_by_start_page (sections : list Section) :
    sorted_by_start (sorted by_start_page sections).
Proof.
    unfold sorted_by_start.
    eapply strongly_sorted_weaken.
    2: { apply sorted_strongly.
         - intros a b. unfold by_start_page. rewrite !Z.leb_le. lia.
         - intros a b c. unfold by_start_page. rewrite !Z.leb_le. lia. }
    intros a b. unfold by_start_page. rewrite Z.leb_le. auto.
Qed.
End SectionFacts.

(** C8, as the code has it.  After the merge the sections are sorted by
    start page, and two neighbouring sections of the same type are more
    than one page apart: the later one starts after the page that follows
    the end of the earlier one. *)
Theorem merged_sections_sorted_and_separated :
  forall sections : list schemas.Section,
    section_locator.sorted_by_start
      (section_locator._merge_sections sections)
    /\ forall l1 a b l2,
         section_locator._merge_sections sections = l1 ++ a :: b :: l2 ->
         schemas.s_section_type a = schemas.s_section_type b ->
         schemas.end_page a + 1 < schemas.start_page b.
Proof.
  intros sections. unfold section_locator._merge_sections.
  pose proof (sorted_by_start_page sections) as Hs.
  destruct (sorted section_locator.by_start_page sections) as [|current rest].
  - split; [constructor|].
    intros l1 a b l2 E. destruct l1; discriminate.
  - split; [apply merge_loop_sorted; exact Hs|].
    intros l1 a b l2. apply merge_loop_adjacent.
Qed.

(** Two notes sections on pages 1-3 and 8-9 stay apart. *)
Lemma merged_sections_sorted_and_separated_witness :
  schemas.end_page (examples.section "notes" 1 3) + 1
  < schemas.start_page (examples.section "notes" 8 9).
Proof.
  destruct (merged_sections_sorted_and_separated
              [examples.section "notes" 8 9; examples.section "notes" 1 3])
    as [_ H].
  apply (H [] (examples.section "notes" 1 3) (examples.section "notes" 8 9) []);
    reflexivity.
Defined.

(** C8 as stated fails: a section of another type starting between two
    sections of one type keeps them from being merged, and they overlap. *)
Lemma merged_sections_can_overlap :
  ~ (section_locator.same_type_disjoint
       (section_locator._merge_sections examples.interleaved_sections)
     /\ section_locator.sorted_by_start
          (section_locator._merge_sections examples.interleaved_sections)).
Proof.
  intros [H _].
  apply (H 0%nat 2%nat (examples.section "notes" 1 10)
           (examples.section "notes" 4 5)).
  - discriminate.
  - reflexivity.
  - reflexivity.
  - reflexivity.
  - unfold section_locator.overlap. cbn. lia.
Qed.

(* ===================================================================== *)
(** * Facts about ordered dictionaries *)
(* ===================================================================== *)

Section DictFacts.
Variables K V : Type.
Variable keq : K -> K -> bool.
Hypothesis keq_eq : forall a b, keq a b = true <-> a = b.

Lemma keq_refl (a : K) : keq a a = true.
Proof. apply keq_eq. reflexivity. Qed.

Lemma get_set (d : Dict.t K V) (k k' : K) (v : V) :
    Dict.get keq (Dict.set keq d k v) k'
    = if keq k k' then Some v else Dict.get keq d k'.
Proof.
    induction d as [|[k0 v0] d IH]; cbn [Dict.set Dict.get].
    - reflexivity.
    - destruct (keq k0 k) eqn:E0; cbn [Dict.get].
      + apply keq_eq in E0. subst k0.
        destruct (keq k k'); reflexivity.
      + rewrite IH. destruct (keq k0 k') eqn:E1; [|reflexivity].
        destruct (keq k k') eqn:E2; [|reflexivity].
        apply keq_eq in E1, E2. subst. rewrite keq_refl in E0. discriminate.
Qed.

Lemma keys_set (d : Dict.t K V) (k : K) (v : V) :
    Dict.keys (Dict.set keq d k v)
    = if existsb (fun k0 => keq k0 k) (Dict.keys d) then Dict.keys d
      else Dict.keys d ++ [k].
Proof.
    unfold Dict.keys.
    induction d as [|[k0 v0] d IH]; cbn [Dict.set map existsb fst].
    - reflexivity.
    - destruct (keq k0 k) eqn:E0; cbn [map fst orb].
      + reflexivity.
      + rewrite IH. destruct (existsb _ _); reflexivity.
Qed.

Lemma existsb_keq (ks : list K) (k : K) :
    existsb (fun k0 => keq k0 k) ks = true <-> In k ks.
Proof.
    rewrite existsb_exists. split.
    - intros [x [Hin Hx]]. apply keq_eq in Hx. subst. exact Hin.
    - intros Hin. exists k. split; [exact Hin|apply keq_refl].
Qed.

Lemma keys_set_nodup (d : Dict.t K V) (k : K) (v : V) :
    NoDup (Dict.keys d) -> NoDup (Dict.keys (Dict.set keq d k v)).
Proof.
    intros H. rewrite keys_set.
    destruct (existsb (fun k0 => keq k0 k) (Dict.keys d)) eqn:E; [exact H|].
    apply NoDup_app; [exact H|constructor; [intros []|constructor]|].
    intros x Hx [<-|[]].
    apply existsb_keq in Hx. congruence.
Qed.

Lemma get_not_in (d : Dict.t K V) (k : K) :
    ~ In k (Dict.keys d) -> Dict.get keq d k = None.
Proof.
    unfold Dict.keys.
    induction d as [|[k0 v0] d IH]; cbn [Dict.get map fst]; intros H.
    - reflexivity.
    - destruct (keq k0 k) eqn:E.
      + apply keq_eq in E. subst. exfalso. apply H. left. reflexivity.
      + apply IH. intros Hin. apply H. right. exact Hin.
Qed.
End DictFacts.

(* ===================================================================== *)
(** * The merge of tables *)
(* ===================================================================== *)

Section TableFacts.
Import schemas blockification.

Lemma Zeqb_eq' (a b : Z) : (a =? b) = true <-> a = b.
Proof. apply Z.eqb_eq. Qed.

Lemma filter_none (A : Type) (f : A -> bool) (l : list A) :
    (forall x, In x l -> f x = false) -> filter f l = [].
Proof.
    induction l as [|x l IH]; intros H; cbn [filter]; [reflexivity|].
    rewrite (H x (or_introl eq_refl)). apply IH.
    intros y Hy. apply H. right. exact Hy.
Qed.

Lemma on_set (d : pages) (k p : Z) (l : list TableBlock) :
    on (Dict.set Z.eqb d k l) p = if k =? p then l else on d p.
Proof.
    unfold on. rewrite (get_set Z _ Z.eqb Zeqb_eq').
    destruct (k =? p); reflexivity.
Qed.

Lemma on_add_camelot (d : pages) (t : TableBlock) (p : Z) :
    on (add_camelot d t) p
    = if page_number t =? p then on d p ++ [t] else on d p.
Proof.
    unfold add_camelot. rewrite on_set.
    destruct (page_number t =? p) eqn:E; [|reflexivity].
    apply Z.eqb_eq in E. subst p. reflexivity.
Qed.

Lemma on_add_pdfplumber (d : pages) (t : TableBlock) (p : Z) :
    on (add_pdfplumber d t) p = page_step p (on d p) t.
Proof.
    unfold add_pdfplumber, page_step.
    destruct (Dict.get Z.eqb d (page_number t)) as [existing|] eqn:G.
    - destruct (page_number t =? p) eqn:E.
      + apply Z.eqb_eq in E. subst p.
        assert (Ho : on d (page_number t) = existing)
          by (unfold on; rewrite G; reflexivity).
        rewrite Ho.
        destruct (existsb _ existing); [exact Ho|].
        rewrite on_set, Z.eqb_refl. reflexivity.
      + destruct (existsb _ existing); [reflexivity|].
        rewrite on_set, E. reflexivity.
    - rewrite on_set.
      destruct (page_number t =? p) eqn:E; [|reflexivity].
      apply Z.eqb_eq in E. subst p.
      unfold on. rewrite G. reflexivity.
Qed.

Lemma keys_add_camelot (d : pages) (t : TableBlock) :
    NoDup (Dict.keys d) -> NoDup (Dict.keys (add_camelot d t)).
Proof. apply (keys_set_nodup Z _ Z.eqb Zeqb_eq'). Qed.

Lemma keys_add_pdfplumber (d : pages) (t : TableBlock) :
    NoDup (Dict.keys d) -> NoDup (Dict.keys (add_pdfplumber d t)).
Proof.
    intros H. unfold add_pdfplumber.
    destruct (Dict.get Z.eqb d (page_number t)) as [existing|].
    - destruct (existsb _ existing); [exact H|].
      apply (keys_set_nodup Z _ Z.eqb Zeqb_eq'). exact H.
    - apply (keys_set_nodup Z _ Z.eqb Zeqb_eq'). exact H.
Qed.

Lemma filed_add_camelot (d : pages) (t : TableBlock) :
    filed d -> filed (add_camelot d t).
Proof.
    intros H k u Hu. rewrite on_add_camelot in Hu.
    destruct (page_number t =? k) eqn:E; [|apply H; exact Hu].
    apply Z.eqb_eq in E. apply in_app_or in Hu.
    destruct Hu as [Hu|[<-|[]]]; [apply H; exact Hu|exact E].
Qed.

Lemma filed_add_pdfplumber (d : pages) (t : TableBlock) :
    filed d -> filed (add_pdfplumber d t).
Proof.
    intros H k u Hu. rewrite on_add_pdfplumber in Hu.
    unfold page_step in Hu.
    destruct (page_number t =? k) eqn:E; [|apply H; exact Hu].
    apply Z.eqb_eq in E.
    destruct (existsb _ (on d k)); [apply H; exact Hu|].
    apply in_app_or in Hu.
    destruct Hu as [Hu|[<-|[]]]; [apply H; exact Hu|exact E].
Qed.

  (** After both loops the dictionary is consistent, its keys are distinct,
      and page [p] holds the Camelot tables of the page followed by what
      the pdfplumber tables added. *)
Lemma tables_by_page_spec (camelot pdfplumber : list TableBlock) (p : Z) :
    let d := tables_by_page camelot pdfplumber in
    filed d /\ NoDup (Dict.keys d)
    /\ on d p = fold_left (page_step p) pdfplumber (on_page p camelot).
Proof.
    unfold tables_by_page.
    assert (Hc : forall c d0,
               filed d0 -> NoDup (Dict.keys d0) ->
               let d := fold_left add_camelot c d0 in
               filed d /\ NoDup (Dict.keys d)
               /\ on d p = on d0 p ++ on_page p c).
    { induction c as [|t c IH]; intros d0 Hf Hn; cbn [fold_left on_page filter].
      - split; [exact Hf|]. split; [exact Hn|]. rewrite app_nil_r. reflexivity.
      - destruct (IH (add_camelot d0 t) (filed_add_camelot d0 t Hf)
                     (keys_add_camelot d0 t Hn)) as [H1 [H2 H3]].
        split; [exact H1|]. split; [exact H2|].
        cbv zeta in H3. rewrite H3, on_add_camelot.
        unfold on_page.
        destruct (page_number t =? p); [|reflexivity].
        rewrite <- app_assoc. reflexivity. }
    assert (Hp : forall pl d0,
               filed d0 -> NoDup (Dict.keys d0) ->
               let d := fold_left add_pdfplumber pl d0 in
               filed d /\ NoDup (Dict.keys d)
               /\ on d p = fold_left (page_step p) pl (on d0 p)).
    { induction pl as [|t pl IH]; intros d0 Hf Hn; cbn [fold_left].
      - auto.
      - destruct (IH (add_pdfplumber d0 t) (filed_add_pdfplumber d0 t Hf)
                     (keys_add_pdfplumber d0 t Hn)) as [H1 [H2 H3]].
        split; [exact H1|]. split; [exact H2|].
        cbv zeta in H3. rewrite H3, on_add_pdfplumber. reflexivity. }
    assert (Hf0 : filed []) by (intros k t []).
    assert (Hn0 : NoDup (Dict.keys ([] : pages))) by constructor.
    destruct (Hc camelot [] Hf0 Hn0) as [H1 [H2 H3]].
    destruct (Hp pdfplumber _ H1 H2) as [H4 [H5 H6]].
    cbv zeta in *. split; [exact H4|]. split; [exact H5|].
    rewrite H6, H3. reflexivity.
Qed.

Lemma on_page_other (d : pages) (p : Z) (ks : list Z) :
    filed d -> ~ In p ks -> on_page p (flat_map (on d) ks) = [].
Proof.
    intros Hf. induction ks as [|k ks IH]; intros Hp; cbn [flat_map].
    - reflexivity.
    - unfold on_page in *. rewrite filter_app, IH.
      + rewrite app_nil_r.
        assert (Hk : k <> p) by (intros ->; apply Hp; left; reflexivity).
        apply filter_none. intros u Hu.
        rewrite (Hf k u Hu). apply Z.eqb_neq. exact Hk.
      + intros Hin. apply Hp. right. exact Hin.
Qed.

Lemma filter_all (A : Type) (f : A -> bool) (l : list A) :
    (forall x, In x l -> f x = true) -> filter f l = l.
Proof.
    induction l as [|x l IH]; intros H; cbn [filter]; [reflexivity|].
    rewrite (H x (or_introl eq_refl)). f_equal. apply IH.
    intros y Hy. apply H. right. exact Hy.
Qed.

Lemma on_page_flat (d : pages) (p : Z) (ks : list Z) :
    filed d -> NoDup ks -> (~ In p ks -> on d p = []) ->
    on_page p (flat_map (on d) ks) = on d p.
Proof.
    intros Hf. induction ks as [|k ks IH]; intros Hn Hp; cbn [flat_map].
    - symmetry. apply Hp. intros [].
    - inversion Hn as [|? ? Hk Hn']; subst.
      unfold on_page. rewrite filter_app.
      destruct (Z.eq_dec k p) as [->|Hne].
      + fold (on_page p (flat_map (on d) ks)).
        rewrite (on_page_other d p ks Hf Hk), app_nil_r.
        apply filter_all. intros u Hu.
        rewrite (Hf p u Hu). apply Z.eqb_refl.
      + rewrite filter_none.
        * apply IH; [exact Hn'|].
          intros Hin. apply Hp. intros [E|E]; [exact (Hne E)|exact (Hin E)].
        * intros u Hu. rewrite (Hf k u Hu). apply Z.eqb_neq. exact Hne.
Qed.

  (** Page by page, the merged list is the Camelot tables of the page
      followed by what the pdfplumber tables add to them. *)
Lemma merged_on_page (camelot pdfplumber : list TableBlock) (p : Z) :
    on_page p (_merge_tables camelot pdfplumber)
    = fold_left (page_step p) pdfplumber (on_page p camelot).
Proof.
    unfold _merge_tables.
    destruct (tables_by_page_spec camelot pdfplumber p) as [Hf [Hn Ho]].
    cbv zeta in *. rewrite <- Ho.
    apply on_page_flat.
    - exact Hf.
    - eapply Permutation_NoDup; [|exact Hn].
      apply Permutation_sym. apply sorted_perm.
    - intros Hin. unfold on.
      rewrite (get_not_in Z _ Z.eqb Zeqb_eq'); [reflexivity|].
      intros Hk. apply Hin.
      eapply Permutation_in; [|exact Hk].
      apply Permutation_sym. apply sorted_perm.
Qed.

Lemma page_step_fold_prefix (p : Z) (pl : list TableBlock) :
    forall placed, exists kept,
      fold_left (page_step p) pl placed = placed ++ kept.
Proof.
    induction pl as [|t pl IH]; intros placed; cbn [fold_left].
    - exists []. rewrite app_nil_r. reflexivity.
    - destruct (IH (page_step p placed t)) as [kept E]. rewrite E.
      unfold page_step.
      destruct (page_number t =? p); [|exists kept; reflexivity].
      destruct (existsb _ placed); [exists kept; reflexivity|].
      exists (t :: kept). rewrite <- app_assoc. reflexivity.
Qed.

Lemma app_same_length (A : Type) (l1 l2 r1 r2 : list A) :
    l1 ++ r1 = l2 ++ r2 -> List.length l1 = List.length l2 ->
    l1 = l2 /\ r1 = r2.
Proof.
    revert l2. induction l1 as [|x l1 IH]; intros [|y l2] E Hl;
      try discriminate.
    - auto.
    - cbn [app] in E. injection E as -> E. injection Hl as Hl.
      destruct (IH l2 E Hl) as [-> ->]. auto.
Qed.

Lemma page_step_cases (p : Z) (placed : list TableBlock) (t : TableBlock) :
    page_step p placed t = placed
    \/ (existsb (fun e => _tables_similar t e) placed = false
        /\ page_step p placed t = placed ++ [t]).
Proof.
    unfold page_step.
    destruct (page_number t =? p); [|left; reflexivity].
    destruct (existsb _ placed); [left; reflexivity|right; auto].
Qed.

Lemma page_step_fold_distinct (p : Z) (pl : list TableBlock) :
    forall placed pre t post,
      fold_left (page_step p) pl placed = pre ++ t :: post ->
      (List.length placed <= List.length pre)%nat ->
      forall u, In u pre -> _tables_similar t u = false.
Proof.
    induction pl as [|t0 pl IH]; intros placed pre t post E Hl u Hu;
      cbn [fold_left] in E.
    - subst placed. rewrite length_app in Hl. cbn [List.length] in Hl. lia.
    - destruct (page_step_cases p placed t0) as [Es|[Ex Es]];
        rewrite Es in E; [eapply IH; eassumption|].
      destruct (Nat.eq_dec (List.length pre) (List.length placed)) as [El|Hn].
      + destruct (page_step_fold_prefix p pl (placed ++ [t0])) as [kept Ek].
        rewrite Ek, <- app_assoc in E. cbn [app] in E.
        destruct (app_same_length _ _ _ _ _ E (eq_sym El)) as [-> Et].
        injection Et as <- _.
        destruct (_tables_similar t0 u) eqn:Esim; [|reflexivity].
        assert (Ht : existsb (fun e => _tables_similar t0 e) pre = true).
        { apply existsb_exists. exists u. auto. }
        congruence.
      + eapply IH; [exact E| |exact Hu].
        rewrite length_app. cbn [List.length]. lia.
Qed.

  (** Tables of one page that the similarity test tells apart differ in at
      least one of the three respects. *)
Lemma not_similar_distinct (t u : TableBlock) :
    page_number t = page_number u -> _tables_similar t u = false ->
    distinct_by_test t u.
Proof.
    intros Hp. unfold _tables_similar, distinct_by_test.
    rewrite Hp, Z.eqb_refl. cbn [negb].
    destruct (2 <? Z.abs (rows t - rows u)) eqn:Er.
    { intros _. left. apply Z.ltb_lt. exact Er. }
    destruct (1 <? Z.abs (cols t - cols u)) eqn:Ec.
    { intros _. right. left. apply Z.ltb_lt. exact Ec. }
    cbn [orb]. intros H. right. right.
    intros [c [Ht [Hu Hc]]]. rewrite Ht, Hu in H.
    rewrite String.eqb_refl in H.
    destruct (String.eqb_spec c EmptyString) as [E|E]; [exact (Hc E)|].
    discriminate.
Qed.
End TableFacts.

(** C7, as the code has it.  On every page the merged output lists the
    Camelot tables of the page first, all of them, and each table after
    them passes the test (row delta > 2, column delta > 1, or first-cell
    mismatch) against every table that precedes it on the page. *)
Theorem merged_tables_distinct_from_earlier :
  forall (camelot_tables pdfplumber_tables : list schemas.TableBlock) (p : Z),
    let merged :=
      blockification.on_page p
        (blockification._merge_tables camelot_tables pdfplumber_tables) in
    let from_camelot := blockification.on_page p camelot_tables in
    (exists kept, merged = from_camelot ++ kept)
    /\ forall pre t post,
         merged = pre ++ t :: post ->
         (List.length from_camelot <= List.length pre)%nat ->
         forall u, In u pre -> blockification.distinct_by_test t u.
Proof.
  intros c pl p merged from_camelot.
  unfold merged, from_camelot. rewrite merged_on_page.
  split; [apply page_step_fold_prefix|].
  intros pre t post E Hl u Hu.
  assert (Hall : forall x, In x (pre ++ t :: post) ->
                           schemas.page_number x = p).
  { rewrite <- E. intros x Hx.
    rewrite <- merged_on_page in Hx.
    unfold blockification.on_page in Hx. apply filter_In in Hx.
    apply Z.eqb_eq. apply Hx. }
  apply not_similar_distinct.
  - rewrite (Hall t), (Hall u); [reflexivity| |];
      apply in_or_app; [left; exact Hu|right; left; reflexivity].
  - eapply page_step_fold_distinct; eassumption.
Qed.

(** The costs table that pdfplumber finds on page 7 passes the test against
    the revenue table that Camelot found there. *)
Lemma merged_tables_distinct_from_earlier_witness :
  blockification.distinct_by_test examples.costs_table
    (examples.revenue_table "lattice_0").
Proof.
  destruct (merged_tables_distinct_from_earlier
              [examples.revenue_table "lattice_0"] [examples.costs_table] 7)
    as [_ H].
  apply (H [examples.revenue_table "lattice_0"] examples.costs_table []).
  - reflexivity.
  - cbn. lia.
  - left. reflexivity.
Defined.

(** C7 as stated fails: Camelot tables are placed without the test, so the
    same table found twice by Camelot stays twice in the output. *)
Lemma merged_tables_can_repeat :
  ~ blockification.dedup_closed
      (blockification._merge_tables examples.camelot_twice []).
Proof.
  intros H.
  destruct (H 0%nat 1%nat (examples.revenue_table "lattice_0")
              (examples.revenue_table "stream_0"))
    as [Hr|[Hc|Hf]].
  - discriminate.
  - reflexivity.
  - reflexivity.
  - reflexivity.
  - vm_compute in Hr. discriminate.
  - vm_compute in Hc. discriminate.
  - apply Hf. exists "Revenue". repeat split. discriminate.
Qed.

(* ===================================================================== *)
(** * Facts about text and regular expressions *)
(* ===================================================================== *)

Section TextFacts.
Lemma append_assoc (a b c : string) :
    ((a ++ b) ++ c)%string = (a ++ (b ++ c))%string.
Proof.
    induction a as [|x a IH]; cbn [append]; [reflexivity|].
    rewrite IH. reflexivity.
Qed.

Lemma append_nil_r (a : string) : (a ++ "")%string = a.
Proof.
    induction a as [|x a IH]; cbn [append]; [reflexivity|].
    rewrite IH. reflexivity.
Qed.

Lemma take_drop (n : nat) (s : string) :
    (Text.take n s ++ Text.drop n s)%string = s.
Proof.
    revert s. induction n as [|n IH]; intros [|c s];
      cbn [Text.take Text.drop append]; try reflexivity.
    rewrite IH. reflexivity.
Qed.

Lemma forallb_append (p : ascii -> bool) (a b : string) :
    Text.forallb p (a ++ b)%string = Text.forallb p a && Text.forallb p b.
Proof.
    induction a as [|x a IH]; cbn [append Text.forallb]; [reflexivity|].
    rewrite IH. apply andb_assoc.
Qed.

Lemma has_char_append (c : ascii) (a b : string) :
    Text.has_char c (a ++ b)%string = Text.has_char c a || Text.has_char c b.
Proof.
    induction a as [|x a IH]; cbn [append Text.has_char]; [reflexivity|].
    rewrite IH. apply orb_assoc.
Qed.

Lemma span_forallb (p : ascii -> bool) (s : string) :
    forall hi k, (k <= Re.span p hi s)%nat ->
                 Text.forallb p (Text.take k s) = true.
Proof.
    induction s as [|c s IH]; intros hi k Hk.
    - destruct k; reflexivity.
    - destruct k as [|k]; [reflexivity|].
      cbn [Text.take Text.forallb].
      destruct hi as [[|h]|]; cbn [Re.span] in Hk; try lia;
        destruct (p c) eqn:Ec; try lia; cbn [andb];
        eapply IH; apply le_S_n; exact Hk.
Qed.

Lemma counts_le (lo n k : nat) (greedy : bool) :
    In k (Re.counts lo n greedy) -> (k <= n)%nat.
Proof.
    unfold Re.counts. destruct (n <? lo)%nat eqn:E; [intros []|].
    apply Nat.ltb_ge in E. intros H.
    assert (Hs : In k (seq lo (S n - lo))).
    { destruct greedy; [apply in_rev|]; exact H. }
    apply in_seq in Hs. lia.
Qed.
End TextFacts.

Section RegexFacts.
Import Re.

  (** Every hit of [run] splits the subject and is a match. *)
Lemma run_sound (icase : bool) (r : regex) :
    forall s w g rest,
      In (w, g, rest) (run icase r s) ->
      s = (w ++ rest)%string /\ matches icase r w g.
Proof.
    induction r as [|c|p|r1 IH1 r2 IH2|r1 IH1 r2 IH2|p lo hi gr| |r IH];
      intros s w g rest H; cbn [run matches] in *.
    - destruct H as [H|[]]. injection H as <- <- <-. auto.
    - destruct s as [|x s]; [destruct H|].
      destruct (char_eq icase c x) eqn:E; [|destruct H].
      destruct H as [H|[]]. injection H as <- <- <-.
      split; [reflexivity|]. exists x. auto.
    - destruct s as [|x s]; [destruct H|].
      destruct (p x) eqn:E; [|destruct H].
      destruct H as [H|[]]. injection H as <- <- <-.
      split; [reflexivity|]. exists x. auto.
    - apply in_flat_map in H. destruct H as [[[w1 g1] s1] [H1 H2]].
      apply in_map_iff in H2. destruct H2 as [[[w2 g2] s2] [E H2]].
      injection E as <- <- <-.
      destruct (IH1 _ _ _ _ H1) as [E1 M1].
      destruct (IH2 _ _ _ _ H2) as [E2 M2].
      split.
      + rewrite E1, E2. symmetry. apply append_assoc.
      + exists w1, w2, g1, g2. auto.
    - apply in_app_or in H. destruct H as [H|H];
        apply in_map_iff in H; destruct H as [[[w' g'] s'] [E H]];
        injection E as <- <- <-.
      + destruct (IH1 _ _ _ _ H) as [E1 M1].
        split; [exact E1|]. left. exists g'. auto.
      + destruct (IH2 _ _ _ _ H) as [E2 M2].
        split; [exact E2|]. right. exists g'. auto.
    - apply in_map_iff in H. destruct H as [k [E H]].
      injection E as <- <- <-.
      split; [symmetry; apply take_drop|].
      split; [|reflexivity].
      eapply span_forallb. eapply counts_le. exact H.
    - destruct s as [|x s].
      + destruct H as [H|[]]. injection H as <- <- <-. auto.
      + destruct (Text.isword x); [destruct H|].
        destruct H as [H|[]]. injection H as <- <- <-. auto.
    - apply in_map_iff in H. destruct H as [[[w' g'] s'] [E H]].
      injection E as <- <- <-.
      destruct (IH _ _ _ _ H) as [E1 M1].
      split; [exact E1|]. exists g'. auto.
Qed.

Lemma search_from_sound (icase : bool) (r : regex) (s : string) :
    forall before m,
      search_from icase r before s = Some m ->
      matches icase r (matched m) (groups m)
      /\ exists pre rest, s = (pre ++ matched m ++ rest)%string.
Proof.
    induction s as [|c s IH]; intros before m H; cbn [search_from] in H.
    - destruct (run icase r "") as [|h l] eqn:E; [discriminate|].
      injection H as <-.
      destruct h as [[w g] rest].
      destruct (run_sound icase r "" w g rest) as [E1 M].
      { rewrite E. left. reflexivity. }
      split; [exact M|]. exists "", rest. exact E1.
    - destruct (run icase r (String c s)) as [|h l] eqn:E.
      + destruct (IH _ _ H) as [M [pre [rest Es]]].
        split; [exact M|]. exists (String c pre), rest.
        cbn [append]. rewrite Es. reflexivity.
      + injection H as <-.
        destruct h as [[w g] rest].
        destruct (run_sound icase r (String c s) w g rest) as [E1 M].
        { rewrite E. left. reflexivity. }
        split; [exact M|]. exists "", rest. exact E1.
Qed.

  (** What [re.search] returns is a match inside the subject. *)
Lemma search_sound (icase : bool) (r : regex) (s : string)
    (m : string * hit) :
    search icase r s = Some m ->
    matches icase r (matched m) (groups m)
    /\ exists pre rest, s = (pre ++ matched m ++ rest)%string.
Proof. apply search_from_sound. Qed.

Lemma matches_ngroups (icase : bool) (r : regex) :
    forall w g, matches icase r w g -> List.length g = ngroups r.
Proof.
    induction r as [|c|p|r1 IH1 r2 IH2|r1 IH1 r2 IH2|p lo hi gr| |r IH];
      intros w g M; cbn [matches ngroups] in *.
    - destruct M as [_ ->]. reflexivity.
    - destruct M as [x [_ [_ ->]]]. reflexivity.
    - destruct M as [x [_ [_ ->]]]. reflexivity.
    - destruct M as [w1 [w2 [g1 [g2 [_ [-> [M1 M2]]]]]]].
      rewrite length_app, (IH1 _ _ M1), (IH2 _ _ M2). reflexivity.
    - destruct M as [[g1 [M1 ->]]|[g2 [M2 ->]]];
        rewrite length_app; unfold nones; rewrite repeat_length.
      + rewrite (IH1 _ _ M1). reflexivity.
      + rewrite (IH2 _ _ M2). reflexivity.
    - destruct M as [_ ->]. reflexivity.
    - destruct M as [_ ->]. reflexivity.
    - destruct M as [g' [M ->]]. cbn [List.length].
      rewrite (IH _ _ M). reflexivity.
Qed.
End RegexFacts.

(* ===================================================================== *)
(** * The label standardizer *)
(* ===================================================================== *)

Section LabelFacts.
Import periods.

Lemma get_in_values (d : Dict.t string string) (k v : string) :
    Dict.get String.eqb d k = Some v -> In v (Dict.values d).
Proof.
    unfold Dict.values.
    induction d as [|[k0 v0] d IH]; cbn [Dict.get map snd]; [discriminate|].
    destruct (String.eqb k0 k).
    - intros H. injection H as <-. left. reflexivity.
    - intros H. right. apply IH. exact H.
Qed.

Lemma fuzzy_loop_in_keys (l : string) (labels : Dict.t string (list string)) :
    forall s, fuzzy_loop l labels = Some s -> In s (Dict.keys labels).
Proof.
    unfold Dict.keys.
    induction labels as [|[k vs] labels IH]; intros s; cbn [fuzzy_loop map fst];
      [discriminate|].
    destruct (first_variation l vs).
    - intros H. injection H as <-. left. reflexivity.
    - intros H. right. apply IH. exact H.
Qed.

Lemma truthy_some (o : option string) (s : string) :
    truthy o = Some s -> o = Some s.
Proof. destruct o as [[|c x]|]; cbn [truthy]; congruence. Qed.

Lemma reverse_map_values :
    forall v, In v (Dict.values (reverse_map init)) ->
              In v (Dict.keys STANDARD_LABELS).
Proof.
    assert (H : forallb (fun v => existsb (String.eqb v)
                                          (Dict.keys STANDARD_LABELS))
                        (Dict.values (reverse_map init)) = true)
      by (vm_compute; reflexivity).
    intros v Hv. rewrite forallb_forall in H. specialize (H v Hv).
    apply existsb_exists in H. destruct H as [k [Hk E]].
    apply String.eqb_eq in E. subst. exact Hk.
Qed.

  (** The standardizer returns a canonical label or its argument. *)
Lemma standardize_label_cases (label : string) :
    standardize_label init label = label
    \/ In (standardize_label init label) (Dict.keys STANDARD_LABELS).
Proof.
    unfold standardize_label.
    destruct (truthy (Dict.get String.eqb (reverse_map init)
                               (clean_label label))) as [s|] eqn:E.
    - right. apply reverse_map_values.
      eapply get_in_values. apply truthy_some. exact E.
    - destruct (truthy (_fuzzy_match init (clean_label label))) as [s|] eqn:F.
      + right. apply truthy_some in F.
        apply (fuzzy_loop_in_keys _ _ _ F).
      + left. reflexivity.
Qed.
End LabelFacts.

(** C4, as the code has it.  Standardizing twice is standardizing once for
    every input whose standardized label is not one of [current_assets],
    [non_current_assets], [current_liabilities], [non_current_liabilities];
    an input that matches no variant is returned as it was given. *)
Theorem standardize_label_idempotent_outside_absorbed :
  forall label : string,
    ~ In (periods.standardize_label periods.init label)
         periods.absorbed_labels ->
    periods.standardize_label periods.init
      (periods.standardize_label periods.init label)
    = periods.standardize_label periods.init label.
Proof.
  intros label Hn.
  destruct (standardize_label_cases label) as [E|Hin].
  - rewrite E. exact E.
  - cbn [periods.STANDARD_LABELS Dict.keys map fst] in Hin.
    repeat (destruct Hin as [E|Hin];
            [rewrite <- E in Hn |- *;
             first [ vm_compute; reflexivity
                   | exfalso; apply Hn; vm_compute; tauto ]
            |]).
    destruct Hin.
Qed.

(** The labels of scenario S6 are fixed points of a second pass. *)
Lemma standardize_label_idempotent_outside_absorbed_witness :
  periods.standardize_label periods.init
    (periods.standardize_label periods.init "Net Sales")
  = periods.standardize_label periods.init "Net Sales".
Proof.
  apply standardize_label_idempotent_outside_absorbed.
  vm_compute. intros H.
  repeat (destruct H as [H|H]; [discriminate H|]). exact H.
Defined.

(** C4 as stated fails: "current assets" is standardized to
    [current_assets], whose own text contains the variant "assets" of
    [total_assets]. *)
Lemma standardize_label_not_idempotent :
  periods.standardize_label periods.init
    (periods.standardize_label periods.init "current assets")
  <> periods.standardize_label periods.init "current assets".
Proof. vm_compute. discriminate. Qed.

(* ===================================================================== *)
(** * The period parser *)
(* ===================================================================== *)

Section PeriodFacts.
Import periods.

Lemma make_ok (y m d : Z) (dt : Date.date) :
    Date.make y m d = Ok dt -> dt = Date.mk y m d /\ 1 <= y <= 9999.
Proof.
    unfold Date.make, Date.valid.
    destruct (1 <=? y) eqn:E1; cbn [andb]; [|discriminate].
    destruct (y <=? 9999) eqn:E2; cbn [andb]; [|discriminate].
    apply Z.leb_le in E1, E2.
    destruct (_ && _); [|discriminate].
    intros H. injection H as <-. split; [reflexivity|lia].
Qed.

  (** A result of the pattern loop comes from the body, run on the groups
      of a match of one of the patterns. *)
Lemma first_pattern_inv (A : Type) (patterns : list Re.regex)
    (body : list (option string) -> result (option A)) (label : string)
    (a : A) :
    first_pattern patterns body label = Ok (Some a) ->
    exists r m, In r patterns /\ Re.search true r label = Some m
                /\ body (Re.groups m) = Ok (Some a).
Proof.
    induction patterns as [|r rest IH]; cbn [first_pattern]; [discriminate|].
    destruct (Re.search true r label) as [m|] eqn:Es.
    - destruct (body (Re.groups m)) as [[x|]|e] eqn:Eb; cbn [bind].
      + intros H. injection H as <-. exists r, m.
        split; [left; reflexivity|auto].
      + intros H. destruct (IH H) as [r' [m' [Hin Hr]]].
        exists r', m'. split; [right; exact Hin|exact Hr].
      + discriminate.
    - intros H. destruct (IH H) as [r' [m' [Hin Hr]]].
      exists r', m'. split; [right; exact Hin|exact Hr].
Qed.

Lemma month_of_range (word : string) (m : Z) :
    month_of word = Some m -> 1 <= m <= 12.
Proof.
    unfold month_of.
    generalize (Text.take 3 (Text.lower word)). intros k.
    assert (H : forall d : Dict.t string Z,
               Forall (fun kv => 1 <= snd kv <= 12) d ->
               Dict.get String.eqb d k = Some m -> 1 <= m <= 12).
    { induction d as [|[k0 v0] d IH]; cbn [Dict.get]; [discriminate|].
      intros Hf. inversion Hf as [|? ? H0 Hf']; subst.
      destruct (String.eqb k0 k).
      - intros E. injection E as <-. exact H0.
      - apply IH. exact Hf'. }
    apply H. unfold MONTH_MAP.
    repeat (constructor; [cbn [snd]; lia|]). constructor.
Qed.

Lemma quarter_item_range (q : Z) (v : Z * Z) :
    item quarter_starts q = Ok v -> 1 <= q <= 4.
Proof.
    unfold item, quarter_starts. cbn [Dict.get].
    destruct (Z.eqb_spec 1 q); [lia|].
    destruct (Z.eqb_spec 2 q); [lia|].
    destruct (Z.eqb_spec 3 q); [lia|].
    destruct (Z.eqb_spec 4 q); [lia|].
    discriminate.
Qed.

Lemma parse_fiscal_year_wf (label : string) (p : PeriodInfo) :
    _parse_fiscal_year label = Ok (Some p) ->
    p_type p = fiscal_year_t /\ well_formed p.
Proof.
    unfold _parse_fiscal_year. intros H.
    apply first_pattern_inv in H. destruct H as [r [m [_ [_ H]]]].
    destruct (Re.groups m) as [|[g0|] [|[g1|] [|[g2|] [|? ?]]]];
      try discriminate H.
    - step_binds H. injection H as <-.
      apply make_ok in E. unfold well_formed. cbn. intuition lia.
    - step_binds H. injection H as <-.
      apply make_ok in E. unfold well_formed. cbn. intuition lia.
    - step_binds H. injection H as <-.
      apply make_ok in E0. unfold well_formed. cbn. intuition lia.
Qed.

Lemma parse_quarter_wf (label : string) (p : PeriodInfo) :
    _parse_quarter label = Ok (Some p) ->
    p_type p = quarter_t /\ well_formed p.
Proof.
    unfold _parse_quarter. intros H.
    apply first_pattern_inv in H. destruct H as [r [m [_ [_ H]]]].
    destruct (Re.groups m) as [|[g0|] [|[g1|] [|[g2|] [|? ?]]]];
      try discriminate H.
    - step_binds H. injection H as <-.
      apply quarter_item_range in E0. apply make_ok in E3.
      unfold well_formed. cbn. split; [reflexivity|].
      split; [lia|]. split; [reflexivity|].
      eexists. split; [reflexivity|lia].
    - step_binds H. injection H as <-.
      apply make_ok in E0. apply month_of_range in E.
      unfold well_formed. cbn. split; [reflexivity|].
      split; [lia|]. split; [reflexivity|].
      eexists. split; [reflexivity|].
      assert (0 <= (z - 1) / 3) by (apply Z.div_pos; lia).
      assert ((z - 1) / 3 < 4) by (apply Z.div_lt_upper_bound; lia).
      lia.
Qed.

  (** The first group of a match of the pattern [H<n> <year>] is one
      decimal digit. *)
Lemma half_pattern_digit (w g0 g1 : string) :
    Re.matches true (nth 0 HALF_YEAR_PATTERNS Re.Eps) w [Some g0; Some g1] ->
    exists x, g0 = String x "" /\ Text.isdecimal x = true.
Proof.
    cbn [nth HALF_YEAR_PATTERNS Re.seqs Re.alts Re.lit Re.opt Re.ws d1 d4
         Re.star Re.times Re.digit Re.matches Re.ngroups Re.nones repeat
         Nat.add].
    intros M. break_all; subst;
      cbn [app] in *;
      match goal with
      | H : _ :: _ = _ :: _ |- _ => injection H as -> ->
      end;
      eexists; split; try reflexivity; assumption.
Qed.

Lemma int_digit (x : ascii) :
    Text.isdecimal x = true -> 0 <= Text.int (String x "") <= 9.
Proof.
    unfold Text.isdecimal, Text.in_range, Text.int. cbn [Text.int_acc].
    unfold Text.digit_val. intros H.
    apply andb_true_iff in H. destruct H as [H1 H2].
    apply Z.leb_le in H1, H2. lia.
Qed.

Lemma parse_half_year_wf (label : string) (p : PeriodInfo) :
    _parse_half_year label = Ok (Some p) ->
    p_type p = half_year_t /\ well_formed p.
Proof.
    unfold _parse_half_year. intros H.
    apply first_pattern_inv in H. destruct H as [r [m [Hin [Hs H]]]].
    apply search_sound in Hs. destruct Hs as [M _].
    destruct (Re.groups m) as [|[g0|] [|[g1|] [|[g2|] [|? ?]]]] eqn:Eg;
      try discriminate H.
    - assert (Hd : 0 <= Text.int g0 <= 9).
      { destruct Hin as [<-|[<-|[]]].
        - apply half_pattern_digit in M. destruct M as [x [-> Hx]].
          apply int_digit. exact Hx.
        - apply matches_ngroups in M. discriminate M. }
      step_binds H. injection H as <-.
      unfold well_formed. cbn. split; [reflexivity|].
      split.
      + destruct (Text.int g0 =? 1); apply make_ok in E1; lia.
      + split; [reflexivity|]. eexists. split; [reflexivity|exact Hd].
    - step_binds H. injection H as <-.
      apply make_ok in E0.
      unfold well_formed. cbn. split; [reflexivity|].
      split; [lia|]. split; [reflexivity|].
      eexists. split; [reflexivity|]. destruct (z <=? 6); lia.
Qed.

  (** Every parsed period is well formed. *)
Lemma parse_period_label_wf (label : string) (p : PeriodInfo) :
    parse_period_label label = Ok (Some p) -> well_formed p.
Proof.
    unfold parse_period_label. intros H.
    destruct (_parse_fiscal_year (Text.strip label)) as [[x|]|] eqn:E1;
      cbn [bind] in H; [| |discriminate].
    { injection H as <-. apply (parse_fiscal_year_wf _ _ E1). }
    destruct (_parse_quarter (Text.strip label)) as [[x|]|] eqn:E2;
      cbn [bind] in H; [| |discriminate].
    { injection H as <-. apply (parse_quarter_wf _ _ E2). }
    apply (parse_half_year_wf _ _ H).
Qed.

Lemma in_range_list (P : Z -> bool) (lo n : Z) :
    forallb P (map (fun k => lo + Z.of_nat k) (seq 0 (Z.to_nat n))) = true ->
    forall y, lo <= y < lo + n -> P y = true.
Proof.
    intros H y Hy. rewrite forallb_forall in H. apply H.
    apply in_map_iff. exists (Z.to_nat (y - lo)).
    split; [lia|]. apply in_seq. lia.
Qed.

Lemma fiscal_years_reparse :
    forall y, 1000 <= y <= 9999 -> reparses_as_fiscal_year y = true.
Proof.
    intros y Hy. apply (in_range_list _ 1000 9000); [|lia].
    vm_compute. reflexivity.
Qed.

Lemma digits_print :
    forall n, 0 <= n <= 9 -> prints_as_one_digit n = true.
Proof.
    intros n Hn. apply (in_range_list _ 0 10); [|lia].
    vm_compute. reflexivity.
Qed.
End PeriodFacts.

(** C5, as the code has it.  For a label that parses with a fiscal year of
    at least 1000, the normalized label is [FY<year>], [Q<n>-<year>] or
    [H<n>-<year>] with a four-digit year and a one-digit [n]; and when the
    label parses as a fiscal year, the normalized label parses again, to
    the same period type and fiscal year (with no quarter and no half). *)
Theorem period_normal_form_and_fiscal_year_round_trip :
  forall (label : string) (p : periods.PeriodInfo),
    periods.parse_period_label label = Ok (Some p) ->
    1000 <= periods.fiscal_year p ->
    periods.normalize_period_label label = Ok (periods.normal_form p)
    /\ periods.standard_form (periods.normal_form p)
    /\ (periods.p_type p = periods.fiscal_year_t ->
        exists q,
          periods.parse_period_label (periods.normal_form p) = Ok (Some q)
          /\ periods.same_period p q).
Proof.
  intros label p H Hy.
  pose proof (parse_period_label_wf label p H) as [Hfy Hwf].
  pose proof (fiscal_years_reparse (periods.fiscal_year p) ltac:(lia)) as Hre.
  unfold periods.reparses_as_fiscal_year in Hre.
  apply andb_true_iff in Hre. destruct Hre as [Hre Hdig].
  apply andb_true_iff in Hre. destruct Hre as [Hre Hlen].
  apply Nat.eqb_eq in Hlen.
  assert (H4 : periods.four_digits (Text.str (periods.fiscal_year p)))
    by (split; assumption).
  split.
  { unfold periods.normalize_period_label. rewrite H. cbn [bind].
    unfold periods.normal_form. destruct (periods.p_type p); reflexivity. }
  split.
  { unfold periods.standard_form, periods.normal_form.
    destruct (periods.p_type p).
    - left. eexists. split; [exact H4|reflexivity].
    - right. left. destruct Hwf as [_ [q [Hq Hr]]]. rewrite Hq.
      pose proof (digits_print q ltac:(lia)) as Hd.
      unfold periods.prints_as_one_digit in Hd.
      apply andb_true_iff in Hd. destruct Hd as [Hd1 Hd2].
      apply Nat.eqb_eq in Hd1.
      exists (Text.str q), (Text.str (periods.fiscal_year p)).
      split; [split; assumption|]. split; [exact H4|reflexivity].
    - right. right. destruct Hwf as [_ [h [Hh Hr]]]. rewrite Hh.
      pose proof (digits_print h ltac:(lia)) as Hd.
      unfold periods.prints_as_one_digit in Hd.
      apply andb_true_iff in Hd. destruct Hd as [Hd1 Hd2].
      apply Nat.eqb_eq in Hd1.
      exists (Text.str h), (Text.str (periods.fiscal_year p)).
      split; [split; assumption|]. split; [exact H4|reflexivity]. }
  intros Hty. unfold periods.normal_form. rewrite Hty.
  rewrite Hty in Hwf. destruct Hwf as [Hq Hh].
  destruct (periods.parse_period_label
              ("FY" ++ Text.str (periods.fiscal_year p))) as [[q|]|];
    try discriminate Hre.
  exists q. split; [reflexivity|].
  unfold periods.same_period. rewrite Hty, Hq, Hh.
  destruct (periods.p_type q); try discriminate Hre.
  destruct (periods.quarter q); try discriminate Hre.
  destruct (periods.half q); try discriminate Hre.
  apply Z.eqb_eq in Hre. auto.
Qed.

(** "Year ended 31 December 2023" normalizes to "FY2023", which parses
    again as the fiscal year 2023. *)
Lemma period_normal_form_and_fiscal_year_round_trip_witness :
  periods.normalize_period_label "Year ended 31 December 2023" = Ok "FY2023"
  /\ exists q, periods.parse_period_label "FY2023" = Ok (Some q)
               /\ periods.fiscal_year q = 2023.
Proof.
  destruct (periods.parse_period_label "Year ended 31 December 2023")
    as [[p|]|] eqn:E; [|vm_compute in E; discriminate E..].
  destruct (period_normal_form_and_fiscal_year_round_trip _ p E)
    as [Hn [_ Hr]].
  - vm_compute in E. injection E as <-. vm_compute. discriminate.
  - vm_compute in E. injection E as <-.
    split; [exact Hn|].
    destruct (Hr eq_refl) as [q [Hq [_ [Hfy _]]]].
    exists q. split; [exact Hq|exact Hfy].
Defined.

(** C5 as stated fails: "Q1 2024" parses as the first quarter of 2024 and
    normalizes to "Q1-2024", which no pattern of the parser matches. *)
Lemma quarter_label_does_not_round_trip : ~ periods.round_trips "Q1 2024".
Proof.
  intros H. unfold periods.round_trips in H.
  destruct (periods.parse_period_label "Q1 2024") as [[p|]|] eqn:E;
    [|vm_compute in E; discriminate E..].
  destruct (H p eq_refl) as [n [q [Hn [_ [Hq _]]]]].
  vm_compute in Hn. injection Hn as <-.
  vm_compute in Hq. discriminate Hq.
Qed.

(* ===================================================================== *)
(** * The numeric value parser *)
(* ===================================================================== *)

Section NumericFacts.
Import Re candidate_generator.

Lemma forallb_weaken (p q : ascii -> bool) (s : string) :
    (forall c, p c = true -> q c = true) ->
    Text.forallb p s = true -> Text.forallb q s = true.
Proof.
    intros Hpq. induction s as [|c s IH]; cbn [Text.forallb]; [auto|].
    intros H. apply andb_true_iff in H. destruct H as [H1 H2].
    rewrite (Hpq c H1), (IH H2). reflexivity.
Qed.

Lemma digits_commas_numeral (s : string) :
    Text.forallb (fun c => Text.isdecimal c || Ascii.eqb c ",") s = true ->
    Text.forallb numeral_char s = true.
Proof.
    apply forallb_weaken. intros c Hc. unfold numeral_char.
    rewrite Hc. reflexivity.
Qed.

Lemma digits_numeral (s : string) :
    Text.forallb Text.isdecimal s = true ->
    Text.forallb numeral_char s = true.
Proof.
    apply forallb_weaken. intros c Hc. unfold numeral_char.
    rewrite Hc. reflexivity.
Qed.

  (** A match of the number pattern holds digits, commas and dots only. *)
Lemma number_chars (w : string) (g : list (option string)) :
    matches false number w g ->
    Text.forallb numeral_char w = true /\ g = [].
Proof.
    unfold number.
    cbn [matches opt plus ngroups nones repeat Nat.add].
    intros M. break_all; subst; cbn [app].
    - split; [|reflexivity].
      match goal with
      | H : char_eq false "." ?x = true |- _ =>
          cbn [char_eq] in H; apply Ascii.eqb_eq in H; subst x
      end.
      rewrite !forallb_append. cbn [Text.forallb].
      apply andb_true_iff. split; [apply digits_commas_numeral; assumption|].
      apply andb_true_iff. split; [reflexivity|].
      apply digits_numeral. assumption.
    - split; [|reflexivity].
      rewrite append_nil_r. apply digits_commas_numeral. assumption.
Qed.

  (** The first group of a match of a value pattern is such a number. *)
Lemma value_group_chars (r : regex) (w g1 : string)
    (gs : list (option string)) :
    In r VALUE_PATTERNS -> matches false r w (Some g1 :: gs) ->
    Text.forallb numeral_char g1 = true.
Proof.
    unfold VALUE_PATTERNS.
    intros [<-|[<-|[<-|[<-|[]]]]];
      unfold CURRENCY_PREFIXED, SCALE_SUFFIXED, PARENTHESIZED, PLAIN;
      cbn [matches seqs alts lit ws star ngroups nones repeat Nat.add
           euro_sign];
      intros M; break_all; subst; cbn [app] in *;
      repeat match goal with
             | H : matches false number _ _ |- _ =>
                 apply number_chars in H; destruct H as [? ->]
             end;
      cbn [app] in *;
      match goal with
      | H : _ :: _ = _ :: _ |- _ => injection H as ->
      end;
      assumption.
Qed.

Lemma replace_comma_chars (g : string) :
    Text.forallb numeral_char g = true ->
    Text.forallb digit_or_dot (Text.replace_char "," "" g) = true.
Proof.
    induction g as [|c g IH]; cbn [Text.forallb Text.replace_char];
      [reflexivity|].
    intros H. apply andb_true_iff in H. destruct H as [Hc Hg].
    destruct (Ascii.eqb c ",") eqn:E.
    - cbn [append]. apply IH. exact Hg.
    - cbn [Text.forallb]. rewrite (IH Hg), andb_true_r.
      unfold numeral_char in Hc. rewrite E, orb_false_r in Hc. exact Hc.
Qed.

Lemma int_acc_nonneg (s : string) :
    forall acc, 0 <= acc -> Text.forallb Text.isdecimal s = true ->
                0 <= Text.int_acc acc s.
Proof.
    induction s as [|c s IH]; intros acc Ha H;
      cbn [Text.int_acc Text.forallb] in *; [exact Ha|].
    apply andb_true_iff in H. destruct H as [Hc Hs].
    apply IH; [|exact Hs].
    unfold Text.isdecimal, Text.in_range in Hc.
    apply andb_true_iff in Hc. destruct Hc as [H1 H2].
    apply Z.leb_le in H1, H2. unfold Text.digit_val. lia.
Qed.

Lemma of_unsigned_nonneg (s : string) (d : Dec.Decimal) :
    Dec.of_unsigned s = Ok d -> 0 <= Dec.coef d.
Proof.
    unfold Dec.of_unsigned.
    destruct (Dec.split_dot s) as [ip fp].
    set (f := match fp with Some f => f | None => "" end).
    destruct (Text.forallb Text.isdecimal ip) eqn:E1; [|discriminate].
    destruct (Text.forallb Text.isdecimal f) eqn:E2; [|discriminate].
    cbn [andb]. destruct (negb _); [|discriminate].
    intros H. injection H as <-.
    assert (Hi : 0 <= Text.int (ip ++ f)).
    { unfold Text.int. apply int_acc_nonneg; [lia|].
      rewrite forallb_append, E1, E2. reflexivity. }
    pose proof (canon_sign (Text.int (ip ++ f))
                           (- Z.of_nat (String.length f))) as Hs.
    destruct (Z.sgn_spec (Dec.coef (Dec.canon (Text.int (ip ++ f))
                                      (- Z.of_nat (String.length f)))))
      as [[? Hc]|[[? Hc]|[? Hc]]];
      destruct (Z.sgn_spec (Text.int (ip ++ f)))
        as [[? Hd]|[[? Hd]|[? Hd]]]; lia.
Qed.

  (** The decimal read from digits and dots is not negative. *)
Lemma of_string_nonneg (s : string) (d : Dec.Decimal) :
    Text.forallb digit_or_dot s = true ->
    Dec.of_string s = Ok d -> 0 <= Dec.coef d.
Proof.
    unfold Dec.of_string. destruct s as [|c s].
    - intros _. apply of_unsigned_nonneg.
    - cbn [Text.forallb]. intros H.
      apply andb_true_iff in H. destruct H as [Hc _].
      destruct (Ascii.eqb c "-") eqn:E1.
      { apply Ascii.eqb_eq in E1. subst c. discriminate Hc. }
      destruct (Ascii.eqb c "+") eqn:E2.
      { apply Ascii.eqb_eq in E2. subst c. discriminate Hc. }
      apply of_unsigned_nonneg.
Qed.

Lemma has_char_lstrip (c : ascii) (s : string) :
    Text.isspace c = false -> Text.has_char c s = true ->
    Text.has_char c (Text.lstrip s) = true.
Proof.
    intros Hc. induction s as [|x s IH]; cbn [Text.lstrip]; [auto|].
    destruct (Text.isspace x) eqn:Ex; [|auto].
    cbn [Text.has_char].
    destruct (Ascii.eqb x c) eqn:E.
    - apply Ascii.eqb_eq in E. subst x. congruence.
    - exact IH.
Qed.

Lemma has_char_rstrip (c : ascii) (s : string) :
    Text.isspace c = false -> Text.has_char c s = true ->
    Text.has_char c (Text.rstrip s) = true.
Proof.
    intros Hc. induction s as [|x s IH]; cbn [Text.rstrip Text.has_char];
      [auto|].
    destruct (Ascii.eqb x c) eqn:E; cbn [orb].
    - intros _. apply Ascii.eqb_eq in E. subst x.
      destruct (Text.rstrip s); [rewrite Hc|];
        cbn [Text.has_char]; rewrite Ascii.eqb_refl; reflexivity.
    - intros H. specialize (IH H).
      destruct (Text.rstrip s) as [|y r]; [discriminate IH|].
      cbn [Text.has_char] in *. rewrite E. exact IH.
Qed.

Lemma has_char_strip (c : ascii) (s : string) :
    Text.isspace c = false -> Text.has_char c s = true ->
    Text.has_char c (Text.strip s) = true.
Proof.
    intros Hc H. unfold Text.strip.
    apply has_char_rstrip; [exact Hc|].
    apply has_char_lstrip; assumption.
Qed.

  (** A cell that matches the parenthesized pattern holds both
      parentheses. *)
Lemma parenthesized_has_both (cell_text : string) :
    parenthesized cell_text ->
    Text.has_char "(" cell_text = true /\ Text.has_char ")" cell_text = true.
Proof.
    unfold parenthesized, found.
    destruct (search false PARENTHESIZED cell_text) as [m|] eqn:E;
      [|discriminate].
    intros _. apply search_sound in E. destruct E as [M [pre [rest ->]]].
    revert M. generalize (matched m) (groups m). intros w g.
    unfold PARENTHESIZED.
    cbn [matches seqs ws star ngroups nones repeat Nat.add].
    intros M. break_all; subst.
    repeat match goal with
           | H : char_eq false _ ?x = true |- _ =>
               cbn [char_eq] in H; apply Ascii.eqb_eq in H; subst x
           end.
    rewrite !has_char_append. cbn [Text.has_char].
    rewrite !Ascii.eqb_refl.
    split; repeat (rewrite ?orb_true_r, ?orb_true_l; cbn [orb]);
      reflexivity.
Qed.

  (** A value out of the pattern loop is the decimal read from the first
      group of a match of one of the patterns, negated if need be. *)
Lemma try_values_inv (patterns : list regex) (is_negative : bool)
    (currency scale value_str : string) (pv : parsed_value) :
    try_values patterns is_negative currency scale value_str = Some pv ->
    exists r m g1 gs d,
      In r patterns /\ search false r value_str = Some m
      /\ groups m = Some g1 :: gs
      /\ Dec.of_string (Text.replace_char "," "" g1) = Ok d
      /\ pv = {| pv_value := if is_negative then Dec.neg d else d;
                 pv_currency := currency; pv_scale := scale |}.
Proof.
    induction patterns as [|r rest IH]; cbn [try_values]; [discriminate|].
    assert (Hrest : try_values rest is_negative currency scale value_str
                    = Some pv ->
                    exists r0 m g1 gs d,
                      In r0 (r :: rest)
                      /\ search false r0 value_str = Some m
                      /\ groups m = Some g1 :: gs
                      /\ Dec.of_string (Text.replace_char "," "" g1) = Ok d
                      /\ pv = {| pv_value := if is_negative then Dec.neg d
                                             else d;
                                 pv_currency := currency;
                                 pv_scale := scale |}).
    { intros H. destruct (IH H) as [r0 [m [g1 [gs [d [Hin Hr]]]]]].
      exists r0, m, g1, gs, d. split; [right; exact Hin|exact Hr]. }
    destruct (search false r value_str) as [m|] eqn:Es; [|exact Hrest].
    destruct (groups m) as [|[g1|] gs] eqn:Eg; try exact Hrest.
    destruct (Dec.of_string (Text.replace_char "," "" g1)) as [d|e] eqn:Ed;
      [|exact Hrest].
    intros H. injection H as <-.
    exists r, m, g1, gs, d.
    split; [left; reflexivity|]. auto.
Qed.
End NumericFacts.




(* ===================================================================== *)
(** * Year-over-year growth *)
(* ===================================================================== *)

Section KeyOrder.
Lemma code_inj (x y : ascii) : Text.code x = Text.code y -> x = y.
Proof.
    unfold Text.code. intros H. apply N2Z.inj in H.
    rewrite <- (ascii_N_embedding x), <- (ascii_N_embedding y), H.
    reflexivity.
Qed.

Lemma leb_refl (a : string) : Text.leb a a = true.
Proof.
    induction a as [|x a IH]; cbn [Text.leb]; [reflexivity|].
    rewrite Z.ltb_irrefl. exact IH.
Qed.

Lemma leb_total (a b : string) : Text.leb a b = true \/ Text.leb b a = true.
Proof.
    revert b. induction a as [|x a IH]; intros [|y b]; cbn [Text.leb]; auto.
    destruct (Z.ltb_spec (Text.code x) (Text.code y));
      destruct (Z.ltb_spec (Text.code y) (Text.code x)); auto; try lia.
Qed.

Lemma leb_trans (a b c : string) :
    Text.leb a b = true -> Text.leb b c = true -> Text.leb a c = true.
Proof.
    revert b c.
    induction a as [|x a IH]; intros [|y b] [|z c]; cbn [Text.leb]; auto;
      try discriminate.
    destruct (Z.ltb_spec (Text.code x) (Text.code y));
      destruct (Z.ltb_spec (Text.code y) (Text.code x));
      destruct (Z.ltb_spec (Text.code y) (Text.code z));
      destruct (Z.ltb_spec (Text.code z) (Text.code y));
      destruct (Z.ltb_spec (Text.code x) (Text.code z));
      destruct (Z.ltb_spec (Text.code z) (Text.code x));
      auto; try discriminate; try lia.
    apply IH.
Qed.

Lemma leb_antisym (a b : string) :
    Text.leb a b = true -> Text.leb b a = true -> a = b.
Proof.
    revert b. induction a as [|x a IH]; intros [|y b]; cbn [Text.leb]; auto;
      try discriminate.
    destruct (Z.ltb_spec (Text.code x) (Text.code y));
      destruct (Z.ltb_spec (Text.code y) (Text.code x));
      try discriminate; try lia.
    intros H1 H2. f_equal; [apply code_inj; lia|apply IH; assumption].
Qed.

Lemma year_keys_chain :
    forall y, 1000 <= y <= 9998 ->
              derived_metrics.next_year_key_follows y = true.
Proof.
    intros y Hy. apply (in_range_list _ 1000 8999); [|lia].
    vm_compute. reflexivity.
Qed.

Lemma year_keys_read_back :
    forall y, 1000 <= y <= 9999 ->
              derived_metrics.year_key_reads_back y = true.
Proof.
    intros y Hy. apply (in_range_list _ 1000 9000); [|lia].
    vm_compute. reflexivity.
Qed.

Lemma year_keys_monotone (n : nat) :
    forall y1, 1000 <= y1 -> y1 + Z.of_nat n <= 9999 ->
               Text.leb (Text.str y1) (Text.str (y1 + Z.of_nat n)) = true.
Proof.
    induction n as [|n IH]; intros y1 H1 H2.
    - rewrite Z.add_0_r. apply leb_refl.
    - eapply leb_trans.
      + apply (IH y1 H1). lia.
      + replace (y1 + Z.of_nat (S n)) with (y1 + Z.of_nat n + 1) by lia.
        apply year_keys_chain. lia.
Qed.

  (** For years of four digits the order of the keys is the order of the
      years. *)
Lemma year_keys_order (y1 y2 : Z) :
    1000 <= y1 <= 9999 -> 1000 <= y2 <= 9999 ->
    Text.leb (Text.str y1) (Text.str y2) = (y1 <=? y2).
Proof.
    intros H1 H2.
    destruct (Z.leb_spec y1 y2) as [Hle|Hlt].
    - replace y2 with (y1 + Z.of_nat (Z.to_nat (y2 - y1))) by lia.
      apply year_keys_monotone; lia.
    - destruct (Text.leb (Text.str y1) (Text.str y2)) eqn:E; [|reflexivity].
      exfalso.
      assert (Hge : Text.leb (Text.str y2) (Text.str y1) = true).
      { replace y1 with (y2 + Z.of_nat (Z.to_nat (y1 - y2))) by lia.
        apply year_keys_monotone; lia. }
      pose proof (leb_antisym _ _ E Hge) as Heq.
      pose proof (year_keys_read_back y1 H1) as R1.
      pose proof (year_keys_read_back y2 H2) as R2.
      unfold derived_metrics.year_key_reads_back in R1, R2.
      apply Z.eqb_eq in R1, R2. rewrite Heq in R1. lia.
Qed.
End KeyOrder.

Section GrowthFacts.
Import schemas derived_metrics.

Variable config : ValidationConfig.

Lemma period_loop_spec (metric_key metric_name : string)
    (by_period : Dict.t string FinancialMetric) (rest : list string) :
    forall prior_period,
      fst (period_loop config metric_key metric_name by_period prior_period
                       rest)
      = flat_map (spec_pair metric_key metric_name by_period)
                 (adjacent (prior_period :: rest)).
Proof.
    induction rest as [|current_period rest IH]; intros prior_period.
    - reflexivity.
    - cbn [period_loop].
      specialize (IH current_period).
      destruct (period_loop config metric_key metric_name by_period
                            current_period rest) as [ms ws].
      cbn [fst] in IH.
      change (adjacent (prior_period :: current_period :: rest))
        with ((prior_period, current_period)
                :: adjacent (current_period :: rest)).
      cbn [flat_map]. rewrite <- IH.
      unfold spec_pair at 1. cbn [fst snd].
      destruct (Dict.get String.eqb by_period current_period) as [cur|];
        destruct (Dict.get String.eqb by_period prior_period) as [prior|];
        try reflexivity.
      unfold _calculate_growth_rate, growth_quotient.
      destruct (Dec.is_zero (m_value prior)); [reflexivity|].
      destruct (Dec.div (Dec.sub (m_value cur) (m_value prior))
                        (Dec.abs (m_value prior))); reflexivity.
Qed.

Lemma target_loop_spec (d : metrics_dict) (targets : list (string * string)) :
    fst (target_loop config targets d)
    = flat_map
        (fun target : string * string =>
           match Dict.get String.eqb d (fst target) with
           | None => []
           | Some by_period =>
               flat_map (spec_pair (fst target) (snd target) by_period)
                        (adjacent (sorted Text.leb (Dict.keys by_period)))
           end)
        targets.
Proof.
    induction targets as [|[metric_key metric_name] targets IH].
    - reflexivity.
    - cbn [target_loop flat_map fst snd].
      destruct (target_loop config targets d) as [ms' ws'].
      cbn [fst] in IH. rewrite <- IH.
      destruct (Dict.get String.eqb d metric_key) as [by_period|];
        [|reflexivity].
      destruct (sorted Text.leb (Dict.keys by_period)) as [|first periods].
      + reflexivity.
      + pose proof (period_loop_spec metric_key metric_name by_period
                                     periods first) as Hp.
        destruct (period_loop config metric_key metric_name by_period first
                              periods) as [ms ws].
        cbn [fst] in Hp |- *. rewrite Hp. reflexivity.
Qed.
End GrowthFacts.


(* ===================================================================== *)
(** * More on the section locator *)
(* ===================================================================== *)

Section LocatorFacts.
Import schemas section_locator.

  (** A list that is already in order is left as it is by [sorted]. *)
Lemma sorted_fixed (A : Type) (le : A -> A -> bool) (l : list A) :
    StronglySorted (fun a b => le a b = true) l -> sorted le l = l.
Proof.
    induction 1 as [|x l Hs IH Hx]; cbn [sorted]; [reflexivity|].
    rewrite IH. destruct l as [|y l]; cbn [insert_sorted]; [reflexivity|].
    inversion Hx as [|? ? Hxy _]; subst. rewrite Hxy. reflexivity.
Qed.

Lemma sorted_by_start_leb (l : list Section) :
    sorted_by_start l ->
    StronglySorted (fun a b => by_start_page a b = true) l.
Proof.
    apply strongly_sorted_weaken. intros a b H.
    unfold by_start_page. apply Z.leb_le. exact H.
Qed.

Lemma covers_perm (l l' : list Section) (ty : string) (p : Z) :
    Permutation l l' -> covers l ty p -> covers l' ty p.
Proof.
    intros Hp [s [Hin H]]. exists s. split; [|exact H].
    eapply Permutation_in; eassumption.
Qed.

Lemma covers_cons (s : Section) (l : list Section) (ty : string) (p : Z) :
    covers (s :: l) ty p
    <-> (s_section_type s = ty /\ start_page s <= p <= end_page s)
        \/ covers l ty p.
Proof.
    unfold covers. split.
    - intros [x [[<-|Hin] H]]; [left; exact H|right; exists x; auto].
    - intros [H|[x [Hin H]]]; [exists s|exists x]; cbn [In]; auto.
Qed.

  (** An extended section covers what the two sections covered. *)
Lemma extend_covers (current next : Section) (ty : string) (p : Z) :
    mergeable current next = true ->
    start_page current <= start_page next ->
    (s_section_type (extend current next) = ty
     /\ start_page (extend current next) <= p <= end_page (extend current next))
    <-> (s_section_type current = ty
         /\ start_page current <= p <= end_page current)
        \/ (s_section_type next = ty
            /\ start_page next <= p <= end_page next).
Proof.
    unfold mergeable. intros Hm Hs.
    apply andb_prop in Hm. destruct Hm as [Ht Hn].
    apply String.eqb_eq in Ht. apply Z.leb_le in Hn.
    cbn [extend s_section_type start_page end_page]. rewrite Ht. split.
    - intros [E [H1 H2]].
      destruct (Z_le_gt_dec p (end_page current)) as [Hle|Hgt].
      + left. auto.
      + right. split; [exact E|]. lia.
    - intros [[E H]|[E H]]; (split; [exact E|lia]).
Qed.

Lemma merge_loop_covers (ty : string) (p : Z) (rest : list Section) :
    forall current,
      sorted_by_start (current :: rest) ->
      (covers (merge_loop current rest) ty p
       <-> covers (current :: rest) ty p).
Proof.
    unfold sorted_by_start.
    induction rest as [|next rest IH]; intros current H; cbn [merge_loop].
    - reflexivity.
    - inversion H as [|? ? Hs Hall]; subst.
      inversion Hs as [|? ? Hs' Hall']; subst.
      inversion Hall as [|? ? Hcn Hcr]; subst.
      destruct (mergeable current next) eqn:Hm.
      + rewrite IH.
        * rewrite !covers_cons. rewrite (extend_covers _ _ _ _ Hm Hcn).
          tauto.
        * constructor; [exact Hs'|exact Hcr].
      + rewrite covers_cons, (IH next Hs). symmetry.
        exact (covers_cons current (next :: rest) ty p).
Qed.

  (** Without a pair of neighbours to merge the loop returns its input. *)
Lemma merge_loop_fixed (rest : list Section) :
    forall current,
      (forall l1 a b l2,
          current :: rest = l1 ++ a :: b :: l2 ->
          s_section_type a = s_section_type b ->
          end_page a + 1 < start_page b) ->
      merge_loop current rest = current :: rest.
Proof.
    induction rest as [|next rest IH]; intros current H; cbn [merge_loop].
    - reflexivity.
    - assert (Hm : mergeable current next = false).
      { unfold mergeable.
        destruct (String.eqb_spec (s_section_type next)
                                  (s_section_type current)) as [E|E];
          [|reflexivity].
        cbn [andb]. apply Z.leb_gt.
        specialize (H [] current next rest eq_refl (eq_sym E)). lia. }
      rewrite Hm. f_equal. apply IH.
      intros l1 a b l2 E. apply (H (current :: l1) a b l2). cbn [app].
      rewrite E.
      reflexivity.
Qed.

Lemma merge_loop_types (ty : string) (rest : list Section) :
    forall current,
      found_type (merge_loop current rest) ty
      = found_type (current :: rest) ty.
Proof.
    unfold found_type.
    induction rest as [|next rest IH]; intros current; cbn [merge_loop].
    - reflexivity.
    - destruct (mergeable current next) eqn:Hm.
      + rewrite IH. cbn [existsb extend s_section_type].
        unfold mergeable in Hm. apply andb_prop in Hm.
        destruct Hm as [Ht _]. apply String.eqb_eq in Ht. rewrite Ht.
        destruct (String.eqb (s_section_type current) ty); reflexivity.
      + cbn [existsb]. rewrite IH. reflexivity.
Qed.

Lemma found_type_perm (l l' : list Section) (ty : string) :
    Permutation l l' -> found_type l ty = found_type l' ty.
Proof.
    intros Hp. unfold found_type.
    destruct (existsb _ l) eqn:E; symmetry.
    - apply existsb_exists in E. destruct E as [x [Hin Hx]].
      apply existsb_exists. exists x. split; [|exact Hx].
      eapply Permutation_in; eassumption.
    - destruct (existsb _ l') eqn:E'; [|reflexivity].
      apply existsb_exists in E'. destruct E' as [x [Hin Hx]].
      assert (Ht : existsb (fun x0 => String.eqb (s_section_type x0) ty) l
                   = true).
      { apply existsb_exists. exists x. split; [|exact Hx].
        eapply Permutation_in; [apply Permutation_sym|]; eassumption. }
      congruence.
Qed.

Lemma found_type_merge (l : list Section) (ty : string) :
    found_type (_merge_sections l) ty = found_type l ty.
Proof.
    unfold _merge_sections.
    rewrite (found_type_perm l (sorted by_start_page l) ty)
      by (apply Permutation_sym; apply sorted_perm).
    destruct (sorted by_start_page l) as [|current rest]; [reflexivity|].
    apply merge_loop_types.
Qed.

Variable is_section_header : string -> bool.
Variable match_section_type : string -> list string.

  (** The candidates start on pages of the blocks, in the order of the
      blocks. *)
Lemma scan_pages (P : Z -> Prop) (text_blocks : list TextBlock) :
    forall idx,
      Forall (fun b => P (b_page_number b)) text_blocks ->
      Forall (fun c => P (c_start_page c))
             (scan is_section_header match_section_type idx text_blocks).
Proof.
    induction text_blocks as [|block rest IH]; intros idx H; cbn [scan].
    - constructor.
    - inversion H as [|? ? Hb Hrest]; subst.
      destruct (is_section_header (text block)); [|apply IH; exact Hrest].
      destruct (match_section_type (text block)); [apply IH; exact Hrest|].
      constructor; [exact Hb|apply IH; exact Hrest].
Qed.

Lemma scan_sorted (text_blocks : list TextBlock) :
    forall idx,
      page_ordered text_blocks ->
      StronglySorted (fun a b => c_start_page a <= c_start_page b)
                     (scan is_section_header match_section_type idx
                           text_blocks).
Proof.
    unfold page_ordered.
    induction text_blocks as [|block rest IH]; intros idx H; cbn [scan].
    - constructor.
    - inversion H as [|? ? Hs Hall]; subst.
      destruct (is_section_header (text block)); [|apply IH; exact Hs].
      destruct (match_section_type (text block)); [apply IH; exact Hs|].
      constructor; [apply IH; exact Hs|].
      apply (scan_pages (fun p => b_page_number block <= p)). exact Hall.
Qed.

Lemma last_page_bound (text_blocks : list TextBlock) :
    page_ordered text_blocks ->
    forall p,
      In p (map b_page_number text_blocks) ->
      exists q,
        option_map b_page_number (last (map Some text_blocks) None) = Some q
        /\ p <= q.
Proof.
    unfold page_ordered.
    induction 1 as [|b l Hs IH Hb]; intros p Hin; [destruct Hin|].
    destruct l as [|b' l].
    - destruct Hin as [<-|[]]. exists (b_page_number b). cbn. split; [auto|lia].
    - change (last (map Some (b :: b' :: l)) None)
        with (last (map Some (b' :: l)) (@None TextBlock)).
      destruct Hin as [<-|Hin].
      + destruct (IH (b_page_number b') (or_introl eq_refl)) as [q [Eq Hq]].
        exists q. split; [exact Eq|].
        inversion Hb as [|? ? Hbb' _]; subst. lia.
      + apply IH. exact Hin.
Qed.

Lemma boundaries_shape (last_page : option Z)
    (cands : list section_candidate) :
    StronglySorted (fun a b => c_start_page a <= c_start_page b) cands ->
    Forall (fun c => exists q, last_page = Some q /\ c_start_page c <= q)
           cands ->
    let sections := boundaries last_page cands in
    map start_page sections = map c_start_page cands
    /\ Forall (fun s => start_page s <= end_page s) sections
    /\ forall l1 a b l2,
         sections = l1 ++ a :: b :: l2 ->
         start_page a <= start_page b
         /\ (end_page a < start_page b \/ start_page a = start_page b).
Proof.
    induction 1 as [|c l Hs IH Hc]; intros Hl; cbn [boundaries].
    - split; [reflexivity|]. split; [constructor|].
      intros l1 a b l2 E. destruct l1; discriminate.
    - inversion Hl as [|? ? Hq Hl']; subst.
      destruct (IH Hl') as [Hm [Hw Hadj]]. cbv zeta in *.
      split; [cbn [map start_page]; rewrite Hm; reflexivity|].
      split.
      + constructor; [|exact Hw]. cbn [start_page end_page].
        destruct l as [|next l'].
        * destruct Hq as [q [-> Hq]]. exact Hq.
        * destruct (c_start_page next - 1 <? c_start_page c) eqn:E;
            [lia|apply Z.ltb_ge in E; exact E].
      + intros l1 a b l2 E.
        destruct l1 as [|x l1]; cbn [app] in E.
        * injection E as <- E.
          destruct l as [|next l']; cbn [boundaries] in E; [discriminate|].
          injection E as <- _. cbn [start_page end_page].
          inversion Hc as [|? ? Hcn _]; subst.
          split; [exact Hcn|].
          destruct (c_start_page next - 1 <? c_start_page c) eqn:E;
            [apply Z.ltb_lt in E|apply Z.ltb_ge in E]; lia.
        * injection E as _ E. eapply Hadj. exact E.
Qed.
End LocatorFacts.

(** X1.  Merging loses no page and adds none: a page lies in a merged section
    of some type exactly when it lay in a section of that type before the
    merge. *)
Theorem merge_sections_preserves_coverage :
  forall (sections : list schemas.Section) (ty : string) (p : Z),
    section_locator.covers (section_locator._merge_sections sections) ty p
    <-> section_locator.covers sections ty p.
Proof.
  intros sections ty p. unfold section_locator._merge_sections.
  pose proof (sorted_by_start_page sections) as Hs.
  pose proof (sorted_perm _ section_locator.by_start_page sections) as Hp.
  destruct (sorted section_locator.by_start_page sections)
    as [|current rest] eqn:E.
  - split; intros H.
    + destruct H as [s [[] _]].
    + apply (covers_perm _ _ ty p (Permutation_sym Hp)) in H.
      destruct H as [s [[] _]].
  - rewrite (merge_loop_covers ty p rest current Hs). split.
    + apply covers_perm. exact Hp.
    + apply covers_perm. apply Permutation_sym. exact Hp.
Qed.

(** X2.  Merging twice is merging once. *)
Theorem merge_sections_idempotent :
  forall sections : list schemas.Section,
    section_locator._merge_sections
      (section_locator._merge_sections sections)
    = section_locator._merge_sections sections.
Proof.
  intros sections.
  assert (Hs : section_locator.sorted_by_start
                 (section_locator._merge_sections sections)
               /\ forall l1 a b l2,
                    section_locator._merge_sections sections
                    = l1 ++ a :: b :: l2 ->
                    schemas.s_section_type a = schemas.s_section_type b ->
                    schemas.end_page a + 1 < schemas.start_page b).
  { unfold section_locator._merge_sections.
    pose proof (sorted_by_start_page sections) as Hs.
    destruct (sorted section_locator.by_start_page sections)
      as [|current rest].
    - split; [constructor|]. intros l1 a b l2 E. destruct l1; discriminate.
    - split; [apply merge_loop_sorted; exact Hs|].
      intros l1 a b l2. apply merge_loop_adjacent. }
  destruct Hs as [Hs Hadj].
  set (m := section_locator._merge_sections sections) in *.
  unfold section_locator._merge_sections at 1.
  rewrite (sorted_fixed _ section_locator.by_start_page m
             (sorted_by_start_leb m Hs)).
  destruct m as [|current rest]; [reflexivity|].
  apply merge_loop_fixed. exact Hadj.
Qed.

(** X3.  The verdict on the critical sections is the same before and after the
    merge: merging neither hides a section type nor brings one in. *)
Theorem validate_sections_unchanged_by_merge :
  forall sections : list schemas.Section,
    section_locator.validate_sections
      (section_locator._merge_sections sections)
    = section_locator.validate_sections sections.
Proof.
  intros sections. unfold section_locator.validate_sections.
  assert (E : filter (fun s => negb (section_locator.found_type
                                       (section_locator._merge_sections
                                          sections) s))
                     section_locator.critical_sections
              = filter (fun s => negb (section_locator.found_type sections s))
                       section_locator.critical_sections).
  { apply filter_ext. intros s. rewrite found_type_merge. reflexivity. }
  rewrite E. reflexivity.
Qed.

(** X4.  When the text blocks come in page order, the regex pass yields
    sections whose start pages do not decrease, none of which ends before it
    starts, and a section ends before the next one starts unless the two start
    on the same page. *)
Theorem located_sections_well_formed :
  forall (is_section_header : string -> bool)
         (match_section_type : string -> list string)
         (text_blocks : list schemas.TextBlock),
    section_locator.page_ordered text_blocks ->
    let sections :=
      section_locator._locate_sections_regex is_section_header
        match_section_type text_blocks in
    Forall (fun s => schemas.start_page s <= schemas.end_page s) sections
    /\ forall l1 a b l2,
         sections = l1 ++ a :: b :: l2 ->
         schemas.start_page a <= schemas.start_page b
         /\ (schemas.end_page a < schemas.start_page b
             \/ schemas.start_page a = schemas.start_page b).
Proof.
  intros ish mst text_blocks Ho sections. subst sections.
  unfold section_locator._locate_sections_regex.
  apply boundaries_shape.
  - apply scan_sorted. exact Ho.
  - pose proof (scan_pages ish mst
                  (fun p => In p (map schemas.b_page_number text_blocks))
                  text_blocks O) as Hin.
    eapply Forall_impl; [|apply Hin].
    + intros c Hc. apply last_page_bound; assumption.
    + apply Forall_forall. intros b Hb. apply in_map. exact Hb.
Qed.

(** Two headers on pages 3 and 7 of a document of nine pages. *)
Lemma located_sections_well_formed_witness :
  Forall (fun s => schemas.start_page s <= schemas.end_page s)
         (section_locator._locate_sections_regex
            (fun t => String.eqb t "Balance Sheet"
                      || String.eqb t "Income Statement")
            (fun t => if String.eqb t "Balance Sheet" then ["balance_sheet"]
                      else ["income_statement"])
            examples.three_blocks).
Proof.
  apply (located_sections_well_formed _ _ examples.three_blocks).
  unfold section_locator.page_ordered, examples.three_blocks.
  repeat constructor; cbn; lia.
Defined.
(* ===================================================================== *)
(** * More on the merge of tables *)
(* ===================================================================== *)

Section MergeFacts.
Import schemas blockification.

Lemma strongly_sorted_app (A : Type) (R : A -> A -> Prop) (l1 l2 : list A) :
    StronglySorted R l1 -> StronglySorted R l2 ->
    (forall x y, In x l1 -> In y l2 -> R x y) ->
    StronglySorted R (l1 ++ l2).
Proof.
    induction 1 as [|x l1 Hs IH Hx]; intros H2 H; cbn [app]; [exact H2|].
    constructor.
    - apply IH; [exact H2|]. intros a b Ha Hb. apply H; [right|]; assumption.
    - apply Forall_app. split; [exact Hx|].
      apply Forall_forall. intros y Hy. apply H; [left; reflexivity|exact Hy].
Qed.

Lemma same_page_sorted (k : Z) (l : list TableBlock) :
    (forall t, In t l -> page_number t = k) ->
    StronglySorted (fun a b => page_number a <= page_number b) l.
Proof.
    induction l as [|t l IH]; intros H; constructor.
    - apply IH. intros u Hu. apply H. right. exact Hu.
    - apply Forall_forall. intros u Hu.
      rewrite (H t (or_introl eq_refl)), (H u (or_intror Hu)). lia.
Qed.

Lemma in_flat_map_filed (d : pages) (ks : list Z) (t : TableBlock) :
    filed d -> In t (flat_map (on d) ks) -> In (page_number t) ks.
Proof.
    intros Hf Hin. apply in_flat_map in Hin. destruct Hin as [k [Hk Ht]].
    rewrite (Hf k t Ht). exact Hk.
Qed.

Lemma flat_map_page_order (d : pages) (ks : list Z) :
    filed d -> StronglySorted (fun a b => (a <=? b) = true) ks ->
    StronglySorted (fun a b => page_number a <= page_number b)
                   (flat_map (on d) ks).
Proof.
    intros Hf. induction 1 as [|k ks Hs IH Hk]; cbn [flat_map].
    - constructor.
    - apply strongly_sorted_app.
      + apply (same_page_sorted k). apply Hf.
      + exact IH.
      + intros x y Hx Hy. rewrite (Hf k x Hx).
        apply (in_flat_map_filed d ks y Hf) in Hy.
        rewrite Forall_forall in Hk. apply Z.leb_le. apply Hk. exact Hy.
Qed.

Lemma page_step_fold_in (p : Z) (pl : list TableBlock) :
    forall placed u,
      In u (fold_left (page_step p) pl placed) -> In u placed \/ In u pl.
Proof.
    induction pl as [|t pl IH]; intros placed u Hu; cbn [fold_left] in Hu.
    - left. exact Hu.
    - apply IH in Hu. destruct Hu as [Hu|Hu]; [|right; right; exact Hu].
      destruct (page_step_cases p placed t) as [E|[_ E]]; rewrite E in Hu.
      + left. exact Hu.
      + apply in_app_or in Hu.
        destruct Hu as [Hu|[<-|[]]]; [left; exact Hu|right; left; reflexivity].
Qed.

Lemma page_step_fold_keeps (p : Z) (pl placed : list TableBlock)
    (u : TableBlock) :
    In u placed -> In u (fold_left (page_step p) pl placed).
Proof.
    intros Hu. destruct (page_step_fold_prefix p pl placed) as [kept E].
    rewrite E. apply in_or_app. left. exact Hu.
Qed.

  (** A pdfplumber table of page [p] is placed, or a table placed on the
      page is similar to it. *)
Lemma page_step_fold_match (p : Z) (pl : list TableBlock) :
    forall placed t,
      In t pl -> page_number t = p ->
      let out := fold_left (page_step p) pl placed in
      In t out \/ exists u, In u out /\ _tables_similar t u = true.
Proof.
    induction pl as [|t0 pl IH]; intros placed t Hin Hp; [destruct Hin|].
    cbn [fold_left]. destruct Hin as [->|Hin]; [|apply IH; assumption].
    assert (E : page_step p placed t
                = if existsb (fun e => _tables_similar t e) placed
                  then placed else placed ++ [t]).
    { unfold page_step. rewrite Hp, Z.eqb_refl. reflexivity. }
    cbv zeta. rewrite E.
    destruct (existsb (fun e => _tables_similar t e) placed) eqn:Ex.
    - right. apply existsb_exists in Ex. destruct Ex as [u [Hu Hsim]].
      exists u. split; [|exact Hsim].
      apply page_step_fold_keeps. exact Hu.
    - left. apply page_step_fold_keeps. apply in_or_app. right. left.
      reflexivity.
Qed.

Lemma in_on_page (p : Z) (l : list TableBlock) (t : TableBlock) :
    In t (on_page p l) <-> In t l /\ page_number t = p.
Proof.
    unfold on_page. rewrite filter_In, Z.eqb_eq. reflexivity.
Qed.
End MergeFacts.

(** X5.  The similarity test does not depend on the order of its two
    arguments. *)
Theorem tables_similar_symmetric :
  forall table1 table2 : schemas.TableBlock,
    blockification._tables_similar table1 table2
    = blockification._tables_similar table2 table1.
Proof.
  intros a b. unfold blockification._tables_similar.
  rewrite (Z.eqb_sym (schemas.page_number b) (schemas.page_number a)).
  destruct (schemas.page_number a =? schemas.page_number b); [|reflexivity].
  cbn [negb].
  replace (Z.abs (blockification.rows b - blockification.rows a))
    with (Z.abs (blockification.rows a - blockification.rows b)) by lia.
  replace (Z.abs (blockification.cols b - blockification.cols a))
    with (Z.abs (blockification.cols a - blockification.cols b)) by lia.
  destruct ((2 <? _) || (1 <? _)); [reflexivity|].
  destruct (blockification.first_cell a) as [x|],
           (blockification.first_cell b) as [y|]; try reflexivity.
  rewrite (String.eqb_sym y x).
  destruct (String.eqb x ""), (String.eqb y ""), (String.eqb x y);
    reflexivity.
Qed.

(** X6.  The merged tables come out in page order. *)
Theorem merged_tables_in_page_order :
  forall camelot_tables pdfplumber_tables : list schemas.TableBlock,
    StronglySorted
      (fun a b => schemas.page_number a <= schemas.page_number b)
      (blockification._merge_tables camelot_tables pdfplumber_tables).
Proof.
  intros c pl. unfold blockification._merge_tables.
  destruct (tables_by_page_spec c pl 0) as [Hf _]. cbv zeta in Hf.
  apply flat_map_page_order; [exact Hf|].
  apply sorted_strongly.
  - intros a b. rewrite !Z.leb_le. lia.
  - intros a b k. rewrite !Z.leb_le. lia.
Qed.

(** X7.  The merge invents no table and loses none without a reason: every
    table of the output is one of the input tables, every Camelot table is in
    the output, and a pdfplumber table is in the output unless a table of the
    output is similar to it. *)
Theorem merged_tables_keep_or_match :
  forall camelot_tables pdfplumber_tables : list schemas.TableBlock,
    let merged :=
      blockification._merge_tables camelot_tables pdfplumber_tables in
    (forall u, In u merged -> In u camelot_tables \/ In u pdfplumber_tables)
    /\ (forall t, In t camelot_tables -> In t merged)
    /\ (forall t, In t pdfplumber_tables ->
          In t merged
          \/ exists u, In u merged
                       /\ blockification._tables_similar t u = true).
Proof.
  intros c pl merged. subst merged.
  assert (Hon : forall t,
             In t (blockification._merge_tables c pl)
             <-> In t (fold_left
                         (blockification.page_step (schemas.page_number t))
                         pl
                         (blockification.on_page (schemas.page_number t) c))).
  { intros t. rewrite <- merged_on_page, in_on_page. tauto. }
  split; [|split].
  - intros u Hu. apply Hon in Hu. apply page_step_fold_in in Hu.
    destruct Hu as [Hu|Hu]; [left|right; exact Hu].
    apply in_on_page in Hu. apply Hu.
  - intros t Ht. apply Hon. apply page_step_fold_keeps.
    apply in_on_page. auto.
  - intros t Ht.
    destruct (page_step_fold_match (schemas.page_number t) pl
                (blockification.on_page (schemas.page_number t) c) t Ht
                eq_refl) as [H|[u [Hu Hsim]]].
    + left. apply Hon. exact H.
    + right. exists u. split; [|exact Hsim].
      rewrite <- merged_on_page in Hu. apply in_on_page in Hu. apply Hu.
Qed.

(** The revenue table of Camelot is in the output. *)
Lemma merged_tables_keep_or_match_witness :
  In (examples.revenue_table "lattice_0")
     (blockification._merge_tables [examples.revenue_table "lattice_0"]
                                   [examples.costs_table]).
Proof.
  destruct (merged_tables_keep_or_match
              [examples.revenue_table "lattice_0"] [examples.costs_table])
    as [_ [H _]].
  apply H. left. reflexivity.
Defined.
(* ===================================================================== *)
(** * Currency and scale conversion *)
(* ===================================================================== *)

Section DivisionFacts.
Import Dec.

Lemma ndigits_fuel_pos (fuel : nat) (n : Z) : 1 <= ndigits_fuel fuel n.
Proof.
    revert n. induction fuel as [|f IH]; intros n; cbn [ndigits_fuel]; [lia|].
    destruct (n <? 10); [lia|]. specialize (IH (n / 10)). lia.
Qed.

Lemma ndigits_pos (n : Z) : 1 <= ndigits n.
Proof. apply ndigits_fuel_pos. Qed.

Lemma ndigits_fuel_upper (fuel : nat) :
    forall n, 0 <= n < 2 ^ Z.of_nat fuel -> n < 10 ^ ndigits_fuel fuel n.
Proof.
    induction fuel as [|f IH]; intros n Hn; cbn [ndigits_fuel].
    - cbn in Hn. lia.
    - destruct (n <? 10) eqn:E.
      + apply Z.ltb_lt in E. cbn. lia.
      + apply Z.ltb_ge in E.
        assert (Hq : 0 <= n / 10 < 2 ^ Z.of_nat f).
        { split; [apply Z.div_pos; lia|].
          apply Z.div_lt_upper_bound; [lia|].
          rewrite Nat2Z.inj_succ, Z.pow_succ_r in Hn by lia.
          assert (0 < 2 ^ Z.of_nat f) by (apply Z.pow_pos_nonneg; lia).
          lia. }
        specialize (IH _ Hq).
        pose proof (ndigits_fuel_pos f (n / 10)) as Hp.
        replace (1 + ndigits_fuel f (n / 10))
          with (Z.succ (ndigits_fuel f (n / 10))) by lia.
        rewrite Z.pow_succ_r by lia.
        pose proof (Z.div_mod n 10 ltac:(lia)) as Hdm.
        pose proof (Z.mod_pos_bound n 10 ltac:(lia)) as Hm.
        lia.
Qed.

  (** A number is below the power of ten of its number of digits. *)
Lemma ndigits_upper (n : Z) : 0 <= n -> n < 10 ^ ndigits n.
Proof.
    intros Hn. unfold ndigits. apply ndigits_fuel_upper.
    split; [exact Hn|].
    destruct (Z.eq_dec n 0) as [->|Hne].
    - cbn. lia.
    - rewrite Nat2Z.inj_succ, Z2Nat.id by apply Z.log2_nonneg.
      apply Z.log2_spec. lia.
Qed.

Lemma ndigits_lower (n : Z) : 1 <= n -> 10 ^ (ndigits n - 1) <= n.
Proof.
    intros Hn. pose proof (ndigits_pos n) as Hp.
    destruct (Z.eq_dec (ndigits n) 1) as [E|E].
    - rewrite E. cbn. lia.
    - apply ndigits_large; lia.
Qed.

Lemma pow10_le (a b : Z) : 0 <= a <= b -> 10 ^ a <= 10 ^ b.
Proof. intros H. apply Z.pow_le_mono_r; lia. Qed.

Lemma pow10_add (a b : Z) :
    0 <= a -> 0 <= b -> 10 ^ (a + b) = 10 ^ a * 10 ^ b.
Proof. intros. apply Z.pow_add_r; assumption. Qed.

  (** The quotient of two non-zero decimals is not zero, and its sign is
      the product of their signs. *)
Lemma div_sign (x y q : Decimal) :
    div x y = Ok q ->
    Z.sgn (coef q) = Z.sgn (coef x) * Z.sgn (coef y).
Proof.
    unfold div, is_zero.
    destruct (coef y =? 0) eqn:Ey.
    { destruct (coef x =? 0); discriminate. }
    destruct (coef x =? 0) eqn:Ex.
    { intros H. injection H as <-. apply Z.eqb_eq in Ex. rewrite Ex.
      reflexivity. }
    apply Z.eqb_neq in Ex, Ey.
    set (a := Z.abs (coef x)). set (b := Z.abs (coef y)).
    assert (Ha : 1 <= a) by (unfold a; lia).
    assert (Hb : 1 <= b) by (unfold b; lia).
    pose proof (ndigits_upper a ltac:(lia)) as Hau.
    pose proof (ndigits_upper b ltac:(lia)) as Hbu.
    pose proof (ndigits_lower a Ha) as Hal.
    pose proof (ndigits_lower b Hb) as Hbl.
    pose proof (ndigits_pos a) as Hpa.
    pose proof (ndigits_pos b) as Hpb.
    set (shift := ndigits b - ndigits a + prec + 1).
    assert (Hq : forall q0 r0,
               (if 0 <=? shift then Z.div_eucl (a * 10 ^ shift) b
                else Z.div_eucl a (b * 10 ^ (- shift))) = (q0, r0) ->
               1 <= q0).
    { intros q0 r0. destruct (0 <=? shift) eqn:Es.
      - apply Z.leb_le in Es. intros E.
        assert (E' : q0 = a * 10 ^ shift / b).
        { unfold Z.div. rewrite E. reflexivity. }
        subst q0. apply Z.div_le_lower_bound; [lia|].
        assert (H1 : 10 ^ ndigits b <= 10 ^ (ndigits a - 1) * 10 ^ shift).
        { rewrite <- pow10_add by lia. apply pow10_le.
          unfold shift, prec. lia. }
        assert (0 <= 10 ^ shift) by (apply Z.pow_nonneg; lia).
        nia.
      - apply Z.leb_gt in Es. intros E.
        assert (E' : q0 = a / (b * 10 ^ (- shift))).
        { unfold Z.div. rewrite E. reflexivity. }
        subst q0.
        assert (Hp : 0 < 10 ^ (- shift)) by (apply Z.pow_pos_nonneg; lia).
        apply Z.div_le_lower_bound; [nia|].
        assert (H1 : 10 ^ ndigits b * 10 ^ (- shift) <= 10 ^ (ndigits a - 1)).
        { rewrite <- pow10_add by lia. apply pow10_le.
          unfold shift, prec in *. lia. }
        nia. }
    destruct (if 0 <=? shift then Z.div_eucl (a * 10 ^ shift) b
              else Z.div_eucl a (b * 10 ^ (- shift))) as [q0 r0] eqn:E.
    specialize (Hq q0 r0 eq_refl).
    intros H. injection H as <-. rewrite fix_sign.
    rewrite !Z.sgn_mul, !Z.sgn_sgn.
    assert (Hs : Z.sgn (if negb (r0 =? 0) && (q0 mod 5 =? 0)
                        then q0 + 1 else q0) = 1).
    { apply Z.sgn_pos. destruct (negb (r0 =? 0) && (q0 mod 5 =? 0)); lia. }
    rewrite Hs. lia.
Qed.

Lemma mul_sign (x y : Decimal) :
    Z.sgn (coef (mul x y)) = Z.sgn (coef x) * Z.sgn (coef y).
Proof. unfold mul. rewrite fix_sign. apply Z.sgn_mul. Qed.
End DivisionFacts.

Section CurrencyFacts.
Import currency.

Lemma mem_in_keys (V : Type) (d : Dict.t string V) (k : string) :
    Dict.mem String.eqb d k = true -> In k (Dict.keys d).
Proof.
    unfold Dict.mem, Dict.keys.
    induction d as [|[k0 v0] d IH]; cbn [Dict.get map fst]; [discriminate|].
    destruct (String.eqb_spec k0 k) as [->|_].
    - intros _. left. reflexivity.
    - intros H. right. apply IH. exact H.
Qed.

Lemma normalize_scale_standard (scale : string) :
    In (normalize_scale scale) standard_scales.
Proof.
    unfold normalize_scale.
    destruct (Dict.mem String.eqb SCALE_MULTIPLIERS
                       (Text.strip (Text.lower scale))) eqn:E.
    - apply mem_in_keys in E. exact E.
    - destruct (Dict.get String.eqb SCALE_ALIASES
                         (Text.strip (Text.lower scale))) as [name|] eqn:G.
      + apply get_in_values in G. cbn in G. cbn.
        repeat (destruct G as [<-|G]; [tauto|]). destruct G.
      + left. reflexivity.
Qed.

Lemma normalize_scale_fixed (name : string) :
    In name standard_scales -> normalize_scale name = name.
Proof.
    intros H. cbn in H.
    repeat (destruct H as [<-|H]; [reflexivity|]). destruct H.
Qed.

Lemma multiplier_positive (name : string) : 0 < Dec.coef (multiplier name).
Proof.
    unfold multiplier.
    destruct (Dict.get String.eqb SCALE_MULTIPLIERS name) as [m|] eqn:G;
      [|cbn; lia].
    cbn [SCALE_MULTIPLIERS Dict.get] in G.
    repeat match type of G with
           | (if ?b then _ else _) = _ =>
               destruct b; [injection G as <-; cbn; lia|]
           end.
    discriminate.
Qed.

  (** Upper-casing a letter whose lower case is an ASCII letter gives the
      ASCII capital. *)
Lemma upper_of_lower (c : ascii) :
    Text.islower_ascii (Text.lower_char c) = true ->
    Text.upper_points c = [Text.code (Text.lower_char c) - 32].
Proof.
    destruct c as [[] [] [] [] [] [] [] []]; vm_compute;
      intros H; try reflexivity; discriminate H.
Qed.

Lemma contains_points_app (needle l1 l2 : list Z) :
    Text.contains_points needle l2 = true ->
    Text.contains_points needle (l1 ++ l2) = true.
Proof.
    intros H. induction l1 as [|x l1 IH]; cbn [app]; [exact H|].
    cbn [Text.contains_points].
    destruct (Text.prefix_points needle (x :: l1 ++ l2));
      [reflexivity|exact IH].
Qed.

Lemma contains_points_prefix (needle hay : list Z) :
    Text.prefix_points needle hay = true ->
    Text.contains_points needle hay = true.
Proof.
    intros H. destruct hay; cbn [Text.contains_points]; rewrite H; reflexivity.
Qed.

Lemma lower_char_is (c : ascii) (x : ascii) :
    Text.lower_char c = x -> Text.islower_ascii x = true ->
    Text.upper_points c = [Text.code x - 32].
Proof. intros <- H. apply upper_of_lower. exact H. Qed.

Lemma prefix_euro (s : string) :
    prefix "euro" (Text.lower s) = true ->
    exists c1 c2 c3 rest,
      s = String c1 (String c2 (String c3 rest))
      /\ Text.lower_char c1 = "e"%char /\ Text.lower_char c2 = "u"%char
      /\ Text.lower_char c3 = "r"%char.
Proof.
    destruct s as [|c1 [|c2 [|c3 rest]]]; cbn [Text.lower prefix];
      try discriminate.
    - destruct (ascii_dec "e" (Text.lower_char c1)); discriminate.
    - destruct (ascii_dec "e" (Text.lower_char c1)); [|discriminate].
      destruct (ascii_dec "u" (Text.lower_char c2)); discriminate.
    - destruct (ascii_dec "e" (Text.lower_char c1)) as [E1|]; [|discriminate].
      destruct (ascii_dec "u" (Text.lower_char c2)) as [E2|]; [|discriminate].
      destruct (ascii_dec "r" (Text.lower_char c3)) as [E3|]; [|discriminate].
      intros _. exists c1, c2, c3, rest. auto.
Qed.

  (** A text with the word "euro", in whatever case, holds the code EUR
      once upper-cased. *)
Lemma euro_word_has_code (text : string) :
    Text.contains "euro" (Text.lower text) = true ->
    Text.contains_points (Text.points "EUR") (Text.upper text) = true.
Proof.
    induction text as [|c text IH]; [discriminate|].
    change (Text.lower (String c text))
      with (String (Text.lower_char c) (Text.lower text)).
    cbn [Text.contains].
    destruct (prefix "euro" (String (Text.lower_char c) (Text.lower text)))
      eqn:E.
    - intros _. apply contains_points_prefix.
      destruct (prefix_euro (String c text) E)
        as [c1 [c2 [c3 [rest [Es [E1 [E2 E3]]]]]]].
      rewrite Es. cbn [Text.upper].
      rewrite (lower_char_is c1 "e" E1 eq_refl),
        (lower_char_is c2 "u" E2 eq_refl), (lower_char_is c3 "r" E3 eq_refl).
      reflexivity.
    - intros H. cbn [Text.upper]. apply contains_points_app. apply IH.
      exact H.
Qed.
End CurrencyFacts.

(** X8.  Whatever the input, [normalize_scale] answers one of the four
    standard scales, and normalizing its answer again changes nothing. *)
Theorem normalize_scale_standard_and_idempotent :
  forall scale : string,
    In (currency.normalize_scale scale) currency.standard_scales
    /\ currency.normalize_scale (currency.normalize_scale scale)
       = currency.normalize_scale scale.
Proof.
  intros scale. split; [apply normalize_scale_standard|].
  apply normalize_scale_fixed. apply normalize_scale_standard.
Qed.


(** X10.  [convert] has no answer exactly when the two codes differ as written
    and, upper-cased, are not both among GBP, USD and EUR. *)
Theorem convert_defined_iff_supported :
  forall (amount : Dec.Decimal) (from_currency to_currency : string),
    currency.convert amount from_currency to_currency = None
    <-> from_currency <> to_currency
        /\ currency.supported from_currency
           && currency.supported to_currency = false.
Proof.
  intros amount f t. unfold currency.convert, currency.supported.
  destruct (String.eqb_spec f t) as [E|E].
  { split; [discriminate|]. intros [H _]. contradiction. }
  cbn [currency.EXCHANGE_RATES currency.rate_of currency.supported_currencies
       existsb].
  destruct (Text.points_eqb (Text.points "GBP") (Text.upper f));
    destruct (Text.points_eqb (Text.points "USD") (Text.upper f));
    destruct (Text.points_eqb (Text.points "EUR") (Text.upper f));
    destruct (Text.points_eqb (Text.points "GBP") (Text.upper t));
    destruct (Text.points_eqb (Text.points "USD") (Text.upper t));
    destruct (Text.points_eqb (Text.points "EUR") (Text.upper t));
    cbn [andb orb]; split; try discriminate; try tauto;
    intros [_ H]; discriminate H.
Qed.

(** X11.  The currency detector answers nothing or one of its seven codes, and
    the words "euro" and "euros" of its word table never decide: a text that
    holds one of them is settled by a symbol or by a code. *)
Theorem detect_answers_code_and_euro_word_is_dead :
  forall text : string,
    (forall code, currency.detect text = Some code ->
                  In code currency.CURRENCY_CODES)
    /\ (Text.contains "euro" (Text.lower text) = true ->
        currency.first_in currency.CURRENCY_SYMBOLS text = None ->
        exists code,
          currency.first_code currency.CURRENCY_CODES (Text.upper text)
          = Some code
          /\ currency.detect text = Some code).
Proof.
  intros text. split.
  - intros code. unfold currency.detect.
    cbn [currency.CURRENCY_SYMBOLS currency.CURRENCY_CODES
         currency.CURRENCY_WORDS currency.first_in currency.first_code].
    repeat match goal with
           | |- context [if ?b then _ else _] => destruct b
           end;
      intros H; try discriminate H; injection H as <-; cbn; tauto.
  - intros He Hs. unfold currency.detect. rewrite Hs.
    apply euro_word_has_code in He.
    cbn [currency.CURRENCY_CODES currency.first_code].
    destruct (Text.contains_points (Text.points "GBP") (Text.upper text));
      [eexists; split; reflexivity|].
    destruct (Text.contains_points (Text.points "USD") (Text.upper text));
      [eexists; split; reflexivity|].
    rewrite He. eexists; split; reflexivity.
Qed.

(** The text "Euros 5" is settled by the code EUR. *)
Lemma detect_answers_code_and_euro_word_is_dead_witness :
  currency.detect "Euros 5" = Some "EUR".
Proof.
  destruct (detect_answers_code_and_euro_word_is_dead "Euros 5") as [_ H].
  destruct (H eq_refl eq_refl) as [code [Hc Hd]].
  vm_compute in Hc. injection Hc as <-. exact Hd.
Defined.
(* ===================================================================== *)
(** * More on the candidate generator *)
(* ===================================================================== *)

Section GeneratorFacts.
Import Re schemas candidate_generator.

Lemma detect_in (default : string) (d : Dict.t string regex) (s : string) :
    In (detect default d s) (default :: Dict.keys d).
Proof.
    unfold Dict.keys.
    induction d as [|[key pattern] d IH]; cbn [detect map fst].
    - left. reflexivity.
    - destruct (found true pattern s).
      + right. left. reflexivity.
      + destruct IH as [IH|IH]; [left; exact IH|right; right; exact IH].
Qed.

  (** The currency and the scale of a parsed value are among those the
      parser knows. *)
Lemma parse_units (v : cell) (pv : parsed_value) :
    _parse_numeric_value v = Some pv ->
    In (pv_currency pv) ["GBP"; "USD"; "EUR"]
    /\ In (pv_scale pv) ["millions"; "billions"; "thousands"].
Proof.
    unfold _parse_numeric_value. destruct v as [v|]; [|discriminate].
    destruct (String.eqb (Text.strip v) ""); [discriminate|].
    intros H. apply try_values_inv in H.
    destruct H as [r [m [g1 [gs [d [_ [_ [_ [_ ->]]]]]]]]].
    cbn [pv_currency pv_scale]. split.
    - pose proof (detect_in "GBP" CURRENCY_PATTERNS (Text.strip v)) as H.
      cbn in H. cbn. tauto.
    - pose proof (detect_in "millions" SCALE_PATTERNS (Text.strip v)) as H.
      cbn in H. cbn. tauto.
Qed.

Lemma has_char_of_lstrip (c : ascii) (s : string) :
    Text.has_char c (Text.lstrip s) = true -> Text.has_char c s = true.
Proof.
    induction s as [|x s IH]; cbn [Text.lstrip]; [auto|].
    destruct (Text.isspace x); [|auto].
    intros H. cbn [Text.has_char]. rewrite (IH H). apply orb_true_r.
Qed.

Lemma has_char_of_rstrip (c : ascii) (s : string) :
    Text.has_char c (Text.rstrip s) = true -> Text.has_char c s = true.
Proof.
    induction s as [|x s IH]; cbn [Text.rstrip]; [auto|].
    destruct (Text.rstrip s) as [|y r] eqn:E.
    - destruct (Text.isspace x); cbn [Text.has_char]; [discriminate|].
      rewrite orb_false_r. intros ->. reflexivity.
    - cbn [Text.has_char] in *. intros H.
      apply orb_true_iff in H. destruct H as [->|H]; [reflexivity|].
      rewrite (IH H). apply orb_true_r.
Qed.

Lemma has_char_of_strip (c : ascii) (s : string) :
    Text.has_char c (Text.strip s) = true -> Text.has_char c s = true.
Proof.
    unfold Text.strip. intros H.
    apply has_char_of_lstrip. apply has_char_of_rstrip. exact H.
Qed.

Variable uuid : nat -> string.

Lemma row_candidates_all (table : TableBlock) (section : Section)
    (row_idx : nat) (row : list cell) (raw_label standard_label : string)
    (cols : Dict.t nat period_column) :
    forall n,
      Forall (table_candidate_of section)
             (fst (row_candidates uuid table section row_idx row raw_label
                                  standard_label cols n)).
Proof.
    induction cols as [|[col_idx period_info] cols IH]; intros n;
      cbn [row_candidates]; [constructor|].
    destruct (nth_error row col_idx) as [cell_value|]; [|apply IH].
    destruct (_parse_numeric_value cell_value) as [pv|] eqn:E; [|apply IH].
    specialize (IH (S n)).
    destruct (row_candidates uuid table section row_idx row raw_label
                             standard_label cols (S n)) as [cs n'].
    cbn [fst] in *. constructor; [|exact IH].
    destruct (parse_units _ _ E) as [Hc Hs].
    unfold table_candidate_of, _create_candidate.
    cbn [currency scale source period_end_date section_type confidence_score].
    repeat split; try assumption. eexists. reflexivity.
Qed.

Lemma rows_candidates_all (std : periods.LabelStandardizer)
    (table : TableBlock) (section : Section)
    (target_metrics : option (list string)) (cols : Dict.t nat period_column)
    (rows : list (list cell)) :
    forall row_idx n,
      Forall (table_candidate_of section)
             (fst (rows_candidates uuid std table section target_metrics cols
                                   row_idx rows n)).
Proof.
    induction rows as [|row rows IH]; intros row_idx n;
      cbn [rows_candidates]; [constructor|].
    destruct row as [|label_cell row']; [apply IH|].
    destruct (String.eqb (Text.strip (str_cell label_cell)) ""); [apply IH|].
    destruct (negb (in_targets target_metrics
                      (periods.standardize_label
                         std (Text.strip (str_cell label_cell)))));
      [apply IH|].
    pose proof (row_candidates_all table section row_idx
                  (label_cell :: row') (Text.strip (str_cell label_cell))
                  (periods.standardize_label
                     std (Text.strip (str_cell label_cell)))
                  cols n) as Hrow.
    destruct (row_candidates uuid table section row_idx (label_cell :: row')
                             (Text.strip (str_cell label_cell))
                             (periods.standardize_label
                                std (Text.strip (str_cell label_cell)))
                             cols n) as [cs n1].
    specialize (IH (S row_idx) n1).
    destruct (rows_candidates uuid std table section target_metrics cols
                              (S row_idx) rows n1) as [cs' n2].
    cbn [fst] in *. apply Forall_app. split; assumption.
Qed.

Variable std : periods.LabelStandardizer.
Variable _extract_from_text_block :
    TextBlock -> Section -> option (list string) -> nat ->
    result (list CandidateValue * nat).

Lemma generate_from_tables_cases (sections : list Section)
    (table_blocks : list TableBlock) (target_metrics : option (list string)) :
    forall n,
      _generate_from_tables uuid std sections table_blocks target_metrics n
      = match sections, table_blocks with
        | _ :: _, _ :: _ => Raise AttributeError
        | _, _ => Ok ([], n)
        end.
Proof.
    induction sections as [|section rest IH]; intros n;
      cbn [_generate_from_tables]; [reflexivity|].
    destruct table_blocks as [|t ts]; cbn [_get_tables_in_section bind];
      [|reflexivity].
    cbn [extend_loop bind snd fst]. rewrite IH.
    destruct rest; reflexivity.
Qed.

Lemma generate_from_text_cases (sections : list Section)
    (text_blocks : list TextBlock) (target_metrics : option (list string)) :
    forall n,
      _generate_from_text _extract_from_text_block sections text_blocks
                          target_metrics n
      = match sections, text_blocks with
        | _ :: _, _ :: _ => Raise AttributeError
        | _, _ => Ok ([], n)
        end.
Proof.
    induction sections as [|section rest IH]; intros n;
      cbn [_generate_from_text]; [reflexivity|].
    destruct text_blocks as [|t ts]; cbn [_get_text_blocks_in_section bind];
      [|reflexivity].
    cbn [extend_loop bind snd fst]. rewrite IH.
    destruct rest; reflexivity.
Qed.
End GeneratorFacts.



(** X13.  Only a pair of parentheses makes a value negative: a cell that lacks
    "(" or ")" is read as a value that is not negative, whatever sign is
    written in it.  The cell "-250.5" is read as 250.5. *)
Theorem unparenthesized_value_not_negative :
  (forall (cell_text : string) (pv : candidate_generator.parsed_value),
      Text.has_char "(" cell_text && Text.has_char ")" cell_text = false ->
      candidate_generator._parse_numeric_value (Some cell_text) = Some pv ->
      0 <= Dec.coef (candidate_generator.pv_value pv))
  /\ candidate_generator._parse_numeric_value (Some "-250.5")
     = Some {| candidate_generator.pv_value := Dec.mk 2505 (-1);
               candidate_generator.pv_currency := "GBP";
               candidate_generator.pv_scale := "millions" |}.
Proof.
  split; [|vm_compute; reflexivity].
  intros cell pv Hno H.
  unfold candidate_generator._parse_numeric_value in H.
  destruct (String.eqb (Text.strip cell) ""); [discriminate H|].
  assert (Hneg : Text.has_char "(" (Text.strip cell)
                 && Text.has_char ")" (Text.strip cell) = false).
  { destruct (Text.has_char "(" (Text.strip cell)) eqn:Eo; [|reflexivity].
    destruct (Text.has_char ")" (Text.strip cell)) eqn:Ec; [|reflexivity].
    apply has_char_of_strip in Eo, Ec. rewrite Eo, Ec in Hno.
    discriminate Hno. }
  rewrite Hneg in H.
  apply try_values_inv in H.
  destruct H as [r [m [g1 [gs [d [Hin [Hs [Hg [Hd ->]]]]]]]]].
  apply search_sound in Hs. destruct Hs as [M _]. rewrite Hg in M.
  pose proof (value_group_chars r _ g1 gs Hin M) as Hchars.
  cbn [candidate_generator.pv_value].
  exact (of_string_nonneg _ d (replace_comma_chars g1 Hchars) Hd).
Qed.

(** The cell "-1,250.5" is read as a value that is not negative. *)
Lemma unparenthesized_value_not_negative_witness :
  exists pv,
    candidate_generator._parse_numeric_value (Some "-1,250.5") = Some pv
    /\ 0 <= Dec.coef (candidate_generator.pv_value pv).
Proof.
  destruct (candidate_generator._parse_numeric_value (Some "-1,250.5"))
    as [pv|] eqn:E; [|vm_compute in E; discriminate E].
  exists pv. split; [reflexivity|].
  destruct unparenthesized_value_not_negative as [H _].
  apply (H "-1,250.5" pv); [vm_compute; reflexivity|exact E].
Defined.


(** X15.  The entry point of the generator never returns a candidate: it reads
    the attribute [page] of the first table or text block it is given for a
    section, which these records do not have.  It returns the empty list when
    there is no section or neither tables nor text blocks, and raises
    [AttributeError] otherwise. *)
Theorem generate_candidates_empty_or_raises :
  forall (uuid : nat -> string) (std : periods.LabelStandardizer)
         (extract_text :
            schemas.TextBlock -> schemas.Section -> option (list string) ->
            nat -> result (list schemas.CandidateValue * nat))
         (sections : list schemas.Section)
         (table_blocks : list schemas.TableBlock)
         (text_blocks : list schemas.TextBlock)
         (target_metrics : option (list string)) (n : nat),
    candidate_generator.generate_candidates uuid std extract_text sections
      table_blocks text_blocks target_metrics n
    = match sections, table_blocks, text_blocks with
      | [], _, _ => Ok []
      | _, [], [] => Ok []
      | _, _, _ => Raise AttributeError
      end.
Proof.
  intros uuid std ext sections tables texts targets n.
  unfold candidate_generator.generate_candidates.
  rewrite generate_from_tables_cases.
  destruct sections as [|s ss]; cbn [bind snd fst].
  - rewrite generate_from_text_cases. reflexivity.
  - destruct tables as [|t ts]; cbn [bind snd fst]; [|reflexivity].
    rewrite generate_from_text_cases.
    destruct texts; reflexivity.
Qed.
(* ===================================================================== *)
(** * Grouping, batch validation and adjudication *)
(* ===================================================================== *)

Section DictMore.
Variables K V : Type.
Variable keq : K -> K -> bool.
Hypothesis keq_eq : forall a b, keq a b = true <-> a = b.

Lemma in_get (d : Dict.t K V) (k : K) (v : V) :
    NoDup (Dict.keys d) -> In (k, v) d -> Dict.get keq d k = Some v.
Proof.
    unfold Dict.keys.
    induction d as [|[k0 v0] d IH]; cbn [map fst Dict.get]; intros Hn Hin;
      [destruct Hin|].
    inversion Hn as [|? ? Hk Hn']; subst.
    destruct Hin as [E|Hin].
    - injection E as -> ->. rewrite (keq_refl K keq keq_eq). reflexivity.
    - destruct (keq k0 k) eqn:E.
      + apply keq_eq in E. subst k0. exfalso. apply Hk.
        apply (in_map fst) in Hin. exact Hin.
      + apply IH; assumption.
Qed.

Lemma get_in (d : Dict.t K V) (k : K) (v : V) :
    Dict.get keq d k = Some v -> In (k, v) d.
Proof.
    induction d as [|[k0 v0] d IH]; cbn [Dict.get]; [discriminate|].
    destruct (keq k0 k) eqn:E.
    - apply keq_eq in E. subst k0. intros H. injection H as <-.
      left. reflexivity.
    - intros H. right. apply IH. exact H.
Qed.

Lemma values_set_new (d : Dict.t K V) (k : K) (v : V) :
    Dict.get keq d k = None ->
    Dict.values (Dict.set keq d k v) = Dict.values d ++ [v].
Proof.
    unfold Dict.values.
    induction d as [|[k0 v0] d IH]; cbn [Dict.get Dict.set map snd app];
      [reflexivity|].
    destruct (keq k0 k); [discriminate|].
    intros H. cbn [map snd]. rewrite (IH H). reflexivity.
Qed.

Lemma values_set_old (d : Dict.t K V) (k : K) (v0 v : V) :
    Dict.get keq d k = Some v0 ->
    exists l1 l2,
      Dict.values d = l1 ++ v0 :: l2
      /\ Dict.values (Dict.set keq d k v) = l1 ++ v :: l2.
Proof.
    unfold Dict.values.
    induction d as [|[k1 v1] d IH]; cbn [Dict.get Dict.set map snd];
      [discriminate|].
    destruct (keq k1 k).
    - intros H. injection H as ->. exists [], (map snd d). auto.
    - intros H. destruct (IH H) as [l1 [l2 [E1 E2]]].
      exists (v1 :: l1), l2. cbn [map snd app]. rewrite E1, E2. auto.
Qed.
End DictMore.

Section GroupFacts.
Import schemas validators.

Lemma date_eqb_eq (a b : Date.date) : Date.eqb a b = true <-> a = b.
Proof.
    destruct a as [y m d], b as [y' m' d']. unfold Date.eqb.
    cbn [Date.year Date.month Date.day].
    rewrite !andb_true_iff, !Z.eqb_eq. split.
    - intros [[-> ->] ->]. reflexivity.
    - intros H. injection H as -> -> ->. auto.
Qed.

Lemma key_eqb_eq (a b : string * option Date.date) :
    key_eqb a b = true <-> a = b.
Proof.
    destruct a as [n p], b as [n' p']. unfold key_eqb. cbn [fst snd].
    rewrite andb_true_iff, String.eqb_eq. split.
    - intros [-> H]. f_equal.
      destruct p as [d|], p' as [d'|]; cbn [Date.opt_eqb] in H;
        try discriminate; [|reflexivity].
      apply date_eqb_eq in H. subst. reflexivity.
    - intros H. injection H as -> ->. split; [reflexivity|].
      destruct p' as [d|]; cbn [Date.opt_eqb]; [|reflexivity].
      apply date_eqb_eq. reflexivity.
Qed.

Lemma group_step_get
    (g : Dict.t (string * option Date.date) (list CandidateValue))
    (c : CandidateValue) (k : string * option Date.date) :
    Dict.get key_eqb (group_step g c) k
    = if key_eqb (key_of c) k
      then Some (match Dict.get key_eqb g k with
                 | Some l => l ++ [c]
                 | None => [c]
                 end)
      else Dict.get key_eqb g k.
Proof.
    unfold group_step.
    destruct (key_eqb (key_of c) k) eqn:E.
    - apply key_eqb_eq in E. subst k.
      destruct (Dict.get key_eqb g (key_of c));
        rewrite (get_set _ _ key_eqb key_eqb_eq),
          (keq_refl _ key_eqb key_eqb_eq); reflexivity.
    - destruct (Dict.get key_eqb g (key_of c));
        rewrite (get_set _ _ key_eqb key_eqb_eq), E; reflexivity.
Qed.

Lemma group_step_keys
    (g : Dict.t (string * option Date.date) (list CandidateValue))
    (c : CandidateValue) :
    NoDup (Dict.keys g) -> NoDup (Dict.keys (group_step g c)).
Proof.
    intros H. unfold group_step.
    destruct (Dict.get key_eqb g (key_of c));
      apply (keys_set_nodup _ _ key_eqb key_eqb_eq); exact H.
Qed.

Lemma group_step_values
    (g : Dict.t (string * option Date.date) (list CandidateValue))
    (c : CandidateValue) :
    Permutation (List.concat (Dict.values (group_step g c)))
                (List.concat (Dict.values g) ++ [c]).
Proof.
    unfold group_step.
    destruct (Dict.get key_eqb g (key_of c)) as [l|] eqn:E.
    - destruct (values_set_old _ _ key_eqb g (key_of c) l (l ++ [c]) E)
        as [l1 [l2 [E1 E2]]].
      rewrite E1, E2, !concat_app. cbn [List.concat].
      rewrite <- !app_assoc. apply Permutation_app_head.
      apply Permutation_app_head. apply Permutation_app_comm.
    - rewrite (values_set_new _ _ key_eqb g (key_of c) [c] E).
      rewrite concat_app. cbn [List.concat app]. apply Permutation_refl.
Qed.

Lemma fold_group_spec (cs : list CandidateValue) :
    forall g0,
      let g := fold_left group_step cs g0 in
      (NoDup (Dict.keys g0) -> NoDup (Dict.keys g))
      /\ (forall k,
             Dict.get key_eqb g k
             = match Dict.get key_eqb g0 k, with_key k cs with
               | None, [] => None
               | None, l => Some l
               | Some l0, l => Some (l0 ++ l)
               end)
      /\ Permutation (List.concat (Dict.values g))
                     (List.concat (Dict.values g0) ++ cs).
Proof.
    induction cs as [|c cs IH]; intros g0; cbn [fold_left].
    - split; [auto|]. split.
      + intros k. cbn [with_key filter].
        destruct (Dict.get key_eqb g0 k); [rewrite app_nil_r|]; reflexivity.
      + rewrite app_nil_r. apply Permutation_refl.
    - destruct (IH (group_step g0 c)) as [Hn [Hg Hp]]. cbv zeta in *.
      split; [|split].
      + intros H. apply Hn. apply group_step_keys. exact H.
      + intros k. rewrite Hg, group_step_get.
        unfold with_key. cbn [filter]. fold (with_key k cs).
        destruct (key_eqb (key_of c) k).
        * destruct (Dict.get key_eqb g0 k) as [l0|].
          -- rewrite <- app_assoc. reflexivity.
          -- reflexivity.
        * reflexivity.
      + eapply Permutation_trans; [exact Hp|].
        eapply Permutation_trans.
        * apply Permutation_app_tail. apply group_step_values.
        * rewrite <- app_assoc. apply Permutation_refl.
Qed.

Lemma group_candidates_fold (cs : list CandidateValue) :
    _group_candidates cs = fold_left group_step cs [].
Proof. reflexivity. Qed.

  (** The groups: distinct keys, each group the candidates of its key in
      the order of the input, all candidates placed. *)
Lemma group_candidates_spec (cs : list CandidateValue) :
    NoDup (Dict.keys (_group_candidates cs))
    /\ (forall k l, In (k, l) (_group_candidates cs) ->
          l = with_key k cs /\ l <> [])
    /\ Permutation (List.concat (Dict.values (_group_candidates cs))) cs.
Proof.
    rewrite group_candidates_fold.
    destruct (fold_group_spec cs []) as [Hn [Hg Hp]]. cbv zeta in *.
    assert (Hnd : NoDup (Dict.keys (fold_left group_step cs [])))
      by (apply Hn; constructor).
    split; [exact Hnd|]. split; [|exact Hp].
    intros k l Hin.
    apply (in_get _ _ key_eqb key_eqb_eq _ _ _ Hnd) in Hin.
    rewrite Hg in Hin. cbn [Dict.get] in Hin.
    destruct (with_key k cs) as [|x xs]; [discriminate|].
    injection Hin as <-. split; [reflexivity|discriminate].
Qed.

Lemma with_key_in (k : string * option Date.date)
    (cs : list CandidateValue) (c : CandidateValue) :
    In c (with_key k cs) <-> In c cs /\ key_of c = k.
Proof.
    unfold with_key. rewrite filter_In, key_eqb_eq. reflexivity.
Qed.

Variable fmt : Dec.Decimal -> string.
Variable tolerance : Dec.Decimal.
Variable uuid : nat -> string.

Lemma validate_candidate_raises (n : nat) (c : CandidateValue)
    (all : list CandidateValue) (e : exn) :
    _validate_candidate fmt tolerance uuid n c all = Raise e ->
    e = ValueError /\ has_prior_year c = false.
Proof.
    unfold _validate_candidate.
    destruct (range_check_returns fmt c all) as [k Hk]. rewrite Hk.
    cbn [bind].
    destruct (_check_yoy_delta fmt c all) as [y|e'] eqn:Hy; cbn [bind];
      [discriminate|].
    intros H. injection H as <-.
    apply yoy_check_raises in Hy. destruct Hy as [-> [d [Hp Hv]]].
    split; [reflexivity|]. unfold has_prior_year. rewrite Hp. exact Hv.
Qed.

Lemma validate_candidate_id (n : nat) (c : CandidateValue)
    (all : list CandidateValue) (r : ValidationResult) :
    _validate_candidate fmt tolerance uuid n c all = Ok r ->
    v_candidate_id r = candidate_id c.
Proof.
    unfold _validate_candidate.
    destruct (_check_range_bounds fmt c all); cbn [bind]; [|discriminate].
    destruct (_check_yoy_delta fmt c all); cbn [bind]; [|discriminate].
    intros H. injection H as <-. reflexivity.
Qed.

Lemma validate_each_spec (cs all : list CandidateValue) :
    forall n,
      (Forall (fun c => has_prior_year c = true) cs ->
       exists rs,
         validate_each fmt tolerance uuid cs all n
         = Ok (rs, (n + List.length cs)%nat)
         /\ map v_candidate_id rs = map candidate_id cs)
      /\ (forall e,
             validate_each fmt tolerance uuid cs all n = Raise e ->
             e = ValueError
             /\ Exists (fun c => has_prior_year c = false) cs).
Proof.
    induction cs as [|c cs IH]; intros n; cbn [validate_each].
    - split; [|discriminate]. intros _. exists [].
      rewrite Nat.add_0_r. auto.
    - destruct (IH (S n)) as [IHok IHraise]. split.
      + intros H. inversion H as [|? ? Hc Hcs]; subst.
        destruct (validate_candidate_returns fmt tolerance uuid n c all)
          as [r Hr].
        { unfold has_prior_year in Hc.
          destruct (period_end_date c); [exact Hc|exact I]. }
        rewrite Hr. cbn [bind].
        destruct (IHok Hcs) as [rs [Hrs Hids]].
        rewrite Hrs. cbn [bind fst snd].
        exists (r :: rs). split.
        * cbn [List.length]. rewrite Nat.add_succ_r. reflexivity.
        * cbn [map]. rewrite Hids, (validate_candidate_id _ _ _ _ Hr).
          reflexivity.
      + intros e.
        destruct (_validate_candidate fmt tolerance uuid n c all)
          as [r|e'] eqn:Hr; cbn [bind].
        * destruct (validate_each fmt tolerance uuid cs all (S n))
            as [rs|e''] eqn:Hrs; cbn [bind]; [discriminate|].
          intros H. injection H as <-.
          destruct (IHraise e'' eq_refl) as [-> Hex].
          split; [reflexivity|]. apply Exists_cons_tl. exact Hex.
        * intros H. injection H as <-.
          apply validate_candidate_raises in Hr. destruct Hr as [-> Hb].
          split; [reflexivity|]. apply Exists_cons_hd. exact Hb.
Qed.

Lemma validate_groups_spec (groups : list (list CandidateValue))
    (all : list CandidateValue) :
    forall n,
      (Forall (fun c => has_prior_year c = true) (List.concat groups) ->
       exists rs n',
         validate_groups fmt tolerance uuid groups all n = Ok (rs, n')
         /\ map v_candidate_id rs = map candidate_id (List.concat groups))
      /\ (forall e,
             validate_groups fmt tolerance uuid groups all n = Raise e ->
             e = ValueError
             /\ Exists (fun c => has_prior_year c = false)
                       (List.concat groups)).
Proof.
    induction groups as [|g groups IH]; intros n;
      cbn [validate_groups List.concat].
    - split; [|discriminate]. intros _. exists [], n. auto.
    - destruct (validate_each_spec g all n) as [Hok Hraise]. split.
      + intros H. apply Forall_app in H. destruct H as [Hg Hrest].
        destruct (Hok Hg) as [rs [Hrs Hids]]. rewrite Hrs. cbn [bind snd fst].
        destruct (IH (n + List.length g)%nat) as [IHok _].
        destruct (IHok Hrest) as [rs' [n' [Hrs' Hids']]].
        rewrite Hrs'. cbn [bind fst snd].
        exists (rs ++ rs'), n'. split; [reflexivity|].
        rewrite !map_app, Hids, Hids'. reflexivity.
      + intros e.
        destruct (validate_each fmt tolerance uuid g all n) as [rs|e'] eqn:Hrs;
          cbn [bind].
        * destruct (IH (snd rs)) as [_ IHraise].
          destruct (validate_groups fmt tolerance uuid groups all (snd rs))
            as [rs'|e''] eqn:Hrs'; cbn [bind]; [discriminate|].
          intros H. injection H as <-.
          destruct (IHraise e'' eq_refl) as [-> Hex].
          split; [reflexivity|]. apply Exists_app. right. exact Hex.
        * intros H. injection H as <-.
          destruct (Hraise e' eq_refl) as [-> Hex].
          split; [reflexivity|]. apply Exists_app. left. exact Hex.
Qed.
End GroupFacts.





(* ===================================================================== *)
(** * The adjudicator on a whole batch *)
(* ===================================================================== *)

Section BatchAdjudication.
Import schemas llm_adjudicator.

Lemma find_candidate_by_id_in (cs : list CandidateValue) (id : string)
    (c : CandidateValue) :
    _find_candidate_by_id cs id = Some c -> In c cs.
Proof.
    induction cs as [|x cs IH]; cbn [_find_candidate_by_id]; [discriminate|].
    destruct (String.eqb (candidate_id x) id).
    - intros H. injection H as <-. left. reflexivity.
    - intros H. right. apply IH. exact H.
Qed.

Lemma candidate_to_metric_made (c : CandidateValue) (r : option string)
    (k : option confidence) (v : option Dec.Decimal) :
    made_from (_candidate_to_metric c r k v) c.
Proof. repeat split. Qed.

Variable llm_client : option (string -> result string).
Variable json_loads : string -> result adjudication.
Variable prompt_of : list CandidateValue -> list ValidationResult -> string.

Lemma fallback_made (first : CandidateValue) (others : list CandidateValue) :
    exists m c,
      _fallback_adjudication (first :: others) = Ok m
      /\ In c (first :: others) /\ made_from m c.
Proof.
    exists (_candidate_to_metric (max_loop first others) None None None),
      (max_loop first others).
    split; [reflexivity|]. split; [apply max_loop_in|].
    apply candidate_to_metric_made.
Qed.

  (** The loop body returns for a group that is not empty, whatever the
      client and the decoder do, with a metric made from a candidate of the
      group. *)
Lemma adjudicate_group_returns (first : CandidateValue)
    (others : list CandidateValue) (vals : list ValidationResult) :
    exists m c,
      adjudicate_group llm_client json_loads prompt_of (first :: others) vals
      = Ok m
      /\ In c (first :: others) /\ made_from m c.
Proof.
    destruct (fallback_made first others) as [mf [cf [Hf [Hcf Hmf]]]].
    unfold adjudicate_group.
    destruct (negb _); [exists mf, cf; auto|].
    destruct (_adjudicate_with_llm llm_client json_loads prompt_of
                (first :: others) (relevant (first :: others) vals))
      as [m|e] eqn:E; [|exists mf, cf; auto].
    unfold _adjudicate_with_llm in E.
    destruct llm_client as [client|].
    - destruct (client _) as [response|]; cbn [bind] in E; [|discriminate E].
      destruct (_parse_llm_response json_loads response) as [adj|];
        cbn [bind] in E; [|discriminate E].
      destruct (_find_candidate_by_id (first :: others)
                  (selected_candidate_id adj)) as [sel|] eqn:Es.
      + injection E as <-. eexists. exists sel. split; [reflexivity|].
        split; [eapply find_candidate_by_id_in; exact Es|].
        apply candidate_to_metric_made.
      + rewrite Hf in E. injection E as <-. exists mf, cf. auto.
    - rewrite Hf in E. injection E as <-. exists mf, cf. auto.
Qed.

Lemma each_group_returns (groups : list (list CandidateValue))
    (vals : list ValidationResult) :
    Forall (fun g => g <> []) groups ->
    exists ms,
      each_group llm_client json_loads prompt_of groups vals = Ok ms
      /\ Forall2 (fun m g => exists c, In c g /\ made_from m c) ms groups.
Proof.
    induction 1 as [|g groups Hg Hgs IH]; cbn [each_group].
    - exists []. split; [reflexivity|constructor].
    - destruct g as [|first others]; [contradiction|].
      destruct (adjudicate_group_returns first others vals)
        as [m [c [Hm [Hc Hmc]]]].
      destruct IH as [ms [Hms Hall]].
      rewrite Hm. cbn [bind]. rewrite Hms. cbn [bind].
      exists (m :: ms). split; [reflexivity|].
      constructor; [exists c; auto|exact Hall].
Qed.

Lemma forall2_values (A B C : Type) (P : A -> C -> Prop)
    (Q : A -> B * C -> Prop) (l : list A) (d : list (B * C)) :
    (forall a kv, In kv d -> P a (snd kv) -> Q a kv) ->
    Forall2 P l (map snd d) -> Forall2 Q l d.
Proof.
    revert l. induction d as [|kv d IH]; intros l HPQ H; cbn [map] in H.
    - inversion H. constructor.
    - inversion H as [|a ? l' ? Ha Hl]; subst. constructor.
      + apply HPQ; [left; reflexivity|exact Ha].
      + apply IH; [|exact Hl]. intros a' kv' Hin. apply HPQ. right. exact Hin.
Qed.
End BatchAdjudication.

(* ===================================================================== *)
(** * More on the derived metrics *)
(* ===================================================================== *)

Section DerivedFacts.
Import schemas derived_metrics.

Lemma sub_sign (x y : Dec.Decimal) :
    Z.sgn (Dec.coef (Dec.sub x y))
    = Z.sgn (fst (fst (Dec.align x y)) - snd (fst (Dec.align x y))).
Proof.
    unfold Dec.sub. destruct (Dec.align x y) as [[a b] e]. cbn [fst snd].
    apply fix_sign.
Qed.

Lemma align_swap (x y : Dec.Decimal) :
    Dec.align y x
    = (snd (fst (Dec.align x y)), fst (fst (Dec.align x y)),
       snd (Dec.align x y)).
Proof.
    unfold Dec.align. cbn [fst snd].
    rewrite (Z.min_comm (Dec.dexp y) (Dec.dexp x)). reflexivity.
Qed.

Lemma abs_sign (x : Dec.Decimal) :
    Dec.is_zero x = false -> Z.sgn (Dec.coef (Dec.abs x)) = 1.
Proof.
    unfold Dec.is_zero, Dec.abs. intros H. apply Z.eqb_neq in H.
    rewrite fix_sign. apply Z.sgn_pos. lia.
Qed.

Lemma find_app (A : Type) (f : A -> bool) (l1 l2 : list A) :
    find f (l1 ++ l2)
    = match find f l1 with
      | Some x => Some x
      | None => find f l2
      end.
Proof.
    induction l1 as [|x l1 IH]; cbn [app find]; [reflexivity|].
    destruct (f x); [reflexivity|exact IH].
Qed.

Lemma string_eqb_eq' (a b : string) : String.eqb a b = true <-> a = b.
Proof. apply String.eqb_eq. Qed.

  (** What filing one metric does to the entry of a name and a period. *)
Lemma lookup_filed (d : metrics_dict) (name period : string)
    (metric : FinancialMetric) (y : Date.date) :
    m_period_end_date metric = Some y ->
    forall k p,
      name = name_key metric -> period = Text.str (Date.year y) ->
      lookup
        (Dict.set String.eqb d name
           (Dict.set String.eqb
              (match Dict.get String.eqb d name with
               | Some i => i
               | None => []
               end) period metric)) k p
      = if files_under k p metric then Some metric else lookup d k p.
Proof.
    intros Hy k p -> ->. unfold lookup, files_under. rewrite Hy.
    rewrite (get_set _ _ String.eqb string_eqb_eq').
    destruct (String.eqb (name_key metric) k) eqn:E; cbn [andb].
    - apply String.eqb_eq in E. subst k.
      rewrite (get_set _ _ String.eqb string_eqb_eq').
      destruct (String.eqb (Text.str (Date.year y)) p); [reflexivity|].
      destruct (Dict.get String.eqb d (name_key metric)); reflexivity.
    - reflexivity.
Qed.

Lemma create_loop_spec (metrics : list FinancialMetric) :
    forall d0 d,
      create_loop metrics d0 = Ok d ->
      forall k p,
        lookup d k p
        = match find (files_under k p) (rev metrics) with
          | Some m => Some m
          | None => lookup d0 k p
          end.
Proof.
    induction metrics as [|metric rest IH]; intros d0 d H k p;
      cbn [create_loop] in H.
    - injection H as <-. reflexivity.
    - unfold year_of in H.
      destruct (m_period_end_date metric) as [y|] eqn:Hy; cbn [bind] in H;
        [|discriminate H].
      rewrite (IH _ _ H k p). cbn [rev]. rewrite find_app. cbn [find].
      destruct (find (files_under k p) (rev rest)); [reflexivity|].
      etransitivity;
        [exact (lookup_filed d0 _ _ metric y Hy k p eq_refl eq_refl)|].
      destruct (files_under k p metric); reflexivity.
Qed.

Lemma create_loop_raises (metrics : list FinancialMetric) :
    forall d0,
      (Forall (fun m => m_period_end_date m <> None) metrics ->
       exists d, create_loop metrics d0 = Ok d)
      /\ (forall e, create_loop metrics d0 = Raise e ->
            e = AttributeError
            /\ Exists (fun m => m_period_end_date m = None) metrics).
Proof.
    induction metrics as [|metric rest IH]; intros d0; cbn [create_loop].
    - split; [intros _; eexists; reflexivity|discriminate].
    - unfold year_of.
      destruct (m_period_end_date metric) as [y|] eqn:Hy; cbn [bind].
      + destruct (IH (Dict.set String.eqb d0
                        (Text.replace_char " " "_"
                           (Text.lower (m_metric_name metric)))
                        (Dict.set String.eqb
                           (match Dict.get String.eqb d0
                                    (Text.replace_char " " "_"
                                       (Text.lower (m_metric_name metric)))
                            with
                            | Some i => i
                            | None => []
                            end)
                           (Text.str (Date.year y)) metric)))
          as [IHok IHraise].
        split.
        * intros H. inversion H; subst. apply IHok. assumption.
        * intros e He. destruct (IHraise e He) as [-> Hex].
          split; [reflexivity|]. apply Exists_cons_tl. exact Hex.
      + split.
        * intros H. inversion H; subst. congruence.
        * intros e He. injection He as <-. split; [reflexivity|].
          apply Exists_cons_hd. exact Hy.
Qed.

Variable config : ValidationConfig.
Variables margin_max margin_min : Dec.Decimal.
Variable iter_set : list string -> list string.

Lemma period_loop_derived (metric_key metric_name : string)
    (by_period : Dict.t string FinancialMetric) (rest : list string) :
    forall prior_period,
      Forall derived
             (fst (period_loop config metric_key metric_name by_period
                               prior_period rest)).
Proof.
    induction rest as [|current rest IH]; intros prior; cbn [period_loop];
      [constructor|].
    specialize (IH current).
    destruct (period_loop config metric_key metric_name by_period current
                          rest) as [ms ws].
    cbn [fst] in IH.
    destruct (Dict.get String.eqb by_period current) as [cm|]; [|exact IH].
    destruct (Dict.get String.eqb by_period prior) as [pm|]; [|exact IH].
    destruct (_calculate_growth_rate config (m_value cm) (m_value pm))
      as [[g|] w]; cbn [fst]; [|exact IH].
    constructor; [|exact IH].
    unfold derived, growth_metric. cbn. auto.
Qed.

Lemma target_loop_derived (d : metrics_dict)
    (targets : list (string * string)) :
    Forall derived (fst (target_loop config targets d)).
Proof.
    induction targets as [|[metric_key metric_name] targets IH];
      cbn [target_loop]; [constructor|].
    destruct (target_loop config targets d) as [ms' ws']. cbn [fst] in IH.
    destruct (Dict.get String.eqb d metric_key) as [by_period|]; [|exact IH].
    destruct (sorted Text.leb (Dict.keys by_period)) as [|first periods];
      [exact IH|].
    pose proof (period_loop_derived metric_key metric_name by_period periods
                  first) as H.
    destruct (period_loop config metric_key metric_name by_period first
                          periods) as [ms ws].
    cbn [fst] in *. apply Forall_app. split; assumption.
Qed.

Lemma ratio_of_derived (n dn : option FinancialMetric)
    (id name formula : string) (pct : bool) :
    Forall derived
           (fst (ratio_of margin_max margin_min n dn id name formula pct)).
Proof.
    unfold ratio_of. destruct n as [n|]; [|constructor].
    destruct dn as [dn|]; [|constructor].
    destruct (_calculate_ratio margin_max margin_min (m_value n) (m_value dn)
                               pct) as [[r|] w]; cbn [fst]; [|constructor].
    constructor; [|constructor].
    unfold derived, _create_ratio_metric. cbn.
    destruct pct; auto.
Qed.

Lemma both_derived (a b : list FinancialMetric * list string) :
    Forall derived (fst a) -> Forall derived (fst b) ->
    Forall derived (fst (both a b)).
Proof.
    intros Ha Hb. unfold both. cbn [fst]. apply Forall_app. auto.
Qed.

Lemma each_period_derived
    (body : string -> list FinancialMetric * list string) (d : metrics_dict) :
    (forall period, Forall derived (fst (body period))) ->
    Forall derived (fst (each_period iter_set body d)).
Proof.
    intros Hb. unfold each_period.
    assert (H : forall l acc,
               Forall derived (fst acc) ->
               Forall derived
                      (fst (fold_left (fun acc period =>
                                         both acc (body period)) l acc))).
    { induction l as [|p l IH]; intros acc Hacc; cbn [fold_left];
        [exact Hacc|].
      apply IH. apply both_derived; [exact Hacc|apply Hb]. }
    apply H. constructor.
Qed.
End DerivedFacts.





(** X22.  The lookup dictionary files a metric under its lower-cased name with
    underscores for spaces and under the year of its period end date; of
    several metrics with the same name and year the last one stays.  The only
    exception is the AttributeError of a metric without a period end date. *)
Theorem metrics_dict_keeps_last :
  forall metrics : list schemas.FinancialMetric,
    (Forall (fun m => schemas.m_period_end_date m <> None) metrics ->
     exists d, derived_metrics._create_metrics_dict metrics = Ok d)
    /\ (forall d, derived_metrics._create_metrics_dict metrics = Ok d ->
          forall name period,
            derived_metrics.lookup d name period
            = find (derived_metrics.files_under name period) (rev metrics))
    /\ (forall e, derived_metrics._create_metrics_dict metrics = Raise e ->
          e = AttributeError
          /\ Exists (fun m => schemas.m_period_end_date m = None) metrics).
Proof.
  intros metrics. unfold derived_metrics._create_metrics_dict.
  destruct (create_loop_raises metrics []) as [Hok Hraise].
  split; [exact Hok|]. split; [|exact Hraise].
  intros d H name period.
  rewrite (create_loop_spec metrics [] d H name period).
  destruct (find _ (rev metrics)); reflexivity.
Qed.

(** Of the two revenue metrics, each is found under its own year. *)
Lemma metrics_dict_keeps_last_witness :
  exists d,
    derived_metrics._create_metrics_dict examples.revenue_two_years = Ok d
    /\ derived_metrics.lookup d "revenue" "2022"
       = Some (examples.metric "revenue" 1000 examples.end_2022).
Proof.
  destruct (metrics_dict_keeps_last examples.revenue_two_years)
    as [Hok [Hget _]].
  destruct Hok as [d Hd]; [repeat constructor; discriminate|].
  exists d. split; [exact Hd|].
  rewrite (Hget d Hd "revenue" "2022"). reflexivity.
Defined.


(* ===================================================================== *)
(** * More on the periods and the labels *)
(* ===================================================================== *)

Section MorePeriodFacts.
Import periods.

Lemma make_valid (y m d : Z) (dt : Date.date) :
    Date.make y m d = Ok dt -> dt = Date.mk y m d /\ Date.valid y m d = true.
Proof.
    unfold Date.make. destruct (Date.valid y m d); [|discriminate].
    intros H. injection H as <-. auto.
Qed.

Lemma make_raises (y m d : Z) (e : exn) :
    Date.make y m d = Raise e -> e = ValueError.
Proof.
    unfold Date.make. destruct (Date.valid y m d); [discriminate|].
    intros H. injection H as <-. reflexivity.
Qed.

  (** An exception of the pattern loop comes from the body, run on the
      groups of a match of one of the patterns. *)
Lemma first_pattern_raises (A : Type) (patterns : list Re.regex)
    (body : list (option string) -> result (option A)) (label : string)
    (e : exn) :
    first_pattern patterns body label = Raise e ->
    exists r m, In r patterns /\ Re.search true r label = Some m
                /\ body (Re.groups m) = Raise e.
Proof.
    induction patterns as [|r rest IH]; cbn [first_pattern]; [discriminate|].
    destruct (Re.search true r label) as [m|] eqn:Es.
    - destruct (body (Re.groups m)) as [[x|]|e'] eqn:Eb; cbn [bind].
      + discriminate.
      + intros H. destruct (IH H) as [r' [m' [Hin Hr]]].
        exists r', m'. split; [right; exact Hin|exact Hr].
      + intros H. injection H as <-. exists r, m.
        split; [left; reflexivity|auto].
    - intros H. destruct (IH H) as [r' [m' [Hin Hr]]].
      exists r', m'. split; [right; exact Hin|exact Hr].
Qed.

Lemma quarter_items (q : Z) (sm em : Z * Z) :
    item quarter_starts q = Ok sm -> item quarter_ends q = Ok em ->
    1 <= q <= 4 /\ sm = (3 * q - 2, 1) /\ fst em = 3 * q.
Proof.
    unfold item, quarter_starts, quarter_ends. cbn [Dict.get].
    destruct (Z.eqb_spec 1 q) as [<-|];
      [intros H1 H2; injection H1 as <-; injection H2 as <-;
       cbn [fst]; repeat split; lia|].
    destruct (Z.eqb_spec 2 q) as [<-|];
      [intros H1 H2; injection H1 as <-; injection H2 as <-;
       cbn [fst]; repeat split; lia|].
    destruct (Z.eqb_spec 3 q) as [<-|];
      [intros H1 H2; injection H1 as <-; injection H2 as <-;
       cbn [fst]; repeat split; lia|].
    destruct (Z.eqb_spec 4 q) as [<-|];
      [intros H1 H2; injection H1 as <-; injection H2 as <-;
       cbn [fst]; repeat split; lia|].
    discriminate.
Qed.

Lemma quarter_item_raises (q : Z) (e : exn) :
    item quarter_starts q = Raise e \/ item quarter_ends q = Raise e ->
    e = KeyError /\ ~ 1 <= q <= 4.
Proof.
    unfold item, quarter_starts, quarter_ends. cbn [Dict.get].
    destruct (Z.eqb_spec 1 q); [intros [H|H]; discriminate H|].
    destruct (Z.eqb_spec 2 q); [intros [H|H]; discriminate H|].
    destruct (Z.eqb_spec 3 q); [intros [H|H]; discriminate H|].
    destruct (Z.eqb_spec 4 q); [intros [H|H]; discriminate H|].
    intros [H|H]; injection H as <-; split; try reflexivity; lia.
Qed.

Lemma parse_fiscal_year_dates (label : string) (p : PeriodInfo) :
    _parse_fiscal_year label = Ok (Some p) ->
    p_type p = fiscal_year_t
    /\ original_label p = label
    /\ valid_date (start_date p) = true /\ valid_date (end_date p) = true
    /\ Date.year (end_date p) = fiscal_year p
    /\ (Date.year (start_date p) < Date.year (end_date p)
        \/ (Date.month (start_date p) = 1 /\ Date.day (start_date p) = 1
            /\ Date.month (end_date p) = 12 /\ Date.day (end_date p) = 31)).
Proof.
    unfold _parse_fiscal_year. intros H.
    apply first_pattern_inv in H. destruct H as [r [m [_ [_ H]]]].
    destruct (Re.groups m) as [|[g0|] [|[g1|] [|[g2|] [|? ?]]]];
      try discriminate H.
    - step_binds H. injection H as <-. dates_by make_valid.
      unfold valid_date. period_fields. repeat split; try assumption. left. lia.
    - step_binds H. injection H as <-. dates_by make_valid.
      unfold valid_date. period_fields. repeat split; try assumption.
      right. auto.
    - step_binds H. injection H as <-. dates_by make_valid.
      unfold valid_date. period_fields. repeat split; try assumption. left. lia.
Qed.

Lemma parse_quarter_dates (label : string) (p : PeriodInfo) :
    _parse_quarter label = Ok (Some p) ->
    p_type p = quarter_t
    /\ original_label p = label
    /\ valid_date (start_date p) = true /\ valid_date (end_date p) = true
    /\ Date.year (end_date p) = fiscal_year p
    /\ quarter p = Some ((Date.month (end_date p) - 1) / 3 + 1)
    /\ before (start_date p) (end_date p).
Proof.
    unfold _parse_quarter. intros H.
    apply first_pattern_inv in H. destruct H as [r [m [_ [_ H]]]].
    destruct (Re.groups m) as [|[g0|] [|[g1|] [|[g2|] [|? ?]]]];
      try discriminate H.
    - step_binds H. injection H as <-.
      match goal with
      | H1 : item quarter_starts _ = Ok _,
        H2 : item quarter_ends _ = Ok ?x |- _ =>
          destruct (quarter_items _ _ _ H1 H2) as [Hq [-> Hem]];
          destruct x as [xm xd]; cbn [fst snd] in *; subst xm
      end.
      dates_by make_valid. unfold valid_date, before. period_fields.
      repeat split; try assumption.
      + f_equal.
        assert (E' : 3 * Text.int g0 - 1 = 2 + (Text.int g0 - 1) * 3) by lia.
        rewrite E', Z.div_add by lia. change (2 / 3) with 0. lia.
      + right. split; [reflexivity|]. left. lia.
    - step_binds H. injection H as <-. dates_by make_valid.
      match goal with
      | H : month_of _ = Some _ |- _ => apply month_of_range in H
      end.
      unfold valid_date, before. period_fields.
      repeat split; try assumption.
      destruct (3 <? z) eqn:E3; [right; split; [reflexivity|left; lia]|].
      left. lia.
Qed.

Lemma parse_half_year_dates (label : string) (p : PeriodInfo) :
    _parse_half_year label = Ok (Some p) ->
    p_type p = half_year_t
    /\ original_label p = label
    /\ valid_date (start_date p) = true /\ valid_date (end_date p) = true
    /\ Date.year (end_date p) = fiscal_year p
    /\ (half p = Some 1 <-> Date.month (end_date p) <= 6)
    /\ before (start_date p) (end_date p).
Proof.
    unfold _parse_half_year. intros H.
    apply first_pattern_inv in H. destruct H as [r [m [_ [_ H]]]].
    destruct (Re.groups m) as [|[g0|] [|[g1|] [|[g2|] [|? ?]]]];
      try discriminate H.
    - step_binds H. injection H as <-.
      destruct (Z.eqb_spec (Text.int g0) 1) as [Eh|Eh]; dates_by make_valid;
        unfold valid_date, before; period_fields; repeat split;
        try assumption; try lia; try (intros _; rewrite Eh; reflexivity);
        try (intros Hh; injection Hh as Hh; contradiction);
        right; split; try reflexivity; left; lia.
    - step_binds H. injection H as <-. dates_by make_valid.
      match goal with
      | H : month_of _ = Some _ |- _ => apply month_of_range in H
      end.
      unfold valid_date, before. period_fields.
      repeat split; try assumption.
      + destruct (Z.leb_spec z 6); [lia|discriminate].
      + destruct (Z.leb_spec z 6); [reflexivity|lia].
      + destruct (6 <? z) eqn:E6; [right; split; [reflexivity|left; lia]|].
        left. lia.
Qed.

Lemma parse_fiscal_year_raises (label : string) (e : exn) :
    _parse_fiscal_year label = Raise e -> e = ValueError.
Proof.
    unfold _parse_fiscal_year. intros H.
    apply first_pattern_raises in H. destruct H as [r [m [_ [_ H]]]].
    destruct (Re.groups m) as [|[g0|] [|[g1|] [|[g2|] [|? ?]]]];
      try discriminate H;
      raise_binds H; try discriminate H;
      match goal with
      | E : Date.make _ _ _ = Raise _ |- _ => exact (make_raises _ _ _ _ E)
      end.
Qed.

Lemma parse_half_year_raises (label : string) (e : exn) :
    _parse_half_year label = Raise e -> e = ValueError.
Proof.
    unfold _parse_half_year. intros H.
    apply first_pattern_raises in H. destruct H as [r [m [_ [_ H]]]].
    destruct (Re.groups m) as [|[g0|] [|[g1|] [|[g2|] [|? ?]]]];
      try discriminate H;
      raise_binds H; try discriminate H;
      match goal with
      | E : Date.make _ _ _ = Raise _ |- _ => exact (make_raises _ _ _ _ E)
      | E : (if ?b then _ else _) = Raise _ |- _ =>
          destruct b; exact (make_raises _ _ _ _ E)
      end.
Qed.

Lemma parse_quarter_raises (label : string) (e : exn) :
    _parse_quarter label = Raise e ->
    e = ValueError
    \/ (e = KeyError
        /\ exists r m g0 g1,
            In r QUARTER_PATTERNS /\ Re.search true r label = Some m
            /\ Re.groups m = [Some g0; Some g1]
            /\ ~ 1 <= Text.int g0 <= 4).
Proof.
    unfold _parse_quarter. intros H.
    apply first_pattern_raises in H. destruct H as [r [m [Hin [Hs H]]]].
    destruct (Re.groups m) as [|[g0|] [|[g1|] [|[g2|] [|? ?]]]] eqn:Eg;
      try discriminate H;
      raise_binds H; try discriminate H;
      try (left;
           match goal with
           | E : Date.make _ _ _ = Raise _ |- _ => exact (make_raises _ _ _ _ E)
           end);
      right;
      match goal with
      | E : item quarter_starts _ = Raise _ |- _ =>
          destruct (quarter_item_raises _ _ (or_introl E)) as [-> Hq]
      | E : item quarter_ends _ = Raise _ |- _ =>
          destruct (quarter_item_raises _ _ (or_intror E)) as [-> Hq]
      end;
      (split; [reflexivity|]); exists r, m, g0, g1; auto.
Qed.

  (** ** Counting the year ends *)

Lemma md_eqb_eq (a b : Z * Z) : md_eqb a b = true <-> a = b.
Proof.
    destruct a as [a1 a2], b as [b1 b2]. unfold md_eqb. cbn [fst snd].
    rewrite andb_true_iff, !Z.eqb_eq. split.
    - intros [-> ->]. reflexivity.
    - intros H. injection H as -> ->. auto.
Qed.

Lemma md_eqb_sym (a b : Z * Z) : md_eqb a b = md_eqb b a.
Proof.
    unfold md_eqb. rewrite (Z.eqb_sym (fst a)), (Z.eqb_sym (snd a)).
    reflexivity.
Qed.

Lemma count_of_nonneg (md : Z * Z) (l : list (Z * Z)) : 0 <= count_of md l.
Proof. unfold count_of. lia. Qed.

Lemma count_of_app (md : Z * Z) (l1 l2 : list (Z * Z)) :
    count_of md (l1 ++ l2) = count_of md l1 + count_of md l2.
Proof.
    unfold count_of. rewrite filter_app, length_app. lia.
Qed.

Lemma count_of_one (md e : Z * Z) :
    count_of md [e] = if md_eqb e md then 1 else 0.
Proof.
    unfold count_of. cbn [filter]. rewrite (md_eqb_sym md e).
    destruct (md_eqb e md); reflexivity.
Qed.

Lemma count_of_pos (md : Z * Z) (l : list (Z * Z)) :
    0 < count_of md l <-> In md l.
Proof.
    unfold count_of. induction l as [|x l IH]; cbn [filter In].
    - cbn. lia.
    - destruct (md_eqb md x) eqn:E.
      + apply md_eqb_eq in E. subst x. cbn [List.length]. split; [auto|lia].
      + split.
        * intros H. right. apply IH. exact H.
        * intros [H|H]; [|apply IH; exact H].
          subst x. rewrite (proj2 (md_eqb_eq md md) eq_refl) in E.
          discriminate E.
Qed.

Lemma get_in_keys (d : Dict.t (Z * Z) Z) (k : Z * Z) (n : Z) :
    Dict.get md_eqb d k = Some n -> In k (Dict.keys d).
Proof.
    intros H. apply (get_in _ _ md_eqb md_eqb_eq) in H.
    unfold Dict.keys. apply (in_map fst) in H. exact H.
Qed.

  (** The dictionary of counts after some more elements. *)
Lemma counter_fold (l : list (Z * Z)) :
    forall (c : Dict.t (Z * Z) Z) (seen : list (Z * Z)),
      NoDup (Dict.keys c) ->
      (forall k, Dict.get md_eqb c k
                 = if 0 <? count_of k seen then Some (count_of k seen)
                   else None) ->
      NoDup (Dict.keys (fold_left count_step l c))
      /\ (forall k, Dict.get md_eqb (fold_left count_step l c) k
                    = if 0 <? count_of k (seen ++ l)
                      then Some (count_of k (seen ++ l)) else None)
      /\ exists more,
          Dict.keys (fold_left count_step l c) = Dict.keys c ++ more.
Proof.
    induction l as [|a l IH]; intros c seen Hn Hget; cbn [fold_left].
    - rewrite app_nil_r. split; [exact Hn|]. split; [exact Hget|].
      exists []. rewrite app_nil_r. reflexivity.
    - destruct (IH (count_step c a) (seen ++ [a])) as [H1 [H2 [more H3]]].
      + apply (keys_set_nodup _ _ md_eqb md_eqb_eq). exact Hn.
      + intros k. unfold count_step.
        rewrite (get_set _ _ md_eqb md_eqb_eq), count_of_app, count_of_one.
        pose proof (count_of_nonneg k seen) as Hk.
        destruct (md_eqb a k) eqn:E.
        * apply md_eqb_eq in E. subst a. rewrite (Hget k).
          destruct (Z.ltb_spec 0 (count_of k seen));
            destruct (Z.ltb_spec 0 (count_of k seen + 1)); try lia.
          -- reflexivity.
          -- f_equal. lia.
        * rewrite Z.add_0_r. apply Hget.
      + rewrite <- app_assoc in H2. cbn [app] in H2.
        split; [exact H1|]. split; [exact H2|].
        unfold count_step in H3 at 3.
        rewrite (keys_set _ _ md_eqb) in H3.
        destruct (existsb _ (Dict.keys c)).
        * exists more. exact H3.
        * exists ([a] ++ more). rewrite H3, <- app_assoc. reflexivity.
Qed.

Lemma counter_spec (ends : list (Z * Z)) :
    NoDup (Dict.keys (Counter ends))
    /\ (forall k, Dict.get md_eqb (Counter ends) k
                  = if 0 <? count_of k ends then Some (count_of k ends)
                    else None).
Proof.
    destruct (counter_fold ends [] []) as [H1 [H2 _]].
    - constructor.
    - intros k. reflexivity.
    - split; [exact H1|exact H2].
Qed.

  (** The key of an element that appears for the first time after [pre]
      follows the keys of [pre]. *)
Lemma counter_keys_first (pre post : list (Z * Z)) (md : Z * Z) :
    ~ In md pre ->
    exists more,
      Dict.keys (Counter (pre ++ md :: post))
      = Dict.keys (Counter pre) ++ md :: more.
Proof.
    intros Hnot. unfold Counter. rewrite fold_left_app. cbn [fold_left].
    fold (Counter pre).
    destruct (counter_spec pre) as [Hn Hget].
    destruct (counter_fold post (count_step (Counter pre) md) (pre ++ [md]))
      as [_ [_ [more H3]]].
    - apply (keys_set_nodup _ _ md_eqb md_eqb_eq). exact Hn.
    - intros k. unfold count_step.
      rewrite (get_set _ _ md_eqb md_eqb_eq), count_of_app, count_of_one.
      pose proof (count_of_nonneg k pre) as Hk.
      destruct (md_eqb md k) eqn:E.
      + apply md_eqb_eq in E. subst md. rewrite (Hget k).
        destruct (Z.ltb_spec 0 (count_of k pre));
          destruct (Z.ltb_spec 0 (count_of k pre + 1)); try lia.
        * reflexivity.
        * f_equal. lia.
      + rewrite Z.add_0_r. apply Hget.
    - exists more. rewrite H3. unfold count_step.
      rewrite (keys_set _ _ md_eqb).
      destruct (existsb _ (Dict.keys (Counter pre))) eqn:E.
      + apply (existsb_keq _ md_eqb md_eqb_eq) in E. exfalso.
        unfold Dict.keys in E. apply in_map_iff in E.
        destruct E as [[k n] [Ek Hin]]. cbn [fst] in Ek. subst k.
        apply (in_get _ _ md_eqb md_eqb_eq _ _ _ Hn) in Hin.
        rewrite (Hget md) in Hin.
        destruct (Z.ltb_spec 0 (count_of md pre)) as [Hpos|]; [|discriminate].
        apply count_of_pos in Hpos. contradiction.
      + rewrite <- app_assoc. reflexivity.
Qed.

  (** [max] returns the first of the items with the greatest count. *)
Lemma max_by_count_spec (rest : list ((Z * Z) * Z)) :
    forall (A0 : list ((Z * Z) * Z)) (best : (Z * Z) * Z)
           (B0 : list ((Z * Z) * Z)),
      (forall a, In a A0 -> snd a < snd best) ->
      (forall b, In b B0 -> snd b <= snd best) ->
      exists A B,
        A0 ++ best :: B0 ++ rest = A ++ max_by_count best rest :: B
        /\ (forall a, In a A -> snd a < snd (max_by_count best rest))
        /\ (forall b, In b B -> snd b <= snd (max_by_count best rest)).
Proof.
    induction rest as [|x rest IH]; intros A0 best B0 HA HB;
      cbn [max_by_count].
    - exists A0, B0. rewrite app_nil_r. auto.
    - destruct (Z.ltb_spec (snd best) (snd x)) as [Hlt|Hge].
      + destruct (IH (A0 ++ best :: B0) x []) as [A [B [E [H1 H2]]]].
        * intros a Hin. apply in_app_or in Hin.
          destruct Hin as [Hin|[<-|Hin]];
            [specialize (HA a Hin)|exact Hlt|specialize (HB a Hin)]; lia.
        * intros b [].
        * exists A, B. split; [|auto].
          rewrite <- E, <- app_assoc. reflexivity.
      + destruct (IH A0 best (B0 ++ [x])) as [A [B [E [H1 H2]]]].
        * exact HA.
        * intros b Hin. apply in_app_or in Hin.
          destruct Hin as [Hin|[<-|[]]]; [apply HB; exact Hin|lia].
        * exists A, B. split; [|auto].
          rewrite <- E, <- app_assoc. reflexivity.
Qed.

Lemma nodup_split_unique (A : Type) (x : A) (l1 : list A) :
    forall l2 l1' l2',
      NoDup (l1 ++ x :: l2) -> l1 ++ x :: l2 = l1' ++ x :: l2' -> l1 = l1'.
Proof.
    induction l1 as [|y l1 IH]; intros l2 l1' l2' Hn E.
    - destruct l1' as [|y' l1']; [reflexivity|].
      cbn [app] in E. injection E as <- E. exfalso.
      inversion Hn as [|? ? Hnot _]; subst. apply Hnot.
      apply in_or_app. right. left. reflexivity.
    - destruct l1' as [|y' l1']; cbn [app] in E.
      + injection E as -> E. exfalso.
        inversion Hn as [|? ? Hnot _]; subst. apply Hnot.
        apply in_or_app. right. left. reflexivity.
      + injection E as <- E. f_equal.
        inversion Hn; subst. eapply IH; eassumption.
Qed.

Lemma first_occurrence (x : Z * Z) (l : list (Z * Z)) :
    In x l -> exists pre post, l = pre ++ x :: post /\ ~ In x pre.
Proof.
    induction l as [|y l IH]; intros Hin; [destruct Hin|].
    destruct (md_eqb y x) eqn:E.
    - apply md_eqb_eq in E. subst y. exists [], l. auto.
    - destruct Hin as [->|Hin].
      + rewrite (proj2 (md_eqb_eq x x) eq_refl) in E. discriminate E.
      + destruct (IH Hin) as [pre [post [-> Hnot]]].
        exists (y :: pre), post. split; [reflexivity|].
        intros [->|H]; [|contradiction].
        rewrite (proj2 (md_eqb_eq x x) eq_refl) in E. discriminate E.
Qed.

  (** The most common of the year ends, the first of them in a tie. *)
Lemma most_common_spec (first : Z * Z) (others : list (Z * Z)) :
    exists kv more pre post,
      most_common_1 (Counter (first :: others)) = kv :: more
      /\ first :: others = pre ++ fst kv :: post
      /\ ~ In (fst kv) pre
      /\ (forall x, In x pre ->
            count_of x (first :: others) < count_of (fst kv) (first :: others))
      /\ (forall x, count_of x (first :: others)
                    <= count_of (fst kv) (first :: others)).
Proof.
    set (ends := first :: others).
    destruct (counter_spec ends) as [Hn Hget].
    assert (Hcount : forall k n, In (k, n) (Counter ends) ->
                                 n = count_of k ends /\ In k ends).
    { intros k n Hin.
      apply (in_get _ _ md_eqb md_eqb_eq _ _ _ Hn) in Hin.
      rewrite (Hget k) in Hin.
      destruct (Z.ltb_spec 0 (count_of k ends)) as [Hpos|]; [|discriminate].
      injection Hin as <-. split; [reflexivity|].
      apply count_of_pos. exact Hpos. }
    assert (Hkey : forall k, In k ends ->
                             In (k, count_of k ends) (Counter ends)).
    { intros k Hin. apply (get_in _ _ md_eqb md_eqb_eq).
      rewrite (Hget k). apply count_of_pos in Hin.
      destruct (Z.ltb_spec 0 (count_of k ends)); [reflexivity|lia]. }
    destruct (Counter ends) as [|x rest] eqn:Ec.
    { exfalso. apply (Hkey first). left. reflexivity. }
    destruct (max_by_count_spec rest [] x []) as [A [B [E [HA HB]]]];
      [intros a []|intros b []|].
    cbn [app] in E.
    set (kv := max_by_count x rest) in *.
    assert (Hkv : In kv (x :: rest)).
    { rewrite E. apply in_or_app. right. left. reflexivity. }
    destruct kv as [md n] eqn:Ekv. cbn [fst snd] in *.
    destruct (Hcount md n Hkv) as [-> Hmd].
    destruct (first_occurrence md ends Hmd) as [pre [post [Eends Hnot]]].
    exists (md, count_of md ends), [], pre, post. cbn [fst].
    split; [cbn [most_common_1]; fold kv; rewrite Ekv; reflexivity|].
    split; [exact Eends|]. split; [exact Hnot|]. split.
    - intros y Hy.
      destruct (counter_keys_first pre post md Hnot) as [more Hkeys].
      rewrite <- Eends, Ec in Hkeys.
      assert (Hsplit : map fst A = Dict.keys (Counter pre)).
      { apply (nodup_split_unique _ md (map fst A) (map fst B)
                 (Dict.keys (Counter pre)) more).
        - rewrite E in Hn. unfold Dict.keys in Hn.
          rewrite map_app in Hn. exact Hn.
        - rewrite <- Hkeys, E. unfold Dict.keys. rewrite map_app.
          reflexivity. }
      destruct (counter_spec pre) as [_ Hgetp].
      assert (Hin : In y (map fst A)).
      { rewrite Hsplit. apply (get_in_keys (Counter pre) y (count_of y pre)).
        rewrite (Hgetp y). apply count_of_pos in Hy.
        destruct (Z.ltb_spec 0 (count_of y pre)); [reflexivity|lia]. }
      apply in_map_iff in Hin. destruct Hin as [[y' ny] [Ey HinA]].
      cbn [fst] in Ey. subst y'.
      specialize (HA _ HinA). cbn [snd] in HA.
      assert (Hy' : In (y, ny) (x :: rest)).
      { rewrite E. apply in_or_app. left. exact HinA. }
      destruct (Hcount y ny Hy') as [-> _]. exact HA.
    - intros y.
      destruct (Z.ltb_spec 0 (count_of y ends)) as [Hpos|Hz].
      + apply count_of_pos in Hpos. specialize (Hkey y Hpos).
        rewrite E in Hkey. apply in_app_or in Hkey.
        destruct Hkey as [Hin|[Heq|Hin]].
        * specialize (HA _ Hin). cbn [snd] in HA. lia.
        * injection Heq as _ <-. lia.
        * specialize (HB _ Hin). cbn [snd] in HB. exact HB.
      + pose proof (count_of_nonneg md ends). lia.
Qed.

Lemma end_dates_loop_spec (labels : list string) :
    (Forall (fun label => exists r, parse_period_label label = Ok r) labels ->
     exists ends, end_dates_loop labels = Ok ends)
    /\ (forall e, end_dates_loop labels = Raise e ->
          exists label,
            In label labels /\ parse_period_label label = Raise e)
    /\ (forall ends, end_dates_loop labels = Ok ends ->
          forall md,
            In md ends
            <-> exists label p,
                In label labels
                /\ parse_period_label label = Ok (Some p)
                /\ p_type p = fiscal_year_t
                /\ md = (Date.month (end_date p), Date.day (end_date p))).
Proof.
    induction labels as [|label rest [IH1 [IH2 IH3]]]; cbn [end_dates_loop].
    - split; [intros _; exists []; reflexivity|].
      split; [discriminate|].
      intros ends H md. injection H as <-. split; [intros []|].
      intros [l [p [[] _]]].
    - split; [|split].
      + intros H. inversion H as [|? ? [r Hr] Hrest]; subst.
        destruct (IH1 Hrest) as [ends He]. rewrite Hr, He. cbn [bind].
        destruct r as [p|]; [destruct (p_type p)|]; eexists; reflexivity.
      + intros e H.
        destruct (parse_period_label label) as [parsed|e'] eqn:Ep;
          cbn [bind] in H.
        * destruct (end_dates_loop rest) as [ends|e''] eqn:Er;
            cbn [bind] in H.
          -- destruct parsed as [p|]; [destruct (p_type p)|];
               discriminate H.
          -- injection H as <-. destruct (IH2 e'' eq_refl) as [l [Hl Hp]].
             exists l. split; [right; exact Hl|exact Hp].
        * injection H as <-. exists label. split; [left; reflexivity|].
          exact Ep.
      + intros ends H md.
        destruct (parse_period_label label) as [parsed|e'] eqn:Ep;
          cbn [bind] in H; [|discriminate H].
        destruct (end_dates_loop rest) as [ends'|e''] eqn:Er;
          cbn [bind] in H; [|discriminate H].
        specialize (IH3 ends' eq_refl md).
        assert (Hrest : In md ends'
                        -> exists l p,
                            In l (label :: rest)
                            /\ parse_period_label l = Ok (Some p)
                            /\ p_type p = fiscal_year_t
                            /\ md = (Date.month (end_date p),
                                     Date.day (end_date p))).
        { intros Hin. apply IH3 in Hin.
          destruct Hin as [l [p [Hl Hp]]]. exists l, p.
          split; [right; exact Hl|exact Hp]. }
        assert (Hback : forall l p,
                   In l rest -> parse_period_label l = Ok (Some p) ->
                   p_type p = fiscal_year_t ->
                   md = (Date.month (end_date p), Date.day (end_date p)) ->
                   In md ends').
        { intros l p Hl Hp Ht Hm. apply IH3. exists l, p. auto. }
        destruct parsed as [p|]; [destruct (p_type p) eqn:Et|];
          injection H as <-; split;
          try exact Hrest;
          try (intros [l [q [[<-|Hl] [Hq [Ht Hm]]]]];
               [rewrite Ep in Hq; try discriminate Hq;
                injection Hq as <-; congruence
               |eapply Hback; eassumption]).
        * intros [<-|Hin]; [|apply Hrest; exact Hin].
          exists label, p. split; [left; reflexivity|auto].
        * intros [l [q [[<-|Hl] [Hq [Ht Hm]]]]].
          -- rewrite Ep in Hq. injection Hq as <-. left. symmetry. exact Hm.
          -- right. eapply Hback; eassumption.
Qed.

  (** ** Custom mappings *)

Lemma reverse_map_keeps (standard_label : string)
    (variations : list string) :
    forall (rm : Dict.t string string) (k : string),
      Dict.get String.eqb rm k = Some standard_label ->
      Dict.get String.eqb
        (fold_left
           (fun rm variation =>
              Dict.set String.eqb rm (Text.strip (Text.lower variation))
                       standard_label)
           variations rm) k
      = Some standard_label.
Proof.
    induction variations as [|v variations IH]; intros rm k H;
      cbn [fold_left]; [exact H|].
    apply IH. rewrite (get_set _ _ String.eqb String.eqb_eq).
    destruct (String.eqb _ k); [reflexivity|exact H].
Qed.

Lemma reverse_map_added (standard_label variation : string)
    (variations : list string) :
    forall rm : Dict.t string string,
      In variation variations ->
      Dict.get String.eqb
        (fold_left
           (fun rm variation =>
              Dict.set String.eqb rm (Text.strip (Text.lower variation))
                       standard_label)
           variations rm) (Text.strip (Text.lower variation))
      = Some standard_label.
Proof.
    induction variations as [|v variations IH]; intros rm Hin;
      [destruct Hin|].
    cbn [fold_left]. destruct Hin as [->|Hin].
    - apply reverse_map_keeps.
      rewrite (get_set _ _ String.eqb String.eqb_eq), String.eqb_refl.
      reflexivity.
    - apply IH. exact Hin.
Qed.
End MorePeriodFacts.

(** X24.  Every period that the parser returns carries the stripped label and
    two dates of the calendar, and its fiscal year is the year of its end
    date.  The number of a quarter is the quarter of the end month, the half
    is 1 exactly when the end month is June or earlier, and both start before
    they end; a fiscal year starts in an earlier year than it ends, or it is a
    range of years and runs from 1 January to 31 December. *)
Theorem parsed_period_dates_agree :
  forall (label : string) (p : periods.PeriodInfo),
    periods.parse_period_label label = Ok (Some p) ->
    periods.original_label p = Text.strip label
    /\ periods.valid_date (periods.start_date p) = true
    /\ periods.valid_date (periods.end_date p) = true
    /\ Date.year (periods.end_date p) = periods.fiscal_year p
    /\ match periods.p_type p with
       | periods.fiscal_year_t =>
           Date.year (periods.start_date p) < Date.year (periods.end_date p)
           \/ (Date.month (periods.start_date p) = 1
               /\ Date.day (periods.start_date p) = 1
               /\ Date.month (periods.end_date p) = 12
               /\ Date.day (periods.end_date p) = 31)
       | periods.quarter_t =>
           periods.quarter p
           = Some ((Date.month (periods.end_date p) - 1) / 3 + 1)
           /\ periods.before (periods.start_date p) (periods.end_date p)
       | periods.half_year_t =>
           (periods.half p = Some 1
            <-> Date.month (periods.end_date p) <= 6)
           /\ periods.before (periods.start_date p) (periods.end_date p)
       end.
Proof.
  intros label p. unfold periods.parse_period_label. intros H.
  destruct (periods._parse_fiscal_year (Text.strip label)) as [[x|]|] eqn:E1;
    cbn [bind] in H; [| |discriminate].
  { injection H as <-.
    destruct (parse_fiscal_year_dates _ _ E1) as [-> H']. tauto. }
  destruct (periods._parse_quarter (Text.strip label)) as [[x|]|] eqn:E2;
    cbn [bind] in H; [| |discriminate].
  { injection H as <-.
    destruct (parse_quarter_dates _ _ E2) as [-> H']. tauto. }
  destruct (parse_half_year_dates _ _ H) as [-> H']. tauto.
Qed.

(** The third quarter of 2023 ends in September. *)
Lemma parsed_period_dates_agree_witness :
  exists p,
    periods.parse_period_label "Q3 2023" = Ok (Some p)
    /\ Date.year (periods.end_date p) = periods.fiscal_year p.
Proof.
  destruct (periods.parse_period_label "Q3 2023") as [[p|]|e] eqn:E;
    [|vm_compute in E; discriminate E|vm_compute in E; discriminate E].
  exists p. split; [reflexivity|].
  apply (parsed_period_dates_agree "Q3 2023" p E).
Defined.

(** X25.  The parser raises nothing but the ValueError of a date that is not
    in the calendar and the KeyError of a quarter whose number, read from a
    label such as "Q5 2023", is not one of 1 to 4. *)
Theorem parse_period_label_raises :
  forall (label : string) (e : exn),
    periods.parse_period_label label = Raise e ->
    e = ValueError
    \/ (e = KeyError
        /\ exists r m g0 g1,
            In r periods.QUARTER_PATTERNS
            /\ Re.search true r (Text.strip label) = Some m
            /\ Re.groups m = [Some g0; Some g1]
            /\ ~ 1 <= Text.int g0 <= 4).
Proof.
  intros label e. unfold periods.parse_period_label. intros H.
  destruct (periods._parse_fiscal_year (Text.strip label)) as [[x|]|e1] eqn:E1;
    cbn [bind] in H.
  - discriminate H.
  - destruct (periods._parse_quarter (Text.strip label)) as [[x|]|e2] eqn:E2;
      cbn [bind] in H.
    + discriminate H.
    + left. apply (parse_half_year_raises _ _ H).
    + injection H as <-. apply (parse_quarter_raises _ _ E2).
  - injection H as <-. left. apply (parse_fiscal_year_raises _ _ E1).
Qed.

(** A fifth quarter is a KeyError. *)
Lemma parse_period_label_raises_witness :
  periods.parse_period_label "Q5 2023" = Raise KeyError
  /\ (KeyError = ValueError
      \/ (KeyError = KeyError
          /\ exists r m g0 g1,
              In r periods.QUARTER_PATTERNS
              /\ Re.search true r (Text.strip "Q5 2023") = Some m
              /\ Re.groups m = [Some g0; Some g1]
              /\ ~ 1 <= Text.int g0 <= 4)).
Proof.
  assert (E : periods.parse_period_label "Q5 2023" = Raise KeyError)
    by (vm_compute; reflexivity).
  split; [exact E|].
  exact (parse_period_label_raises "Q5 2023" KeyError E).
Defined.

(** X26.  [detect_fiscal_year_end] raises what the parser raises on one of the
    labels.  Otherwise it looks at the (month, day) of the end dates of the
    labels that parse as fiscal years: with none of them it returns None, and
    else the one that occurs most often, the earliest of them in a tie. *)
Theorem detect_fiscal_year_end_most_common :
  forall labels : list string,
    (forall e, periods.detect_fiscal_year_end labels = Raise e ->
       exists label,
         In label labels /\ periods.parse_period_label label = Raise e)
    /\ (Forall (fun label =>
                  exists r, periods.parse_period_label label = Ok r) labels ->
        exists ends,
          periods.end_dates_loop labels = Ok ends
          /\ (forall md,
                In md ends
                <-> exists label p,
                    In label labels
                    /\ periods.parse_period_label label = Ok (Some p)
                    /\ periods.p_type p = periods.fiscal_year_t
                    /\ md = (Date.month (periods.end_date p),
                             Date.day (periods.end_date p)))
          /\ match ends with
             | [] => periods.detect_fiscal_year_end labels = Ok None
             | _ :: _ =>
                 exists md pre post,
                   periods.detect_fiscal_year_end labels = Ok (Some md)
                   /\ ends = pre ++ md :: post
                   /\ ~ In md pre
                   /\ (forall x, In x pre ->
                         periods.count_of x ends < periods.count_of md ends)
                   /\ (forall x,
                         periods.count_of x ends <= periods.count_of md ends)
             end).
Proof.
  intros labels.
  destruct (end_dates_loop_spec labels) as [H1 [H2 H3]].
  unfold periods.detect_fiscal_year_end. split.
  - intros e H.
    destruct (periods.end_dates_loop labels) as [ends|e'] eqn:E;
      cbn [bind] in H.
    + destruct ends as [|first others]; [discriminate H|].
      destruct (most_common_spec first others) as [kv [more [? [? [Em _]]]]].
      rewrite Em in H. discriminate H.
    + injection H as <-. apply H2. reflexivity.
  - intros Hall. destruct (H1 Hall) as [ends He]. exists ends.
    split; [exact He|]. split; [apply H3; exact He|].
    rewrite He. cbn [bind].
    destruct ends as [|first others]; [reflexivity|].
    destruct (most_common_spec first others)
      as [kv [more [pre [post [Em Hrest]]]]].
    rewrite Em. exists (fst kv), pre, post. split; [reflexivity|exact Hrest].
Qed.

(** Of a year to December and two years to March, the year end is
    31 March. *)
Lemma detect_fiscal_year_end_most_common_witness :
  periods.detect_fiscal_year_end examples.year_end_labels = Ok (Some (3, 31))
  /\ exists ends,
      periods.end_dates_loop examples.year_end_labels = Ok ends
      /\ (forall md,
            In md ends
            <-> exists label p,
                In label examples.year_end_labels
                /\ periods.parse_period_label label = Ok (Some p)
                /\ periods.p_type p = periods.fiscal_year_t
                /\ md = (Date.month (periods.end_date p),
                         Date.day (periods.end_date p)))
      /\ match ends with
         | [] =>
             periods.detect_fiscal_year_end examples.year_end_labels
             = Ok None
         | _ :: _ =>
             exists md pre post,
               periods.detect_fiscal_year_end examples.year_end_labels
               = Ok (Some md)
               /\ ends = pre ++ md :: post
               /\ ~ In md pre
               /\ (forall x, In x pre ->
                     periods.count_of x ends < periods.count_of md ends)
               /\ (forall x,
                     periods.count_of x ends <= periods.count_of md ends)
         end.
Proof.
  split; [vm_compute; reflexivity|].
  apply (detect_fiscal_year_end_most_common examples.year_end_labels).
  unfold examples.year_end_labels.
  repeat (constructor; [eexists; vm_compute; reflexivity|]).
  constructor.
Defined.

(** X27.  After [add_custom_mapping] with a standard label that is not empty,
    every label whose cleaned form is the lower-cased and stripped form of one
    of the variations is standardized to that standard label, and the table
    lists the variations at the end of the entry of the standard label. *)
Theorem custom_mapping_round_trip :
  forall (self : periods.LabelStandardizer) (standard_label : string)
         (variations : list string),
    (forall variation label,
        standard_label <> "" ->
        In variation variations ->
        periods.clean_label label = Text.strip (Text.lower variation) ->
        periods.standardize_label
          (periods.add_custom_mapping self standard_label variations) label
        = standard_label)
    /\ Dict.get String.eqb
         (periods.standard_labels
            (periods.add_custom_mapping self standard_label variations))
         standard_label
       = Some (match Dict.get String.eqb (periods.standard_labels self)
                                standard_label with
               | Some old => old ++ variations
               | None => variations
               end).
Proof.
  intros self std variations. split.
  - intros v label Hne Hin Hclean.
    unfold periods.standardize_label, periods.add_custom_mapping.
    cbn [periods.reverse_map]. rewrite Hclean.
    rewrite (reverse_map_added std v variations _ Hin).
    destruct std; [contradiction|reflexivity].
  - unfold periods.add_custom_mapping. cbn [periods.standard_labels].
    rewrite (get_set _ _ String.eqb String.eqb_eq), String.eqb_refl.
    unfold Dict.mem.
    destruct (Dict.get String.eqb (periods.standard_labels self) std)
      as [old|] eqn:E.
    + rewrite E. reflexivity.
    + rewrite (get_set _ _ String.eqb String.eqb_eq), String.eqb_refl.
      reflexivity.
Qed.

(** With "top line" added under "revenue", the label "Top  Line (restated)"
    is standardized to "revenue". *)
Lemma custom_mapping_round_trip_witness :
  periods.standardize_label
    (periods.add_custom_mapping periods.init "revenue" ["Top Line"])
    "Top  Line (restated)"
  = "revenue".
Proof.
  destruct (custom_mapping_round_trip periods.init "revenue" ["Top Line"])
    as [H _].
  apply (H "Top Line" "Top  Line (restated)").
  - discriminate.
  - left. reflexivity.
  - vm_compute. reflexivity.
Defined.
